(** * AgenticProjectRecommender: job orchestration and resource control

    A shallow embedding of the job store ([backend/job_manager.py]), the
    token-bucket rate limiter ([utils/rate_limiter.py]), the retry wrapper
    and error formatting ([utils/error_handler.py]), the caching decorator
    ([utils/cache.py]), the skill matcher ([agents/skill_gap_analyzer.py])
    and the staged workflow with its background driver ([graph/nodes.py],
    [graph/workflow.py], [backend/main.py]), followed by the properties
    proved about them.

    Conventions of the embedding:
    - Python [int] is [Z]; a finite Python [float] is its exact value, a
      rational [Q]: clock readings and token counts are taken as they are,
      and where the code computes with floats that it stores or sleeps for
      (the match percentage, the retry delays) every operation rounds to
      the nearest binary64 number, ties to even ([Float.nearest]);
    - [datetime] is the number of microseconds since 0001-01-01T00:00:00,
      with the range check of the [datetime] type written out;
    - a Python [str] is a [string]; for skill names every character is read
      as the code point of the same number (0..255);
    - code that raises returns an [outcome]; code that mutates threads its
      state explicitly;
    - locks are not modelled: every method body is one atomic step. *)

From Stdlib Require Import ZArith QArith Qpower Qround Qabs String Ascii List Bool Lia.
From Stdlib Require Import DecimalString Lqa Sorted.
From stdpp Require Import base gmap sets list strings.

Local Open Scope string_scope.
Local Open Scope Z_scope.

(** ** Python runtime notions shared by all modules *)

Module Py.

(** The exception classes that occur in the modelled code. *)
Inductive exn_class :=
| BaseException
| KeyboardInterrupt
| Exception
| ValueError
| ZeroDivisionError
| OverflowError
| RecommenderException
| CVParsingError
| JobAnalysisError
| SkillGapAnalysisError
| ProjectRecommendationError
| APIError
| RateLimitError
| ConfigurationError.

#[export] Instance exn_class_eq_dec : EqDecision exn_class.
Proof. solve_decision. Defined.

(** The direct base class, as declared in [utils/error_handler.py] and in
    Python's builtins. *)
Definition base_class (c : exn_class) : option exn_class :=
  match c with
  | BaseException => None
  | KeyboardInterrupt => Some BaseException
  | Exception => Some BaseException
  | ValueError => Some Exception
  | ZeroDivisionError => Some Exception
  | OverflowError => Some Exception
  | RecommenderException => Some Exception
  | CVParsingError => Some RecommenderException
  | JobAnalysisError => Some RecommenderException
  | SkillGapAnalysisError => Some RecommenderException
  | ProjectRecommendationError => Some RecommenderException
  | APIError => Some RecommenderException
  | RateLimitError => Some APIError
  | ConfigurationError => Some RecommenderException
  end.

(** [issubclass c d], walking up the (depth at most 4) hierarchy. *)
Fixpoint issubclass_fuel (fuel : nat) (c d : exn_class) : bool :=
  if bool_decide (c = d) then true
  else match fuel with
       | O => false
       | S fuel' =>
           match base_class c with
           | Some b => issubclass_fuel fuel' b d
           | None => false
           end
       end.

Definition issubclass : exn_class -> exn_class -> bool := issubclass_fuel 4.

(** An exception object: its class, its message ([str(e)], which is also
    the [message] attribute of a [RecommenderException]) and the
    attributes of [APIError] / [RateLimitError]. *)
Record exn := mkExn {
  cls : exn_class;
  message : string;
  api_name : string;
  retry_after : option Z
}.

Definition isinstance (e : exn) (c : exn_class) : bool := issubclass (cls e) c.

Definition simple_exn (c : exn_class) (msg : string) : exn :=
  {| cls := c; message := msg; api_name := ""; retry_after := None |}.

(** Result of running a piece of code that may raise. *)
Inductive outcome (A : Type) :=
| Returned (a : A)
| Raised (e : exn).
Arguments Returned {A} a.
Arguments Raised {A} e.

(** Opaque Python values ([Any]): [None] is a value like any other. *)
Inductive pyval :=
| PyNone
| PyBool (b : bool)
| PyInt (z : Z)
| PyStr (s : string)
| PyObject (repr : string).

Definition is_not_None (v : pyval) : bool :=
  match v with PyNone => false | _ => true end.

(** Truthiness of a string: the empty string is falsy. *)
Definition str_truthy (s : string) : bool :=
  match s with EmptyString => false | _ => true end.

Definition opt_str_truthy (o : option string) : bool :=
  match o with Some s => str_truthy s | None => false end.

(** [str(n)] for an [int]. *)
Definition str_of_int (z : Z) : string := NilZero.string_of_int (Z.to_int z).

(** [sep.join(parts)]. *)
Fixpoint join (sep : string) (parts : list string) : string :=
  match parts with
  | [] => ""
  | [p] => p
  | p :: rest => p ++ sep ++ join sep rest
  end.

End Py.

(** ** Binary floating point *)

Module Float.

(** Python's [float] is the IEEE 754 binary64 format.  A finite float is
    represented by its exact value.  [nearest x] is the float that an
    operation with exact result [x] returns: [x] rounded to 53 significant
    bits (fewer below [2 ^ -1022], where the spacing stays [2 ^ -1074]),
    ties going to the even significand.  Results of magnitude [2 ^ 1024]
    and more are the infinities, see [round_to_float]. *)

Definition pow2 (e : Z) : Q := (2 ^ e)%Q.

(** The nearest integer, a tie going to the even one. *)
Definition round_half_even (x : Q) : Z :=
  let f := Qfloor x in
  match (x - inject_Z f ?= 1 # 2)%Q with
  | Lt => f
  | Gt => f + 1
  | Eq => if Z.even f then f else f + 1
  end.

(** The integer [e] with [2 ^ e <= x < 2 ^ (e + 1)], for positive [x]. *)
Definition floor_log2 (x : Q) : Z :=
  let e0 := Z.log2 (Qnum x) - Z.log2 (Z.pos (Qden x)) in
  if Qle_bool (pow2 e0) x then e0 else e0 - 1.

(** The exponent of the spacing of the floats around [x]. *)
Definition quantum (x : Q) : Z := Z.max (-1074) (floor_log2 x - 52).

Definition nearest_positive (x : Q) : Q :=
  (inject_Z (round_half_even (x / pow2 (quantum x))) * pow2 (quantum x))%Q.

Definition nearest (x : Q) : Q :=
  let x := Qred x in
  match (x ?= 0)%Q with
  | Eq => 0%Q
  | Gt => nearest_positive x
  | Lt => (- nearest_positive (- x))%Q
  end.

(** A float: finite, an infinity, or not a number. *)
Inductive float64 :=
| Finite (q : Q)
| Infinity (negative : bool)
| NaN.

(** The float for the exact result [x] of an operation: overflow gives an
    infinity. *)
Definition round_to_float (x : Q) : float64 :=
  let y := nearest x in
  if Qle_bool (pow2 1024) (Qabs y) then Infinity (negb (Qle_bool 0 y))
  else Finite y.

Definition is_zero (q : Q) : bool := Qeq_bool q 0.
Definition is_negative (q : Q) : bool := negb (Qle_bool 0 q).

(** [a * b] on floats. *)
Definition mul (a b : float64) : float64 :=
  match a, b with
  | NaN, _ | _, NaN => NaN
  | Finite x, Finite y => round_to_float (x * y)
  | Infinity n, Finite y =>
      if is_zero y then NaN else Infinity (xorb n (is_negative y))
  | Finite x, Infinity n =>
      if is_zero x then NaN else Infinity (xorb (is_negative x) n)
  | Infinity n, Infinity n' => Infinity (xorb n n')
  end.

(** [x] is a finite float. *)
Definition representable (x : Q) : Prop :=
  (nearest x == x)%Q /\ (Qabs x < pow2 1024)%Q.

End Float.

(** ** [datetime] and [timedelta] *)

Module Datetime.

(** Microseconds since [datetime.min]. *)
Definition datetime := Z.

(** [datetime.max] is 9999-12-31T23:59:59.999999: 3652059 days after
    [datetime.min], minus one microsecond. *)
Definition MAX : datetime := 3652059 * 86400 * 1000000 - 1.

Definition in_range (t : Z) : bool := (0 <=? t) && (t <=? MAX).

(** [timedelta(seconds=s)], in microseconds: raises [OverflowError] when
    the number of days exceeds 999999999 in magnitude; the message shows
    the days when they fit a C [int]. *)
Definition timedelta_seconds (s : Z) : Py.outcome Z :=
  let days := s / 86400 in
  if Z.abs days <=? 999999999 then Py.Returned (s * 1000000)
  else if (- 2 ^ 31 <=? days) && (days <? 2 ^ 31) then
    Py.Raised (Py.simple_exn Py.OverflowError
                 ("days=" ++ Py.str_of_int days
                  ++ "; must have magnitude <= 999999999"))
  else
    Py.Raised (Py.simple_exn Py.OverflowError
                 "Python int too large to convert to C int").

(** [t - d] and [t + d] on a [datetime]: raise [OverflowError] outside
    the representable range. *)
Definition shift (t : datetime) (d : Z) : Py.outcome datetime :=
  if in_range (t + d) then Py.Returned (t + d)
  else Py.Raised (Py.simple_exn Py.OverflowError "date value out of range").

Definition sub (t : datetime) (d : Z) : Py.outcome datetime := shift t (- d).
Definition add (t : datetime) (d : Z) : Py.outcome datetime := shift t d.

End Datetime.

(** ** [backend/job_manager.py] *)

Module JobManager.
Import Py Datetime.

Inductive JobStatus := PENDING | PROCESSING | COMPLETED | FAILED.

#[export] Instance JobStatus_eq_dec : EqDecision JobStatus.
Proof. solve_decision. Defined.

Record JobState := mkJobState {
  job_id : string;
  status : JobStatus;
  progress_percentage : Z;
  current_step : string;
  result : pyval;
  error : option string;
  created_at : datetime;
  updated_at : datetime
}.

(** The names that [update_job(job_id, **kwargs)] cannot hand on as an
    ordinary keyword: the attributes of a [JobState] (its eight fields and
    its method [update]), for which the [hasattr] test of [JobState.update]
    holds; [self] and [job_id], which Python rejects in the call itself
    because the positional parameters have these names; and, to be on the
    safe side, every name with two leading underscores, since the special
    attributes of an object are spelled that way. *)
Definition attribute_names : list string :=
  ["job_id"; "status"; "progress_percentage"; "current_step"; "result";
   "error"; "created_at"; "updated_at"; "update"].

Definition reserved_name (key : string) : bool :=
  bool_decide (key ∈ attribute_names) || String.eqb key "self"
  || String.prefix "__" key.

(** One keyword argument that reaches [JobState.update]: the assignment of
    a field ([job_id] cannot arrive, see above; the values have the types
    of the fields), or a keyword [kw_other] whose name is no attribute of
    the object and which the [hasattr] test skips. *)
Inductive kwarg :=
| kw_status (s : JobStatus)
| kw_progress_percentage (p : Z)
| kw_current_step (s : string)
| kw_result (r : pyval)
| kw_error (e : string)
| kw_created_at (t : datetime)
| kw_updated_at (t : datetime)
| kw_other (key : string) (v : pyval) (not_reserved : reserved_name key = false).

Definition setattr (j : JobState) (k : kwarg) : JobState :=
  match k with
  | kw_status s =>
      mkJobState (job_id j) s (progress_percentage j) (current_step j)
                 (result j) (error j) (created_at j) (updated_at j)
  | kw_progress_percentage p =>
      mkJobState (job_id j) (status j) p (current_step j)
                 (result j) (error j) (created_at j) (updated_at j)
  | kw_current_step s =>
      mkJobState (job_id j) (status j) (progress_percentage j) s
                 (result j) (error j) (created_at j) (updated_at j)
  | kw_result r =>
      mkJobState (job_id j) (status j) (progress_percentage j) (current_step j)
                 r (error j) (created_at j) (updated_at j)
  | kw_error e =>
      mkJobState (job_id j) (status j) (progress_percentage j) (current_step j)
                 (result j) (Some e) (created_at j) (updated_at j)
  | kw_created_at t =>
      mkJobState (job_id j) (status j) (progress_percentage j) (current_step j)
                 (result j) (error j) t (updated_at j)
  | kw_updated_at t =>
      mkJobState (job_id j) (status j) (progress_percentage j) (current_step j)
                 (result j) (error j) (created_at j) t
  | kw_other _ _ _ => j
  end.

Definition set_updated_at (now : datetime) (j : JobState) : JobState :=
  mkJobState (job_id j) (status j) (progress_percentage j) (current_step j)
             (result j) (error j) (created_at j) now.

(** [JobState.update]: assign every keyword, then refresh [updated_at]. *)
Definition update (kwargs : list kwarg) (now : datetime) (j : JobState) : JobState :=
  set_updated_at now (foldl setattr j kwargs).

(** [JobState] objects are mutable and handled by reference: [loc] is the
    identity of an object, [heap] holds the objects allocated so far, and
    the dictionary [_jobs] maps a job id to the object stored under it. *)
Definition loc := positive.

Record JobManager := mkJobManager {
  heap : gmap loc JobState;
  _jobs : gmap string loc;
  _retention_seconds : Z
}.

Definition with_heap (h : gmap loc JobState) (m : JobManager) : JobManager :=
  mkJobManager h (_jobs m) (_retention_seconds m).

Definition with_jobs (js : gmap string loc) (m : JobManager) : JobManager :=
  mkJobManager (heap m) js (_retention_seconds m).

Definition __init__ (retention_seconds : Z) : JobManager :=
  mkJobManager ∅ ∅ retention_seconds.

(** Attribute access through a reference. *)
Definition deref (m : JobManager) (l : loc) : option JobState := heap m !! l.

(** What a holder of a reference can do to the object: any assignment to
    its fields. *)
Definition mutate_through (l : loc) (f : JobState -> JobState) (m : JobManager)
  : JobManager :=
  with_heap (alter f l (heap m)) m.

Definition is_terminal (s : JobStatus) : bool :=
  match s with COMPLETED | FAILED => true | _ => false end.

(** The condition of the list comprehension in [_cleanup_old_jobs]. *)
Definition to_remove (m : JobManager) (cutoff_time : datetime) (entry : string * loc)
  : bool :=
  match deref m entry.2 with
  | Some job => is_terminal (status job) && (updated_at job <? cutoff_time)
  | None => false
  end.

(** [_cleanup_old_jobs]: [now] is the value of [datetime.utcnow()]. *)
Definition _cleanup_old_jobs (now : datetime) (m : JobManager)
  : outcome unit * JobManager :=
  match timedelta_seconds (_retention_seconds m) with
  | Raised e => (Raised e, m)
  | Returned delta =>
      match sub now delta with
      | Raised e => (Raised e, m)
      | Returned cutoff_time =>
          let jobs_to_remove :=
            fst <$> filter (fun e => Is_true (to_remove m cutoff_time e))
                           (map_to_list (_jobs m)) in
          (Returned tt,
           with_jobs (foldl (fun js job_id => delete job_id js) (_jobs m)
                            jobs_to_remove) m)
      end
  end.

(** [create_job]: [uuid] is the string produced by [uuid.uuid4()], and the
    two time stamps are the two readings of [datetime.utcnow()] made by the
    field defaults. *)
Definition create_job (uuid : string) (now_created now_updated : datetime)
    (m : JobManager) : string * JobManager :=
  let l := fresh (dom (heap m)) in
  let job := mkJobState uuid PENDING 0 "Initializing..." PyNone None
                        now_created now_updated in
  (uuid, mkJobManager (<[l := job]> (heap m)) (<[uuid := l]> (_jobs m))
                      (_retention_seconds m)).

(** [get_job] returns [self._jobs.get(job_id)]: the stored object itself. *)
Definition get_job (job_id : string) (m : JobManager) : option loc :=
  _jobs m !! job_id.

Definition update_job (now : datetime) (job_id : string) (kwargs : list kwarg)
    (m : JobManager) : JobManager :=
  match _jobs m !! job_id with
  | Some l => with_heap (alter (update kwargs now) l (heap m)) m
  | None => m
  end.

Definition set_processing (now : datetime) (job_id : string) (current_step : string)
  : JobManager -> JobManager :=
  update_job now job_id [kw_status PROCESSING; kw_current_step current_step].

Definition set_progress (now : datetime) (job_id : string) (percentage : Z)
    (step : string) : JobManager -> JobManager :=
  update_job now job_id
    [kw_progress_percentage (Z.min 100 (Z.max 0 percentage)); kw_current_step step].

Definition set_completed (now : datetime) (job_id : string) (result : pyval)
  : JobManager -> JobManager :=
  update_job now job_id
    [kw_status COMPLETED; kw_progress_percentage 100; kw_current_step "Completed";
     kw_result result].

Definition set_failed (now : datetime) (job_id : string) (error : string)
  : JobManager -> JobManager :=
  update_job now job_id
    [kw_status FAILED; kw_current_step "Failed"; kw_error error].

Definition delete_job (job_id : string) (m : JobManager) : bool * JobManager :=
  match _jobs m !! job_id with
  | Some _ => (true, with_jobs (delete job_id (_jobs m)) m)
  | None => (false, m)
  end.

(** Reading a job the way the status endpoints do: [get_job] followed by
    attribute access on the returned object. *)
Definition read_job (job_id : string) (m : JobManager) : option JobState :=
  l ← get_job job_id m; deref m l.

(** [get_all_jobs]: a copy of the dictionary (the objects are not copied). *)
Definition get_all_jobs (m : JobManager) : gmap string loc := _jobs m.

(** Every id of the dictionary refers to an allocated object, and no object
    is stored under two ids. *)
Definition store_ok (m : JobManager) : Prop :=
  (forall j l, _jobs m !! j = Some l -> is_Some (heap m !! l))
  /\ (forall j1 j2 l, _jobs m !! j1 = Some l -> _jobs m !! j2 = Some l -> j1 = j2).

End JobManager.

(** ** The [time] module *)

Module Time.
Import Py.

(** Wall-clock time as seen through [time.time()] and [time.sleep()]:
    [now] is the current reading, [slept] the durations of the calls to
    [time.sleep] made so far, oldest first.  A sleep lasts exactly the
    requested duration. *)
Record Clock := mkClock {
  now : Q;
  slept : list Q
}.

Definition Qltb (a b : Q) : bool := negb (Qle_bool b a).

(** [time.sleep(d)]: a negative duration raises [ValueError]. *)
Definition time_sleep (d : Q) (c : Clock) : outcome unit * Clock :=
  if Qltb d 0 then
    (Raised (simple_exn ValueError "sleep length must be non-negative"), c)
  else (Returned tt, mkClock (now c + d)%Q (slept c ++ [d])).

(** [time.sleep] on a float: an infinite duration does not fit the
    timestamp type, and a NaN is refused. *)
Definition time_sleep_float (d : Float.float64) (c : Clock) : outcome unit * Clock :=
  match d with
  | Float.Finite q => time_sleep q c
  | Float.Infinity _ =>
      (Raised (simple_exn OverflowError
                          "timestamp too large to convert to C _PyTime_t"), c)
  | Float.NaN =>
      (Raised (simple_exn ValueError "Invalid value NaN (not a number)"), c)
  end.

End Time.

(** ** [utils/rate_limiter.py] *)

Module RateLimiter.
Import Py Time.

(** The fields of [config.settings] read by the limiter. *)
Record Settings := mkSettings {
  enable_rate_limiting : bool;
  github_rate_limit : Z;
  youtube_rate_limit : Z;
  google_rate_limit : Z;
  llm_rate_limit : Z
}.

Record TokenBucket := mkTokenBucket {
  rate : Z;
  per : Z;
  tokens : Q;
  last_update : Q
}.

Definition TokenBucket__init__ (rate per : Z) (t : Q) : TokenBucket :=
  mkTokenBucket rate per (inject_Z rate) t.

(** Python's [min(a, b)]: [b] when [b < a], otherwise [a]. *)
Definition py_min (a b : Q) : Q := if Qltb b a then b else a.

(** [TokenBucket.consume], [t] being the reading of [time.time()].  The
    division of the float [elapsed * self.rate] by [self.per] raises
    [ZeroDivisionError] before any field is assigned. *)
Definition consume (requested : Z) (t : Q) (b : TokenBucket)
  : outcome bool * TokenBucket :=
  let elapsed := (t - last_update b)%Q in
  if per b =? 0 then
    (Raised (simple_exn ZeroDivisionError "float division by zero"), b)
  else
    let refilled :=
      py_min (inject_Z (rate b))
             (tokens b + elapsed * inject_Z (rate b) / inject_Z (per b))%Q in
    if Qle_bool (inject_Z requested) refilled then
      (Returned true,
       mkTokenBucket (rate b) (per b) (refilled - inject_Z requested)%Q t)
    else
      (Returned false, mkTokenBucket (rate b) (per b) refilled t).

(** [TokenBucket.wait_time].  A bucket of rate 0 holds an [int] number of
    tokens, [min] returning [self.rate] itself in [consume]: the division
    is one of integers. *)
Definition wait_time (b : TokenBucket) : outcome Q :=
  if Qle_bool 1 (tokens b) then Returned 0%Q
  else
    let tokens_needed := (1 - tokens b)%Q in
    if rate b =? 0 then
      Raised (simple_exn ZeroDivisionError "division by zero")
    else Returned (tokens_needed * inject_Z (per b) / inject_Z (rate b))%Q.

Record RateLimiter := mkRateLimiter {
  limiters : gmap string TokenBucket
}.

Definition RateLimiter__init__ (settings : Settings) (t : Q) : RateLimiter :=
  if enable_rate_limiting settings then
    mkRateLimiter
      (<["llm" := TokenBucket__init__ (llm_rate_limit settings) 60 t]>
         (<["youtube" := TokenBucket__init__ (youtube_rate_limit settings) 60 t]>
            (<["github" := TokenBucket__init__ (github_rate_limit settings) 60 t]> ∅)))
  else mkRateLimiter ∅.

Definition store_bucket (service : string) (b : TokenBucket) (r : RateLimiter)
  : RateLimiter :=
  mkRateLimiter (<[service := b]> (limiters r)).

(** [RateLimiter.acquire]. *)
Definition acquire (settings : Settings) (service : string) (requested : Z)
    (wait : bool) (r : RateLimiter) (c : Clock)
  : outcome bool * RateLimiter * Clock :=
  if negb (enable_rate_limiting settings) then (Returned true, r, c)
  else
    match limiters r !! service with
    | None => (Returned true, r, c)
    | Some limiter =>
        match consume requested (now c) limiter with
        | (Raised e, limiter1) => (Raised e, store_bucket service limiter1 r, c)
        | (Returned true, limiter1) =>
            (Returned true, store_bucket service limiter1 r, c)
        | (Returned false, limiter1) =>
            if wait then
              match wait_time limiter1 with
              | Raised e => (Raised e, store_bucket service limiter1 r, c)
              | Returned w =>
                  match time_sleep w c with
                  | (Raised e, c1) =>
                      (Raised e, store_bucket service limiter1 r, c1)
                  | (Returned _, c1) =>
                      let '(res, limiter2) := consume requested (now c1) limiter1 in
                      (res, store_bucket service limiter2 r, c1)
                  end
              end
            else (Returned false, store_bucket service limiter1 r, c)
        end
    end.

(** [n] calls of [consume], all at the instant [t]. *)
Fixpoint consume_many (n : nat) (requested : Z) (t : Q) (b : TokenBucket)
  : list (outcome bool) * TokenBucket :=
  match n with
  | O => ([], b)
  | S n' =>
      let '(res, b1) := consume requested t b in
      let '(rest, b2) := consume_many n' requested t b1 in
      (res :: rest, b2)
  end.

(** [RateLimiter.get_wait_time]. *)
Definition get_wait_time (settings : Settings) (service : string) (r : RateLimiter)
  : outcome Q :=
  if negb (enable_rate_limiting settings) then Returned 0%Q
  else
    match limiters r !! service with
    | None => Returned 0%Q
    | Some limiter => wait_time limiter
    end.

(** [getattr(settings, f"{service}_rate_limit")]: the four limits of
    [config.Settings]; [None] where no attribute has that name. *)
Definition rate_limit_attr (settings : Settings) (service : string) : option Z :=
  if String.eqb service "github" then Some (github_rate_limit settings)
  else if String.eqb service "youtube" then Some (youtube_rate_limit settings)
  else if String.eqb service "google" then Some (google_rate_limit settings)
  else if String.eqb service "llm" then Some (llm_rate_limit settings)
  else None.

(** [RateLimiter.reset], [t] being the reading of [time.time()] taken by the
    new buckets.  [None] stands for the failure of [getattr]. *)
Definition reset (settings : Settings) (service : option string) (t : Q)
    (r : RateLimiter) : option RateLimiter :=
  if opt_str_truthy service then
    let name := default "" service in
    match limiters r !! name with
    | Some _ =>
        match rate_limit_attr settings name with
        | Some limit => Some (store_bucket name (TokenBucket__init__ limit 60 t) r)
        | None => None
        end
    | None => Some r
    end
  else Some (RateLimiter__init__ settings t).

Section RateLimited.

(** The decorated function acts on a state of the world of its own. *)
Variables World V : Type.
Variable func : World -> outcome V * World.
Variable settings : Settings.
Variable service : string.
Variable requested : Z.
Variable wait : bool.

(** The [wrapper] built by [rate_limited(service, tokens, wait)(func)]. *)
Definition rate_limited (r : RateLimiter) (c : Clock) (w : World)
  : outcome V * RateLimiter * Clock * World :=
  match acquire settings service requested wait r c with
  | (Raised e, r1, c1) => (Raised e, r1, c1, w)
  | (Returned true, r1, c1) =>
      let '(res, w1) := func w in (res, r1, c1, w1)
  | (Returned false, r1, c1) =>
      (Raised (simple_exn Exception ("Rate limit exceeded for " ++ service)),
       r1, c1, w)
  end.

End RateLimited.

Arguments rate_limited {World V} func settings service requested wait.

End RateLimiter.

(** ** [utils/rate_limiter.py]: the sliding window limiter *)

Module SlidingWindowRateLimiter.
Import Py Time.

Record SlidingWindowRateLimiter := mkSlidingWindowRateLimiter {
  rate : Z;
  window : Z;
  requests : list Q
}.

Definition __init__ (rate window : Z) : SlidingWindowRateLimiter :=
  mkSlidingWindowRateLimiter rate window [].

(** The [while self.requests and self.requests[0] < cutoff: popleft()]
    loop. *)
Fixpoint popleft_while_before (cutoff : Q) (requests : list Q) : list Q :=
  match requests with
  | [] => []
  | oldest :: rest =>
      if Qltb oldest cutoff then popleft_while_before cutoff rest else requests
  end.

(** [is_allowed], [t] being the reading of [time.time()]. *)
Definition is_allowed (t : Q) (s : SlidingWindowRateLimiter)
  : bool * SlidingWindowRateLimiter :=
  let cutoff := (t - inject_Z (window s))%Q in
  let kept := popleft_while_before cutoff (requests s) in
  if Z.of_nat (length kept) <? rate s then
    (true, mkSlidingWindowRateLimiter (rate s) (window s) (kept ++ [t]))
  else (false, mkSlidingWindowRateLimiter (rate s) (window s) kept).

(** Python's [max(a, b)]: [b] when [b > a], otherwise [a]. *)
Definition py_max (a b : Q) : Q := if Qltb a b then b else a.

(** [wait_time]; [None] stands for the [IndexError] of [self.requests[0]] on
    an empty deque. *)
Definition wait_time (t : Q) (s : SlidingWindowRateLimiter) : option Q :=
  if Z.of_nat (length (requests s)) <? rate s then Some 0%Q
  else
    match requests s with
    | [] => None
    | oldest :: _ => Some (py_max 0 ((oldest + inject_Z (window s)) - t))%Q
    end.

(** A sequence of calls of [is_allowed] at the times [ts]: the times of the
    calls that were allowed, and the limiter afterwards. *)
Fixpoint is_allowed_calls (ts : list Q) (s : SlidingWindowRateLimiter)
  : list Q * SlidingWindowRateLimiter :=
  match ts with
  | [] => ([], s)
  | t :: rest =>
      let '(ok, s1) := is_allowed t s in
      let '(allowed, s2) := is_allowed_calls rest s1 in
      ((if ok then t :: allowed else allowed), s2)
  end.

(** The calls of a list of allowed calls that a call at time [t] still counts:
    those not older than [t - window]. *)
Definition within_window (window : Z) (t : Q) (allowed : list Q) : list Q :=
  List.filter (fun a => negb (Qltb a (t - inject_Z window)%Q)) allowed.

End SlidingWindowRateLimiter.

(** ** [utils/error_handler.py] *)

Module ErrorHandler.
Import Py Time.

(** [format_error_for_user]: the chain of [isinstance] tests, in the order
    of the source.  [if error.retry_after] is false for [None] and for 0. *)
Definition format_error_for_user (error : exn) : string :=
  if isinstance error CVParsingError then
    "❌ Failed to parse CV: " ++ message error
    ++ ". Please ensure the file is a valid PDF or DOCX."
  else if isinstance error JobAnalysisError then
    "❌ Failed to analyze job description: " ++ message error
    ++ ". Please check the job description text."
  else if isinstance error RateLimitError then
    let msg := "⏱️ API rate limit exceeded for " ++ api_name error ++ "." in
    match retry_after error with
    | Some n =>
        if n =? 0 then msg
        else msg ++ " Please wait " ++ str_of_int n ++ " seconds."
    | None => msg
    end
  else if isinstance error APIError then
    "🌐 API error (" ++ api_name error ++ "): " ++ message error
    ++ ". Please try again later."
  else if isinstance error ConfigurationError then
    "⚙️ Configuration error: " ++ message error
    ++ ". Please check your settings."
  else if isinstance error RecommenderException then
    "❌ Error: " ++ message error
  else
    "❌ An unexpected error occurred: " ++ message error ++ ". Please try again.".

Section HandleErrors.

Variables World V : Type.
Variable func : World -> outcome V * World.
Variable func__name__ : string.

(** The arguments of the decorator ([log_traceback] only affects logging). *)
Variable default_return : V.
Variable raise_on_error : bool.

(** The [wrapper] built by [handle_errors(default_return, raise_on_error)].
    The bare [raise] re-raises the exception that was caught; an exception
    that is no [Exception] passes both handlers.  (The [details] of the new
    [RecommenderException] are not part of [exn].) *)
Definition handle_errors (w : World) : outcome V * World :=
  match func w with
  | (Returned v, w1) => (Returned v, w1)
  | (Raised e, w1) =>
      if isinstance e RecommenderException then
        if raise_on_error then (Raised e, w1)
        else (Returned default_return, w1)
      else if isinstance e Exception then
        if raise_on_error then
          (Raised (simple_exn RecommenderException
                              ("Unexpected error in " ++ func__name__)), w1)
        else (Returned default_return, w1)
      else (Raised e, w1)
  end.

End HandleErrors.

Arguments handle_errors {World V} func func__name__ default_return raise_on_error w.

(** [range(n)] as the list of its values, starting from [lo]. *)
Fixpoint zrange (lo : Z) (n : nat) : list Z :=
  match n with
  | O => []
  | S n' => lo :: zrange (lo + 1) n'
  end.

Definition range (n : Z) : list Z := zrange 0 (Z.to_nat n).

Section RetryOnError.

(** The decorated function: it acts on some state of the world and returns
    a value or raises. *)
Variables World V : Type.
Variable func : World -> outcome V * World.

(** The arguments of the decorator; [delay] and [backoff] are finite
    floats. *)
Variable max_retries : Z.
Variable delay : Q.
Variable backoff : Q.
Variable exceptions : list exn_class.

(** [except exceptions as e] catches [e] when it is an instance of one of
    the classes of the tuple. *)
Definition catches (e : exn) : bool := existsb (isinstance e) exceptions.

(** The [for attempt in range(max_retries + 1)] loop of [wrapper], followed
    by the statements after it; [current_delay *= backoff] is a float
    multiplication.  The result [Returned None] stands for the wrapper
    falling off its end (an exception object is always truthy, so this
    happens only when the loop body never ran). *)
Fixpoint retry_loop (attempts : list Z) (current_delay : Float.float64)
    (last_exception : option exn) (w : World) (c : Clock)
  : outcome (option V) * World * Clock :=
  match attempts with
  | [] =>
      match last_exception with
      | Some e => (Raised e, w, c)
      | None => (Returned None, w, c)
      end
  | attempt :: rest =>
      match func w with
      | (Returned v, w1) => (Returned (Some v), w1, c)
      | (Raised e, w1) =>
          if catches e then
            if attempt <? max_retries then
              match time_sleep_float current_delay c with
              | (Raised e', c1) => (Raised e', w1, c1)
              | (Returned _, c1) =>
                  retry_loop rest (Float.mul current_delay (Float.Finite backoff))
                             (Some e) w1 c1
              end
            else retry_loop rest current_delay (Some e) w1 c
          else (Raised e, w1, c)
      end
  end.

(** The function returned by [retry_on_error(...)(func)]. *)
Definition retry_on_error (w : World) (c : Clock)
  : outcome (option V) * World * Clock :=
  retry_loop (range (max_retries + 1)) (Float.Finite delay) None w c.

(** An error of a retryable kind: an instance of one of the listed classes,
    that is, of the class itself or of one of its subclasses. *)
Definition retryable (e : exn) : Prop :=
  exists cl, In cl exceptions /\ isinstance e cl = true.

(** [caught_failures w es w']: starting in [w], [length es] consecutive
    calls of [func] raise the exceptions [es], every one of them of a
    retryable kind, and leave the world in [w']. *)
Inductive caught_failures : World -> list exn -> World -> Prop :=
| caught_nil (w : World) : caught_failures w [] w
| caught_cons (w w1 w2 : World) (e : exn) (es : list exn) :
    func w = (Raised e, w1) ->
    retryable e ->
    caught_failures w1 es w2 ->
    caught_failures w (e :: es) w2.

(** The delay in force at attempt [i]: [delay] multiplied [i] times by
    [backoff], each product a float operation. *)
Fixpoint nth_delay (i : nat) : Float.float64 :=
  match i with
  | O => Float.Finite delay
  | S i' => Float.mul (nth_delay i') (Float.Finite backoff)
  end.

(** [ds] are the sleeps made after the attempts [a], [a+1], ...: the one
    after attempt [a + i] lasts [nth_delay (a + i)]. *)
Definition backoff_delays (a : nat) (ds : list Q) : Prop :=
  forall (i : nat) (d : Q),
    ds !! i = Some d -> nth_delay (a + i) = Float.Finite d.

End RetryOnError.

Arguments retry_loop {World V} func max_retries backoff exceptions.
Arguments retry_on_error {World V} func max_retries delay backoff exceptions.
Arguments caught_failures {World V} func exceptions.

End ErrorHandler.

(** ** [utils/cache.py] *)

Module Cache.
Import Py Datetime.

(** [InMemoryCache]: the dictionary maps a key to the pair of the value and
    its expiry. *)
Record InMemoryCache := mkInMemoryCache {
  _cache : gmap string (pyval * datetime);
  _ttl : Z
}.

Definition InMemoryCache__init__ (ttl : Z) : InMemoryCache :=
  mkInMemoryCache ∅ ttl.

(** [InMemoryCache.get], [now] being the reading of [datetime.now()]: the
    stored value while it has not expired; an expired entry is deleted; in
    every other case [None]. *)
Definition get (key : string) (now : datetime) (c : InMemoryCache)
  : pyval * InMemoryCache :=
  match _cache c !! key with
  | Some (value, expiry) =>
      if now <? expiry then (value, c)
      else (PyNone, mkInMemoryCache (delete key (_cache c)) (_ttl c))
  | None => (PyNone, c)
  end.

(** [ttl or self._ttl]: [None] and 0 give the default. *)
Definition effective_ttl (ttl : option Z) (c : InMemoryCache) : Z :=
  match ttl with
  | Some t => if t =? 0 then _ttl c else t
  | None => _ttl c
  end.

(** [InMemoryCache.set]. *)
Definition set (key : string) (value : pyval) (ttl : option Z) (now : datetime)
    (c : InMemoryCache) : outcome unit * InMemoryCache :=
  match timedelta_seconds (effective_ttl ttl c) with
  | Raised e => (Raised e, c)
  | Returned delta =>
      match add now delta with
      | Raised e => (Raised e, c)
      | Returned expiry =>
          (Returned tt,
           mkInMemoryCache (<[key := (value, expiry)]> (_cache c)) (_ttl c))
      end
  end.

(** [CacheManager] with the in-memory backend, or without a backend when
    caching was disabled at construction.  (The Redis backend, an external
    server, is not part of the model.) *)
Record CacheManager := mkCacheManager {
  backend : option InMemoryCache
}.

Definition CacheManager__init__ (enable_caching : bool) (cache_ttl : Z)
  : CacheManager :=
  if enable_caching then mkCacheManager (Some (InMemoryCache__init__ cache_ttl))
  else mkCacheManager None.

Definition manager_get (key : string) (now : datetime) (m : CacheManager)
  : pyval * CacheManager :=
  match backend m with
  | None => (PyNone, m)
  | Some c => let '(v, c') := get key now c in (v, mkCacheManager (Some c'))
  end.

Definition manager_set (key : string) (value : pyval) (ttl : option Z)
    (now : datetime) (m : CacheManager) : outcome unit * CacheManager :=
  match backend m with
  | None => (Returned tt, m)
  | Some c =>
      let '(r, c') := set key value ttl now c in (r, mkCacheManager (Some c'))
  end.

Section Cached.

(** The decorated function and its surroundings: the state of the world it
    acts on, the clock of that world, the arguments of a call and the digest
    [CacheManager.generate_key] computes from them (md5 of their JSON
    form). *)
Variables World Args : Type.
Variable datetime_now : World -> datetime.
Variable generate_key : Args -> string.
Variable func : Args -> World -> outcome pyval * World.
Variable func__name__ : string.

(** [settings.enable_caching], read at every call. *)
Variable enable_caching : bool.

(** The arguments of the decorator. *)
Variable ttl : option Z.
Variable key_prefix : string.

Definition cache_key (args : Args) : string :=
  key_prefix ++ ":" ++ func__name__ ++ ":" ++ generate_key args.

(** The [wrapper] built by [cached(ttl, key_prefix)(func)]. *)
Definition cached (args : Args) (m : CacheManager) (w : World)
  : outcome pyval * CacheManager * World :=
  if negb enable_caching then
    let '(r, w1) := func args w in (r, m, w1)
  else
    let '(cached_result, m1) := manager_get (cache_key args) (datetime_now w) m in
    if is_not_None cached_result then (Returned cached_result, m1, w)
    else
      match func args w with
      | (Raised e, w1) => (Raised e, m1, w1)
      | (Returned result, w1) =>
          match manager_set (cache_key args) result ttl (datetime_now w1) m1 with
          | (Raised e, m2) => (Raised e, m2, w1)
          | (Returned _, m2) => (Returned result, m2, w1)
          end
      end.

(** The same call made [n] times in a row. *)
Fixpoint cached_calls (n : nat) (args : Args) (m : CacheManager) (w : World)
  : list (outcome pyval) * CacheManager * World :=
  match n with
  | O => ([], m, w)
  | S n' =>
      let '(r, m1, w1) := cached args m w in
      let '(rs, m2, w2) := cached_calls n' args m1 w1 in
      (r :: rs, m2, w2)
  end.

(** The function itself called [n] times in a row. *)
Fixpoint plain_calls (n : nat) (args : Args) (w : World)
  : list (outcome pyval) * World :=
  match n with
  | O => ([], w)
  | S n' =>
      let '(r, w1) := func args w in
      let '(rs, w2) := plain_calls n' args w1 in
      (r :: rs, w2)
  end.

End Cached.

Arguments cached {World Args}.
Arguments cached_calls {World Args}.
Arguments plain_calls {World Args}.

(** No entry under [key], or an entry whose value is [None]. *)
Definition absent_or_None (key : string) (m : CacheManager) : Prop :=
  match backend m with
  | None => True
  | Some c =>
      match _cache c !! key with
      | Some (v, _) => v = PyNone
      | None => True
      end
  end.

(** [InMemoryCache.delete]: silent when the key is absent. *)
Definition delete (key : string) (c : InMemoryCache) : InMemoryCache :=
  match _cache c !! key with
  | Some _ => mkInMemoryCache (base.delete key (_cache c)) (_ttl c)
  | None => c
  end.

(** [InMemoryCache.clear]. *)
Definition clear (c : InMemoryCache) : InMemoryCache :=
  mkInMemoryCache ∅ (_ttl c).

(** The list [expired_keys] that [size] computes: the keys of the entries
    with [now >= expiry]. *)
Definition expired_keys (now : datetime) (c : InMemoryCache) : list string :=
  (List.filter (fun kv : string * (pyval * datetime) => kv.2.2 <=? now)
               (map_to_list (_cache c))).*1.

(** [InMemoryCache.size]: deletes the expired keys one by one, then counts. *)
Definition size (now : datetime) (c : InMemoryCache) : Z * InMemoryCache :=
  let cache' :=
    foldl (fun d key => base.delete key d) (_cache c) (expired_keys now c) in
  (Z.of_nat (base.size cache'), mkInMemoryCache cache' (_ttl c)).

End Cache.

(** ** Python [str] methods used on skill names *)

Module PyStr.

Definition chars (s : string) : list ascii := list_ascii_of_string s.
Definition of_chars (l : list ascii) : string := string_of_list_ascii l.

Definition code_point (c : ascii) : N := N_of_ascii c.

(** [c.lower()] for a code point below 256: the letters A..Z and the
    Latin-1 capitals U+00C0..U+00DE (the multiplication sign U+00D7
    excepted) move up by 32. *)
Definition lower_char (c : ascii) : ascii :=
  let n := code_point c in
  if ((65 <=? n) && (n <=? 90))%N then ascii_of_N (n + 32)
  else if ((192 <=? n) && (n <=? 222) && negb (n =? 215))%N then ascii_of_N (n + 32)
  else c.

(** [c.isspace()] for a code point below 256: TAB, LF, VT, FF, CR, the four
    separators U+001C..U+001F, the space, NEL (U+0085) and the no-break space
    (U+00A0). *)
Definition isspace (c : ascii) : bool :=
  let n := code_point c in
  (((9 <=? n) && (n <=? 13)) || ((28 <=? n) && (n <=? 32))
   || (n =? 133) || (n =? 160))%N.

Fixpoint drop_while (p : ascii -> bool) (l : list ascii) : list ascii :=
  match l with
  | [] => []
  | c :: l' => if p c then drop_while p l' else l
  end.

Definition lstrip_chars (l : list ascii) : list ascii := drop_while isspace l.
Definition rstrip_chars (l : list ascii) : list ascii :=
  rev (drop_while isspace (rev l)).
Definition strip_chars (l : list ascii) : list ascii :=
  rstrip_chars (lstrip_chars l).
Definition remove_chars (ch : ascii) (l : list ascii) : list ascii :=
  List.filter (fun c => negb (Ascii.eqb c ch)) l.

(** [s.lower()]. *)
Definition lower (s : string) : string := of_chars (map lower_char (chars s)).

(** [s.strip()]: leading and trailing whitespace removed. *)
Definition strip (s : string) : string := of_chars (strip_chars (chars s)).

(** [s.replace(ch, "")] for a one-character [ch]: every occurrence of the
    character removed. *)
Definition remove (ch : ascii) (s : string) : string :=
  of_chars (remove_chars ch (chars s)).

End PyStr.

(** ** [agents/skill_gap_analyzer.py], with the accessors of [models/] *)

Module SkillGapAnalyzer.
Import Py PyStr.

(** The fields of the Pydantic models that the analysis reads. *)
Record Skill := mkSkill { skill_name : string }.
Record Experience := mkExperience { technologies : list string }.
Record CVData := mkCVData {
  skills : list Skill;
  experience : list Experience
}.

Record SkillRequirement := mkSkillRequirement { name : string }.
Record JobRequirements := mkJobRequirements {
  required_skills : list SkillRequirement;
  preferred_skills : list SkillRequirement
}.

(** [CVData.get_all_skill_names]: [list(set(skill_names))]. *)
Definition get_all_skill_names (cv : CVData) : list string :=
  let skill_names :=
    foldl (fun names exp => names ++ technologies exp)%list
          (map skill_name (skills cv)) (experience cv) in
  elements (list_to_set skill_names : gset string).

Definition get_required_skill_names (job : JobRequirements) : list string :=
  map name (required_skills job).

Definition get_preferred_skill_names (job : JobRequirements) : list string :=
  map name (preferred_skills job).

(** The body of the loop of [_normalize_skills]. *)
Definition normalize_skill (skill : string) : string :=
  let normalized_skill := strip (lower skill) in
  let normalized_skill := remove "." normalized_skill in
  let normalized_skill := remove "-" normalized_skill in
  let normalized_skill := remove " " normalized_skill in
  normalized_skill.

(** All whitespace of a name is the ordinary space. *)
Definition plain_whitespace (s : string) : bool :=
  forallb (fun c => negb (isspace c) || Ascii.eqb c " ") (chars s).

(** What a normalized character looks like. *)
Definition normal_char (c : ascii) : Prop :=
  isspace c = false /\ lower_char c = c
  /\ Ascii.eqb c "." = false /\ Ascii.eqb c "-" = false /\ Ascii.eqb c " " = false.

(** [normalize_skill] on the list of characters of a name. *)
Definition normalize_chars (l : list ascii) : list ascii :=
  remove_chars " " (remove_chars "-" (remove_chars "." (strip_chars (map lower_char l)))).

Definition _normalize_skills (skills : list string) : gset string :=
  foldl (fun normalized skill => normalized ∪ {[ normalize_skill skill ]}) ∅ skills.

Section WithDifflib.

(** [difflib.SequenceMatcher(None, a, b).ratio()], a function of Python's
    library, is a parameter of the analysis. *)
Variable ratio : string -> string -> Q.

(** The inner loop of [_find_matches]: some CV skill is similar enough. *)
Definition fuzzy_match (cv_skills : gset string) (job_skill : string)
    (similarity_threshold : Q) : bool :=
  existsb (fun cv_skill => Qle_bool similarity_threshold (ratio job_skill cv_skill))
          (elements cv_skills).

Definition _find_matches (cv_skills job_skills : gset string)
    (similarity_threshold : Q) : gset string :=
  foldl (fun matches job_skill =>
           if bool_decide (job_skill ∈ cv_skills) then matches ∪ {[ job_skill ]}
           else if fuzzy_match cv_skills job_skill similarity_threshold
                then matches ∪ {[ job_skill ]}
                else matches)
        ∅ (elements job_skills).

(** [round(x, 1)] on a float [x]: the exact value of [x] is rounded to one
    decimal, a tie going to the even digit, and the result is the float
    nearest to that decimal number. *)
Definition round1 (x : Q) : Q :=
  Float.nearest (inject_Z (Float.round_half_even (x * 10)) / 10)%Q.

(** The fields of [SkillMatchAnalysis] computed from the skill sets (the two
    lists of advice sentences are left out). *)
Record SkillMatchAnalysis := mkSkillMatchAnalysis {
  total_required_skills : Z;
  matched_skills : list string;
  missing_required_skills : list string;
  missing_preferred_skills : list string;
  match_percentage : Q
}.

Definition default_threshold : Q := 85 # 100.

(** [analyze_gaps], on the path that does not raise.  The quotient of the
    two lengths and its product with 100 are float operations; both results
    are at most 100, so that no overflow can occur. *)
Definition analyze_gaps (cv_data : CVData) (job_requirements : JobRequirements)
  : SkillMatchAnalysis :=
  let cv_skills := _normalize_skills (get_all_skill_names cv_data) in
  let required_skills := _normalize_skills (get_required_skill_names job_requirements) in
  let preferred_skills := _normalize_skills (get_preferred_skill_names job_requirements) in
  let matched_required := _find_matches cv_skills required_skills default_threshold in
  let matched_preferred := _find_matches cv_skills preferred_skills default_threshold in
  let missing_required := required_skills ∖ matched_required in
  let missing_preferred := preferred_skills ∖ matched_preferred in
  let total_required := Z.of_nat (size required_skills) in
  let match_percentage :=
    if 0 <? total_required then
      Float.nearest
        (Float.nearest (inject_Z (Z.of_nat (size matched_required))
                        / inject_Z total_required) * 100)%Q
    else 100%Q in
  mkSkillMatchAnalysis
    total_required
    (elements (matched_required ∪ matched_preferred))
    (elements missing_required)
    (elements missing_preferred)
    (round1 match_percentage).

End WithDifflib.

(** The expression [s.lower().replace(".", "").replace("-", "").replace(" ", "")]
    of [_find_skill_requirement]: as [normalize_skill], without [strip]. *)
Definition lower_without_separators (s : string) : string :=
  remove " " (remove "-" (remove "." (lower s))).

(** [_find_skill_requirement]: the first requirement whose name has the
    normalized form of [skill_name]; [None] when there is none. *)
Definition _find_skill_requirement (skill_name : string)
    (skill_requirements : list SkillRequirement) : option SkillRequirement :=
  let normalized_name := lower_without_separators skill_name in
  List.find (fun req =>
               String.eqb (lower_without_separators (name req)) normalized_name)
            skill_requirements.

End SkillGapAnalyzer.

(** ** [graph/state.py], [graph/nodes.py], [graph/workflow.py] *)

Module Workflow.
Import Py Datetime ErrorHandler.

(** The collaborators of the workflow.  The four agents call language
    models and search services: each is a function of the state of the world
    that returns a result or raises.  The results are opaque to the
    workflow. *)
Class Collaborators := {
  World : Type;
  utcnow : World -> datetime;
  CVData : Type;
  JobRequirements : Type;
  SkillMatchAnalysis : Type;
  SkillGapRecommendations : Type;
  RecommendationResult : Type;
  cv_parser_parse_cv : string -> World -> outcome CVData * World;
  cv_parser_parse_cv_text : string -> World -> outcome CVData * World;
  job_analyzer_analyze_job : string -> World -> outcome JobRequirements * World;
  skill_gap_analyzer_analyze_gaps :
    CVData -> JobRequirements -> World -> outcome SkillMatchAnalysis * World;
  project_recommender_generate_recommendations :
    CVData -> JobRequirements -> World -> outcome RecommendationResult * World;
  get_skill_gap_recommendations : RecommendationResult -> SkillGapRecommendations;
  model_dump : RecommendationResult -> pyval
}.

Section WithCollaborators.
Context `{Collaborators}.

(** [WorkflowState]. *)
Record WorkflowState := mkWorkflowState {
  cv_file_path : option string;
  cv_text : option string;
  job_description : string;
  cv_data : option CVData;
  job_requirements : option JobRequirements;
  skill_match_analysis : option SkillMatchAnalysis;
  skill_gap_recommendations : option SkillGapRecommendations;
  recommendation_result : option RecommendationResult;
  errors : list string;
  current_step : string;
  progress_percentage : Z
}.

Definition set_progress_fields (step : string) (p : Z) (s : WorkflowState)
  : WorkflowState :=
  mkWorkflowState (cv_file_path s) (cv_text s) (job_description s) (cv_data s)
    (job_requirements s) (skill_match_analysis s) (skill_gap_recommendations s)
    (recommendation_result s) (errors s) step p.

Definition set_progress_percentage (p : Z) (s : WorkflowState) : WorkflowState :=
  set_progress_fields (current_step s) p s.

Definition set_current_step (step : string) (s : WorkflowState) : WorkflowState :=
  set_progress_fields step (progress_percentage s) s.

Definition set_cv_data (v : CVData) (s : WorkflowState) : WorkflowState :=
  mkWorkflowState (cv_file_path s) (cv_text s) (job_description s) (Some v)
    (job_requirements s) (skill_match_analysis s) (skill_gap_recommendations s)
    (recommendation_result s) (errors s) (current_step s) (progress_percentage s).

Definition set_job_requirements (v : JobRequirements) (s : WorkflowState)
  : WorkflowState :=
  mkWorkflowState (cv_file_path s) (cv_text s) (job_description s) (cv_data s)
    (Some v) (skill_match_analysis s) (skill_gap_recommendations s)
    (recommendation_result s) (errors s) (current_step s) (progress_percentage s).

Definition set_skill_match_analysis (v : SkillMatchAnalysis) (s : WorkflowState)
  : WorkflowState :=
  mkWorkflowState (cv_file_path s) (cv_text s) (job_description s) (cv_data s)
    (job_requirements s) (Some v) (skill_gap_recommendations s)
    (recommendation_result s) (errors s) (current_step s) (progress_percentage s).

Definition set_recommendation_result (v : RecommendationResult) (s : WorkflowState)
  : WorkflowState :=
  mkWorkflowState (cv_file_path s) (cv_text s) (job_description s) (cv_data s)
    (job_requirements s) (skill_match_analysis s)
    (Some (get_skill_gap_recommendations v)) (Some v)
    (errors s) (current_step s) (progress_percentage s).

(** [state["errors"].append(error_msg)]. *)
Definition append_error (msg : string) (s : WorkflowState) : WorkflowState :=
  mkWorkflowState (cv_file_path s) (cv_text s) (job_description s) (cv_data s)
    (job_requirements s) (skill_match_analysis s) (skill_gap_recommendations s)
    (recommendation_result s) (errors s ++ [msg])%list
    (current_step s) (progress_percentage s).

(** The [except Exception as e] clause shared by the four stage nodes: an
    instance of [Exception] becomes a line of the error list and the node
    returns; anything else propagates. *)
Definition except_Exception (e : exn) (s : WorkflowState) (w : World)
  : outcome WorkflowState * World :=
  if isinstance e Exception then
    (Returned (append_error (format_error_for_user e) s), w)
  else (Raised e, w).

Definition missing_data : exn :=
  simple_exn ValueError "Missing CV data or job requirements".

Definition parse_cv_node (state : WorkflowState) (w : World)
  : outcome WorkflowState * World :=
  let state := set_current_step "Parsing CV..." state in
  let state := set_progress_percentage 10 state in
  let parsed :=
    if opt_str_truthy (cv_file_path state) then
      cv_parser_parse_cv (default "" (cv_file_path state)) w
    else if opt_str_truthy (cv_text state) then
      cv_parser_parse_cv_text (default "" (cv_text state)) w
    else (Raised (simple_exn ValueError "No CV file path or text provided"), w) in
  match parsed with
  | (Returned cv, w1) =>
      (Returned (set_progress_percentage 25 (set_cv_data cv state)), w1)
  | (Raised e, w1) => except_Exception e state w1
  end.

Definition analyze_job_node (state : WorkflowState) (w : World)
  : outcome WorkflowState * World :=
  let state := set_current_step "Analyzing job description..." state in
  let state := set_progress_percentage 30 state in
  match job_analyzer_analyze_job (job_description state) w with
  | (Returned reqs, w1) =>
      (Returned (set_progress_percentage 45 (set_job_requirements reqs state)), w1)
  | (Raised e, w1) => except_Exception e state w1
  end.

Definition identify_gaps_node (state : WorkflowState) (w : World)
  : outcome WorkflowState * World :=
  let state := set_current_step "Identifying skill gaps..." state in
  let state := set_progress_percentage 50 state in
  match cv_data state, job_requirements state with
  | Some cv, Some reqs =>
      match skill_gap_analyzer_analyze_gaps cv reqs w with
      | (Returned analysis, w1) =>
          (Returned (set_progress_percentage 60
                       (set_skill_match_analysis analysis state)), w1)
      | (Raised e, w1) => except_Exception e state w1
      end
  | _, _ => except_Exception missing_data state w
  end.

Definition generate_recommendations_node (state : WorkflowState) (w : World)
  : outcome WorkflowState * World :=
  let state := set_current_step "Generating project recommendations..." state in
  let state := set_progress_percentage 65 state in
  match cv_data state, job_requirements state with
  | Some cv, Some reqs =>
      match project_recommender_generate_recommendations cv reqs w with
      | (Returned res, w1) =>
          let state := set_recommendation_result res state in
          let state := set_current_step "Complete!" state in
          (Returned (set_progress_percentage 100 state), w1)
      | (Raised e, w1) => except_Exception e state w1
      end
  | _, _ => except_Exception missing_data state w
  end.

Definition error_handler_node (state : WorkflowState) (w : World)
  : outcome WorkflowState * World :=
  let state := set_current_step "Error occurred" state in
  let state := set_progress_percentage 0 state in
  (Returned state, w).

Inductive route := route_continue | route_error | route_end.

Definition should_continue (state : WorkflowState) : route :=
  match errors state with
  | _ :: _ => route_error
  | [] =>
      match recommendation_result state with
      | Some _ => route_end
      | None => route_continue
      end
  end.

(** The nodes of the graph built by [create_workflow], and [END]. *)
Inductive node :=
| parse_cv
| analyze_job
| identify_gaps
| generate_recommendations
| error_handler
| END.

Definition run_node (n : node) : WorkflowState -> World -> outcome WorkflowState * World :=
  match n with
  | parse_cv => parse_cv_node
  | analyze_job => analyze_job_node
  | identify_gaps => identify_gaps_node
  | generate_recommendations => generate_recommendations_node
  | error_handler => error_handler_node
  | END => fun s w => (Returned s, w)
  end.

(** The edges added in [create_workflow]. *)
Definition next_node (n : node) (state : WorkflowState) : node :=
  match n, should_continue state with
  | parse_cv, route_continue => analyze_job
  | analyze_job, route_continue => identify_gaps
  | identify_gaps, route_continue => generate_recommendations
  | generate_recommendations, route_continue => END
  | error_handler, _ => END
  | END, _ => END
  | _, route_error => error_handler
  | _, route_end => END
  end.

(** The driver of the compiled graph: run the current node, follow the
    edge, stop at [END].  [limit] is the recursion limit of the library (25
    steps); [executed] lists the nodes run so far. *)
Fixpoint run_graph (limit : nat) (n : node) (state : WorkflowState) (w : World)
    (executed : list node) : outcome WorkflowState * World * list node :=
  match n with
  | END => (Returned state, w, executed)
  | _ =>
      match limit with
      | O => (Raised (simple_exn Exception "Recursion limit reached"), w, executed)
      | S limit' =>
          match run_node n state w with
          | (Raised e, w1) => (Raised e, w1, executed ++ [n])%list
          | (Returned state1, w1) =>
              run_graph limit' (next_node n state1) state1 w1 (executed ++ [n])%list
          end
      end
  end.

Definition invoke (initial_state : WorkflowState) (w : World)
  : outcome WorkflowState * World * list node :=
  run_graph 25 parse_cv initial_state w [].

(** [run_workflow]. *)
Definition run_workflow (cv_file_path cv_text : option string)
    (job_description : string) (w : World)
  : outcome WorkflowState * World * list node :=
  let initial_state :=
    mkWorkflowState cv_file_path cv_text job_description None None None None None
                    [] "Starting..." 0 in
  match invoke initial_state w with
  | (Returned final_state, w1, executed) => (Returned final_state, w1, executed)
  | (Raised e, w1, executed) =>
      if isinstance e Exception then
        (Returned (set_current_step "Failed" (append_error (message e) initial_state)),
         w1, executed)
      else (Raised e, w1, executed)
  end.

(** The three ways a run of the graph can end: through the error handler,
    with one error recorded and the progress reset to 0; after the last
    stage, with no error, a recommendation result and progress 100; or with
    an exception that is not an [Exception], which no node catches. *)
Definition ends_well (r : outcome WorkflowState * World * list node) : Prop :=
  match r with
  | (Returned final, _, executed) =>
      (exists msg,
          errors final = [msg]
          /\ In error_handler executed
          /\ progress_percentage final = 0
          /\ current_step final = "Error occurred")
      \/ (errors final = []
          /\ ~ In error_handler executed
          /\ progress_percentage final = 100
          /\ current_step final = "Complete!"
          /\ is_Some (recommendation_result final))
  | (Raised e, _, executed) =>
      isinstance e Exception = false /\ ~ In error_handler executed
  end.

(** The four stage nodes. *)
Definition is_stage (n : node) : Prop := n <> error_handler /\ n <> END.

End WithCollaborators.

End Workflow.

(** ** [backend/main.py]: the background task *)

Module Backend.
Import Py Datetime JobManager Workflow.

Section WithCollaborators.
Context `{Collaborators}.

(** What a run leaves behind: the outcome of the task, the job manager after
    each of its updates (every one of them a state that a concurrent
    [get_job] can observe), the world, and the nodes executed. *)
Record Run := mkRun {
  task_outcome : outcome unit;
  updates : list JobManager.JobManager;
  final_world : World;
  executed_nodes : list node
}.

(** [process_cv_analysis] (the removal of the temporary file in [finally]
    is left out). *)
Definition process_cv_analysis (job_id : string) (cv_file_path : option string)
    (job_description : string) (m : JobManager.JobManager) (w : World) : Run :=
  let m1 := set_processing (utcnow w) job_id
              "Parsing CV and analyzing job description..." m in
  let m2 := set_progress (utcnow w) job_id 10 "Initializing workflow..." m1 in
  match run_workflow cv_file_path None job_description w with
  | (Raised e, w1, executed) =>
      if isinstance e Exception then
        let m3 := set_failed (utcnow w1) job_id ("Analysis failed: " ++ message e) m2 in
        mkRun (Returned tt) [m1; m2; m3] w1 executed
      else mkRun (Raised e) [m1; m2] w1 executed
  | (Returned final_state, w1, executed) =>
      let after_progress :=
        if str_truthy (Workflow.current_step final_state) then
          [set_progress (utcnow w1) job_id
             (Workflow.progress_percentage final_state)
             (Workflow.current_step final_state) m2]
        else [] in
      let m3 := List.last after_progress m2 in
      let m4 :=
        match Workflow.errors final_state with
        | _ :: _ =>
            set_failed (utcnow w1) job_id (join "; " (Workflow.errors final_state)) m3
        | [] =>
            match recommendation_result final_state with
            | Some res => set_completed (utcnow w1) job_id (model_dump res) m3
            | None =>
                set_failed (utcnow w1) job_id "No recommendation result generated" m3
            end
        end in
      mkRun (Returned tt) ([m1; m2] ++ after_progress ++ [m4])%list w1 executed
  end.

(** The state of the job manager when the task is over. *)
Definition final_manager (m : JobManager.JobManager) (r : Run)
  : JobManager.JobManager :=
  List.last (updates r) m.

(** The values of [progress_percentage] and of [status] that readers of a
    job can see, from before the task starts until it is over. *)
Definition observed_progress (job_id : string) (m : JobManager.JobManager) (r : Run)
  : list (option Z) :=
  map (fun m' => JobManager.progress_percentage <$> read_job job_id m')
      (m :: updates r).

Definition observed_status (job_id : string) (m : JobManager.JobManager) (r : Run)
  : list (option JobStatus) :=
  map (fun m' => status <$> read_job job_id m') (m :: updates r).

End WithCollaborators.

(** The events of the stream endpoint: the error event of a job that is not
    found, or the data of a job. *)
Inductive sse_event :=
| sse_error (msg : string)
| sse_data (job_id : string) (status : JobStatus) (progress : Z) (message : string)
           (error : option string).

(** One pass of the loop of [event_generator] sees the store twice: when
    it reads the job and builds the event, and when the generator is
    resumed after the [yield] and tests the status of the object it still
    holds.  (Nothing else runs between the call of [get_job] and the
    [yield].) *)
Record stream_pass := mkPass {
  at_read : JobManager.JobManager;
  at_resume : JobManager.JobManager
}.

(** [job.status] after the [yield]: the status that the object returned by
    [get_job] has by then.  An object stays allocated; were it not, the
    status read before would stand. *)
Definition live_status (job_id : string) (p : stream_pass) (job : JobState)
  : JobStatus :=
  match get_job job_id (at_read p) ≫= deref (at_resume p) with
  | Some job' => status job'
  | None => status job
  end.

(** [event_generator] of [stream_progress].  The result is the list of
    events yielded, and whether the generator has finished; it has not when
    the loop is still going on after the last of [passes]. *)
Fixpoint event_generator (job_id : string) (passes : list stream_pass)
  : list sse_event * bool :=
  match passes with
  | [] => ([], false)
  | p :: rest =>
      match read_job job_id (at_read p) with
      | None => ([sse_error "Job not found"], true)
      | Some job =>
          let event :=
            sse_data job_id (status job) (JobManager.progress_percentage job)
                     (JobManager.current_step job) (error job) in
          if is_terminal (live_status job_id p job) then ([event], true)
          else
            let '(events, finished) := event_generator job_id rest in
            (event :: events, finished)
      end
  end.

(** The events that report a missing job or a terminal status. *)
Definition closes_stream (e : sse_event) : bool :=
  match e with
  | sse_error _ => true
  | sse_data _ s _ _ _ => is_terminal s
  end.

(** What the generator meets at a pass that ends the stream: the job is
    missing, or its status is COMPLETED or FAILED after the [yield]. *)
Definition ends_stream (j : string) (p : stream_pass) : Prop :=
  match read_job j (at_read p) with
  | None => True
  | Some job =>
      live_status j p job = COMPLETED \/ live_status j p job = FAILED
  end.

(** A pass during which the store does not change. *)
Definition quiescent (p : stream_pass) : Prop := at_resume p = at_read p.

(** Each observed value is at most the next one. *)
Definition non_decreasing (l : list (option Z)) : Prop :=
  forall (i : nat) (a b : Z),
    l !! i = Some (Some a) -> l !! S i = Some (Some b) -> a <= b.

End Backend.

(** ** Concrete inputs used by the examples below *)

Module Examples.
Import Py Datetime JobManager.

(** A store with one job, completed at time 1000 (microseconds), retention
    one hour. *)
Definition sweep_example : JobManager :=
  set_completed 1000 "job-1" (PyStr "done")
    (create_job "job-1" 1000 1000 (__init__ 3600)).2.

Definition sweep_example_job : JobState :=
  mkJobState "job-1" COMPLETED 100 "Completed" (PyStr "done") None 1000 1000.

(** A store holding one freshly created job. *)
Definition pending_example : JobManager :=
  (create_job "job-1" 1000 1000 (__init__ 3600)).2.

Definition pending_example_job : JobState :=
  mkJobState "job-1" PENDING 0 "Initializing..." PyNone None 1000 1000.

(** What a caller may do with the object it got from [get_job]:
    [job.progress_percentage = 55]. *)
Definition caller_assignment (j : JobState) : JobState :=
  setattr j (kw_progress_percentage 55).

(** Rate limiting switched off. *)
Definition disabled_settings : RateLimiter.Settings :=
  RateLimiter.mkSettings false 30 10 100 50.

(** The default limits of [config.py]. *)
Definition default_settings : RateLimiter.Settings :=
  RateLimiter.mkSettings true 30 10 100 50.

(** A GitHub limit of zero requests per minute. *)
Definition zero_rate_settings : RateLimiter.Settings :=
  RateLimiter.mkSettings true 0 10 100 50.

Definition clock0 : Time.Clock := Time.mkClock 0 [].

(** A call that fails twice with an [APIError] and then succeeds; the world
    counts the calls made. *)
Definition api_error : exn := mkExn APIError "timeout" "GitHub" None.

Definition flaky_call (calls : nat) : outcome string * nat :=
  if (calls <? 2)%nat then (Raised api_error, S calls)
  else (Returned "ok", S calls).

(** A call that fails three times before it succeeds, wrapped with
    [delay=0.1] and [backoff=3.0]; [tenth] is the float [0.1]. *)
Definition flaky_call3 (calls : nat) : outcome string * nat :=
  if (calls <? 3)%nat then (Raised api_error, S calls)
  else (Returned "ok", S calls).

Definition tenth : Q := Float.nearest (1 # 10).

(** A function that returns [None]; the world counts its executions and
    the clock advances by one microsecond per execution. *)
Definition none_func (args : unit) (executions : nat) : outcome pyval * nat :=
  (Returned PyNone, S executions).

Definition example_now (executions : nat) : datetime := 1000 + Z.of_nat executions.

Definition example_digest (args : unit) : string := "d751713988987e9331980363e24189ce".

(** The wrapper of [none_func] under [cached(ttl=3600, key_prefix="github")],
    caching enabled. *)
Definition cached_none_func :=
  Cache.cached example_now example_digest none_func "search" true (Some 3600)
               "github".

(** The cache manager after one call of that wrapper on a fresh cache. *)
Definition cache_after_one_call : Cache.CacheManager :=
  (cached_none_func tt (Cache.CacheManager__init__ true 3600) 0%nat).1.2.

(** The skill name made of a full stop, a TAB and "net". *)
Definition dot_tab_net : string := String "." (String "009" "net").
Definition tab_net : string := String "009" "net".

(** On strings without a common character [SequenceMatcher.ratio()] is 0.0;
    the examples use this function on such strings only. *)
Definition ratio_of_disjoint_strings (a b : string) : Q := 0%Q.

(** A candidate who lists Go, and a job that requires Go, C and R. *)
Definition cv_go : SkillGapAnalyzer.CVData :=
  SkillGapAnalyzer.mkCVData [SkillGapAnalyzer.mkSkill "Go"] [].

Definition job_go_c_r : SkillGapAnalyzer.JobRequirements :=
  SkillGapAnalyzer.mkJobRequirements
    [SkillGapAnalyzer.mkSkillRequirement "Go";
     SkillGapAnalyzer.mkSkillRequirement "C";
     SkillGapAnalyzer.mkSkillRequirement "R"] [].

(** Collaborators for the examples: the world counts the calls made to the
    agents, and the clock advances with it.  In the first set of
    collaborators the job analysis raises a [JobAnalysisError]; in the second
    every agent succeeds. *)
Definition job_analysis_error : exn :=
  mkExn JobAnalysisError "no requirements found" "" None.

Definition failing_job_analysis : Workflow.Collaborators := {|
  Workflow.World := nat;
  Workflow.utcnow := fun calls => 1000 + Z.of_nat calls;
  Workflow.CVData := string;
  Workflow.JobRequirements := string;
  Workflow.SkillMatchAnalysis := string;
  Workflow.SkillGapRecommendations := string;
  Workflow.RecommendationResult := string;
  Workflow.cv_parser_parse_cv := fun _ calls => (Returned "cv", S calls);
  Workflow.cv_parser_parse_cv_text := fun _ calls => (Returned "cv", S calls);
  Workflow.job_analyzer_analyze_job :=
    fun _ calls => (Raised job_analysis_error, S calls);
  Workflow.skill_gap_analyzer_analyze_gaps :=
    fun _ _ calls => (Returned "analysis", S calls);
  Workflow.project_recommender_generate_recommendations :=
    fun _ _ calls => (Returned "recommendations", S calls);
  Workflow.get_skill_gap_recommendations := fun res => res;
  Workflow.model_dump := PyObject
|}.

Definition all_agents_succeed : Workflow.Collaborators := {|
  Workflow.World := nat;
  Workflow.utcnow := fun calls => 1000 + Z.of_nat calls;
  Workflow.CVData := string;
  Workflow.JobRequirements := string;
  Workflow.SkillMatchAnalysis := string;
  Workflow.SkillGapRecommendations := string;
  Workflow.RecommendationResult := string;
  Workflow.cv_parser_parse_cv := fun _ calls => (Returned "cv", S calls);
  Workflow.cv_parser_parse_cv_text := fun _ calls => (Returned "cv", S calls);
  Workflow.job_analyzer_analyze_job :=
    fun _ calls => (Returned "requirements", S calls);
  Workflow.skill_gap_analyzer_analyze_gaps :=
    fun _ _ calls => (Returned "analysis", S calls);
  Workflow.project_recommender_generate_recommendations :=
    fun _ _ calls => (Returned "recommendations", S calls);
  Workflow.get_skill_gap_recommendations := fun res => res;
  Workflow.model_dump := PyObject
|}.

(** The two runs of the background task on the freshly created job. *)
Definition failing_run : @Backend.Run failing_job_analysis :=
  @Backend.process_cv_analysis failing_job_analysis
    "job-1" (Some "/tmp/cv.pdf") "Python developer" pending_example 0%nat.

Definition successful_run : @Backend.Run all_agents_succeed :=
  @Backend.process_cv_analysis all_agents_succeed
    "job-1" (Some "/tmp/cv.pdf") "Python developer" pending_example 0%nat.

(** A GitHub bucket that has just been emptied at time 0. *)
Definition drained_bucket : RateLimiter.TokenBucket :=
  RateLimiter.mkTokenBucket 30 60 0 0.

Definition drained_limiter : RateLimiter.RateLimiter :=
  RateLimiter.store_bucket "github" drained_bucket
    (RateLimiter.RateLimiter__init__ default_settings 0).

(** A function that counts its executions. *)
Definition counting_call (executions : nat) : outcome string * nat :=
  (Returned "done", S executions).

(** A search that returns a result and counts its executions, and a cache
    that holds an expired entry under the key of its call. *)
Definition search_func (args : unit) (executions : nat) : outcome pyval * nat :=
  (Returned (PyStr "repo"), S executions).

Definition cached_search_func :=
  Cache.cached example_now example_digest search_func "search" true (Some 3600)
               "github".

Definition expired_cache : Cache.InMemoryCache :=
  Cache.mkInMemoryCache
    {[ "github:search:d751713988987e9331980363e24189ce" := (PyStr "old", 500) ]}
    3600.

End Examples.

(* ===================================================================== *)
(** * Properties *)
(* ===================================================================== *)

(** ** Rounding to the nearest float *)

Section FloatProperties.
Import Float.

Lemma round_half_even_spec (x : Q) :
  (inject_Z (round_half_even x) - x <= 1 # 2)%Q
  /\ (x - inject_Z (round_half_even x) <= 1 # 2)%Q.
Proof.
  unfold round_half_even.
  pose proof (Qfloor_le x) as Hlo. pose proof (Qlt_floor x) as Hhi.
  rewrite inject_Z_plus in Hhi. change (inject_Z 1) with 1%Q in Hhi.
  destruct (x - inject_Z (Qfloor x) ?= 1 # 2)%Q eqn:E.
  - apply Qeq_alt in E. destruct (Z.even (Qfloor x)).
    + split; lra.
    + rewrite inject_Z_plus. change (inject_Z 1) with 1%Q. split; lra.
  - apply Qlt_alt in E. split; lra.
  - apply Qgt_alt in E. rewrite inject_Z_plus. change (inject_Z 1) with 1%Q.
    split; lra.
Qed.

Lemma round_half_even_proper (x y : Q) :
  (x == y)%Q -> round_half_even x = round_half_even y.
Proof.
  intros Hxy. unfold round_half_even.
  rewrite (Qfloor_comp x y Hxy).
  assert (Hc : (x - inject_Z (Qfloor y) ?= 1 # 2)%Q
               = (y - inject_Z (Qfloor y) ?= 1 # 2)%Q).
  { apply Qcompare_comp; [|reflexivity]. by rewrite Hxy. }
  by rewrite Hc.
Qed.

Lemma round_half_even_mono (x y : Q) :
  (x <= y)%Q -> round_half_even x <= round_half_even y.
Proof.
  intros Hxy.
  destruct (Z.le_gt_cases (round_half_even x) (round_half_even y)) as [|Hgt];
    [done|].
  exfalso.
  destruct (round_half_even_spec x) as [Hx _].
  destruct (round_half_even_spec y) as [_ Hy].
  assert (Hz : (inject_Z (round_half_even y) + 1 <= inject_Z (round_half_even x))%Q).
  { change 1%Q with (inject_Z 1). rewrite <- inject_Z_plus, <- Zle_Qle. lia. }
  assert (Heq : (x == y)%Q) by (apply Qle_antisym; lra).
  rewrite (round_half_even_proper x y Heq) in Hgt. lia.
Qed.

Lemma round_half_even_Z (n : Z) : round_half_even (inject_Z n) = n.
Proof.
  unfold round_half_even. rewrite Qfloor_Z.
  assert (Hc : (inject_Z n - inject_Z n ?= 1 # 2)%Q = Lt).
  { apply Qlt_alt.
    assert (Hz : (inject_Z n - inject_Z n == 0)%Q) by ring.
    rewrite Hz. reflexivity. }
  by rewrite Hc.
Qed.

Lemma pow2_pos (e : Z) : (0 < pow2 e)%Q.
Proof. apply Qpower_0_lt. lra. Qed.

Lemma pow2_plus (a b : Z) : (pow2 (a + b) == pow2 a * pow2 b)%Q.
Proof. apply Qpower_plus. lra. Qed.

Lemma pow2_le (a b : Z) : a <= b -> (pow2 a <= pow2 b)%Q.
Proof. intros Hab. apply Qpower_le_compat_l; [done|lra]. Qed.

Lemma pow2_Z (n : Z) : 0 <= n -> (pow2 n == inject_Z (2 ^ n))%Q.
Proof. intros Hn. unfold pow2. by rewrite Zpower_Qpower. Qed.

Lemma pow2_lt_inv (a b : Z) : (pow2 a < pow2 b)%Q -> a < b.
Proof. intros Hab. apply (Qpower_lt_compat_l_inv 2); [done|lra]. Qed.

(** [2 ^ floor_log2 x] is at most [x]. *)
Lemma floor_log2_lower (x : Q) : (0 < x)%Q -> (pow2 (floor_log2 x) <= x)%Q.
Proof.
  intros Hx. unfold floor_log2.
  destruct (Qle_bool _ x) eqn:E; [by apply Qle_bool_iff|]. clear E.
  destruct x as [n d]. cbn [Qnum Qden].
  assert (Hn : 0 < n).
  { unfold Qlt in Hx. simpl in Hx. lia. }
  pose proof (Z.log2_spec n Hn) as [Hn1 _].
  pose proof (Z.log2_spec (Z.pos d) ltac:(lia)) as [_ Hd2].
  pose proof (Z.log2_nonneg n) as Hln.
  pose proof (Z.log2_nonneg (Z.pos d)) as Hld.
  assert (Hsplit : (pow2 (Z.log2 n - Z.log2 (Z.pos d) - 1)
                    == inject_Z (2 ^ Z.log2 n)
                       / inject_Z (2 ^ Z.succ (Z.log2 (Z.pos d))))%Q).
  { replace (Z.log2 n - Z.log2 (Z.pos d) - 1)
      with (Z.log2 n - Z.succ (Z.log2 (Z.pos d))) by lia.
    unfold pow2. rewrite Qpower_minus by lra.
    fold (pow2 (Z.log2 n)). fold (pow2 (Z.succ (Z.log2 (Z.pos d)))).
    by rewrite !pow2_Z by lia. }
  rewrite Hsplit.
  set (a := 2 ^ Z.log2 n) in *. set (b := 2 ^ Z.succ (Z.log2 (Z.pos d))) in *.
  assert (Hb : (0 < inject_Z b)%Q).
  { change 0%Q with (inject_Z 0). rewrite <- Zlt_Qlt. lia. }
  apply Qle_shift_div_r; [done|].
  assert (Hnd : (n # d == inject_Z n / inject_Z (Z.pos d))%Q) by apply Qmake_Qdiv.
  rewrite Hnd.
  assert (Hd : (0 < inject_Z (Z.pos d))%Q).
  { change 0%Q with (inject_Z 0). rewrite <- Zlt_Qlt. lia. }
  assert (Ha : (inject_Z a <= inject_Z n)%Q) by (by rewrite <- Zle_Qle).
  assert (Hdb : (inject_Z (Z.pos d) <= inject_Z b)%Q) by (rewrite <- Zle_Qle; lia).
  assert (Hn0 : (0 < inject_Z n)%Q).
  { change 0%Q with (inject_Z 0). by rewrite <- Zlt_Qlt. }
  assert (Ha0 : (0 <= inject_Z a)%Q).
  { change 0%Q with (inject_Z 0). rewrite <- Zle_Qle. subst a.
    apply Z.pow_nonneg. lia. }
  set (qn := inject_Z n) in *. set (qd := inject_Z (Z.pos d)) in *.
  set (qa := inject_Z a) in *. set (qb := inject_Z b) in *.
  clearbody qn qd qa qb.
  assert (Hy : (qn == qn / qd * qd)%Q) by (field; lra).
  assert (Hq : (0 < qn / qd)%Q) by (apply Qlt_shift_div_l; lra).
  set (y := (qn / qd)%Q) in *. clearbody y. nra.
Qed.

Lemma quantum_le (x : Q) (E : Z) :
  (0 < x)%Q -> (x < pow2 (E + 53))%Q -> -1074 <= E -> quantum x <= E.
Proof.
  intros Hx Hlt HE. unfold quantum.
  pose proof (floor_log2_lower x Hx) as Hlow.
  assert (Hf : floor_log2 x < E + 53) by (apply pow2_lt_inv; lra).
  lia.
Qed.

Lemma nearest_positive_nonneg (x : Q) : (0 < x)%Q -> (0 <= nearest_positive x)%Q.
Proof.
  intros Hx. unfold nearest_positive.
  pose proof (pow2_pos (quantum x)) as Hp.
  apply Qmult_le_0_compat; [|lra].
  change 0%Q with (inject_Z 0). rewrite <- Zle_Qle.
  rewrite <- (round_half_even_Z 0). apply round_half_even_mono.
  change (inject_Z 0) with 0%Q. apply Qle_shift_div_l; [done|]. lra.
Qed.

Lemma nearest_positive_error (x : Q) (E : Z) :
  (0 < x)%Q -> quantum x <= E ->
  (Qabs (nearest_positive x - x) <= pow2 E / 2)%Q.
Proof.
  intros Hx HE. unfold nearest_positive.
  pose proof (pow2_pos (quantum x)) as Hp.
  pose proof (pow2_le _ _ HE) as Hle.
  set (p := pow2 (quantum x)) in *. clearbody p.
  destruct (round_half_even_spec (x / p)) as [H1 H2].
  set (m := inject_Z (round_half_even (x / p))) in *. clearbody m.
  assert (Hx' : (x == (x / p) * p)%Q) by (field; lra).
  set (y := (x / p)%Q) in *. clearbody y.
  assert (Hd : (pow2 E / 2 == pow2 E * (1 # 2))%Q) by field.
  rewrite Hd. apply Qabs_Qle_condition. rewrite Hx'. split; nra.
Qed.

Lemma nearest_positive_le_Z (x : Q) (N : Z) :
  (0 < x)%Q -> (x <= inject_Z N)%Q -> N < 2 ^ 53 ->
  (nearest_positive x <= inject_Z N)%Q.
Proof.
  intros Hx HxN HN.
  assert (Hq : quantum x <= 0).
  { apply quantum_le; [done| |lia]. change (0 + 53) with 53.
    apply Qle_lt_trans with (inject_Z N); [done|].
    rewrite pow2_Z by lia. by rewrite <- Zlt_Qlt. }
  unfold nearest_positive.
  pose proof (pow2_pos (quantum x)) as Hp.
  assert (Hint : (inject_Z N / pow2 (quantum x)
                  == inject_Z (N * 2 ^ (- quantum x)))%Q).
  { rewrite inject_Z_mult, <- pow2_Z by lia. unfold pow2.
    rewrite Qpower_opp. field. apply Qpower_not_0. lra. }
  assert (Hm : round_half_even (x / pow2 (quantum x)) <= N * 2 ^ (- quantum x)).
  { rewrite <- (round_half_even_Z (N * 2 ^ (- quantum x))).
    apply round_half_even_mono. rewrite <- Hint.
    apply Qle_shift_div_l; [done|].
    assert (Heq : (x / pow2 (quantum x) * pow2 (quantum x) == x)%Q)
      by (field; lra).
    by rewrite Heq. }
  rewrite Zle_Qle in Hm. rewrite <- Hint in Hm.
  set (m := inject_Z (round_half_even (x / pow2 (quantum x)))) in *. clearbody m.
  set (p := pow2 (quantum x)) in *. clearbody p.
  assert (Heq : (inject_Z N == inject_Z N / p * p)%Q) by (field; lra).
  rewrite Heq. nra.
Qed.

(** Rounding depends on the value only. *)
Lemma nearest_proper (x y : Q) : (x == y)%Q -> nearest x = nearest y.
Proof. intros Hxy. unfold nearest. by rewrite (Qred_complete x y Hxy). Qed.

Lemma nearest_0 (x : Q) : (x == 0)%Q -> nearest x = 0%Q.
Proof. intros Hx. by rewrite (nearest_proper x 0 Hx). Qed.

Lemma nearest_of_positive (x : Q) :
  (0 < x)%Q -> nearest x = nearest_positive (Qred x).
Proof.
  intros Hx. unfold nearest.
  assert (Hc : (Qred x ?= 0)%Q = Gt).
  { apply Qgt_alt. by rewrite Qred_correct. }
  by rewrite Hc.
Qed.

Lemma nearest_nonneg (x : Q) : (0 <= x)%Q -> (0 <= nearest x)%Q.
Proof.
  intros Hx. destruct (Qlt_le_dec 0 x) as [Hpos|Hle].
  - rewrite nearest_of_positive by done.
    apply nearest_positive_nonneg. by rewrite Qred_correct.
  - rewrite nearest_0; [lra|]. lra.
Qed.

Lemma nearest_le_Z (x : Q) (N : Z) :
  (0 <= x)%Q -> (x <= inject_Z N)%Q -> N < 2 ^ 53 ->
  (nearest x <= inject_Z N)%Q.
Proof.
  intros Hx HxN HN. destruct (Qlt_le_dec 0 x) as [Hpos|Hle].
  - rewrite nearest_of_positive by done.
    apply nearest_positive_le_Z;
      [by rewrite Qred_correct|by rewrite Qred_correct|done].
  - rewrite nearest_0 by (by apply Qle_antisym).
    by apply Qle_trans with x.
Qed.

Lemma nearest_error (x : Q) (E : Z) :
  (0 <= x)%Q -> (x < pow2 (E + 53))%Q -> -1074 <= E ->
  (Qabs (nearest x - x) <= pow2 E / 2)%Q.
Proof.
  intros Hx Hlt HE.
  pose proof (pow2_pos E) as Hp.
  destruct (Qlt_le_dec 0 x) as [Hpos|Hle].
  - rewrite nearest_of_positive by done.
    rewrite <- (Qred_correct x) at 2.
    apply nearest_positive_error; [by rewrite Qred_correct|].
    apply quantum_le; [by rewrite Qred_correct|by rewrite Qred_correct|done].
  - rewrite nearest_0 by lra.
    assert (Hd : (pow2 E / 2 == pow2 E * (1 # 2))%Q) by field.
    rewrite Hd. apply Qabs_Qle_condition. split; lra.
Qed.

End FloatProperties.

(** ** The job store: retention sweep *)

Section JobStoreSweep.
Import Py Datetime JobManager.

Lemma lookup_delete_all (ks : list string) (js : gmap string loc) (k : string) :
  foldl (fun js job_id => delete job_id js) js ks !! k
  = if decide (k ∈ ks) then None else js !! k.
Proof.
  revert js. induction ks as [|k' ks IH]; intros js; simpl.
  - destruct (decide (k ∈ [])) as [Hin|_]; [by apply elem_of_nil in Hin | done].
  - rewrite IH.
    destruct (decide (k ∈ ks)) as [Hin|Hin];
      destruct (decide (k ∈ k' :: ks)) as [Hin'|Hin']; try done.
    + exfalso. apply Hin'. by right.
    + apply elem_of_cons in Hin' as [->|?]; [|done].
      apply lookup_delete_eq.
    + apply lookup_delete_ne. intros ->. apply Hin'. by left.
Qed.

Lemma elem_of_jobs_to_remove (P : string * loc -> bool) (js : gmap string loc)
    (k : string) :
  k ∈ fst <$> filter (fun e => Is_true (P e)) (map_to_list js)
  <-> exists l, js !! k = Some l /\ P (k, l) = true.
Proof.
  rewrite list_elem_of_fmap. split.
  - intros [[k' l] [-> Hin]]. apply list_elem_of_filter in Hin as [HP Hin].
    apply elem_of_map_to_list in Hin. exists l. split; [done|].
    by apply Is_true_true.
  - intros (l & Hl & HP). exists (k, l). split; [done|].
    apply list_elem_of_filter. split; [by apply Is_true_true|].
    by apply elem_of_map_to_list.
Qed.

(** A pass that does not raise keeps exactly the entries that fail the
    removal test. *)
Lemma cleanup_lookup (now : datetime) (m : JobManager) (delta cutoff : Z) (k : string) :
  timedelta_seconds (_retention_seconds m) = Returned delta ->
  sub now delta = Returned cutoff ->
  _jobs (_cleanup_old_jobs now m).2 !! k
  = match _jobs m !! k with
    | Some l => if to_remove m cutoff (k, l) then None else Some l
    | None => None
    end.
Proof.
  intros Htd Hsub. unfold _cleanup_old_jobs. rewrite Htd, Hsub. simpl.
  rewrite lookup_delete_all. case_decide as Hin.
  - apply elem_of_jobs_to_remove in Hin as (l & Hl & HP). by rewrite Hl, HP.
  - destruct (_jobs m !! k) as [l|] eqn:Hl; [|done].
    destruct (to_remove m cutoff (k, l)) eqn:HP; [|done].
    exfalso. apply Hin. apply elem_of_jobs_to_remove. eauto.
Qed.

Lemma cleanup_heap (now : datetime) (m : JobManager) :
  heap (_cleanup_old_jobs now m).2 = heap m.
Proof.
  unfold _cleanup_old_jobs.
  destruct (timedelta_seconds _); [|done]. by destruct (sub _ _).
Qed.

(** The statuses that [_cleanup_old_jobs] looks for. *)
Lemma is_terminal_spec (s : JobStatus) :
  is_terminal s = true <-> s = COMPLETED \/ s = FAILED.
Proof.
  destruct s; simpl; split; intros H; try done;
    try (by left); try (by right); by destruct H.
Qed.

(** C5. One pass of [_cleanup_old_jobs] removes the entry of a job exactly
    when its status is COMPLETED or FAILED and its [updated_at] lies
    strictly before [now] minus the retention window; a job updated within
    the window stays, and so does every PENDING or PROCESSING job whatever
    its age.  An entry that stays still refers to the same object, and no
    object is changed. *)
Theorem C5_sweep_removes_exactly_old_terminal_jobs
    (now : datetime) (m : JobManager) (j : string) (l : loc) (job : JobState) :
  _jobs m !! j = Some l ->
  heap m !! l = Some job ->
  0 <= _retention_seconds m ->
  in_range now = true ->
  in_range (updated_at job) = true ->
  let cutoff := now - _retention_seconds m * 1000000 in
  let m' := (_cleanup_old_jobs now m).2 in
  (_jobs m' !! j = None
   <-> (status job = COMPLETED \/ status job = FAILED)
       /\ updated_at job < cutoff)
  /\ (status job = COMPLETED -> updated_at job < cutoff -> _jobs m' !! j = None)
  /\ (status job = FAILED -> updated_at job < cutoff -> _jobs m' !! j = None)
  /\ (cutoff <= updated_at job -> _jobs m' !! j = Some l)
  /\ (status job = PENDING \/ status job = PROCESSING -> _jobs m' !! j = Some l)
  /\ (_jobs m' !! j = None \/ _jobs m' !! j = Some l)
  /\ heap m' = heap m.
Proof.
  intros Hj Hl Hret Hnow Hupd cutoff m'.
  assert (Hcore : (_jobs m' !! j = None
                   <-> is_terminal (status job) = true /\ updated_at job < cutoff)
                  /\ (_jobs m' !! j = None \/ _jobs m' !! j = Some l)).
  { unfold in_range in Hnow, Hupd.
    apply andb_true_iff in Hnow as [Hn0 Hn1], Hupd as [Hu0 Hu1].
    apply Z.leb_le in Hn0, Hn1, Hu0, Hu1.
    subst m' cutoff.
    destruct (timedelta_seconds (_retention_seconds m)) as [delta|e] eqn:Htd.
    - assert (delta = _retention_seconds m * 1000000) as ->.
      { unfold timedelta_seconds in Htd. repeat case_match; congruence. }
      destruct (sub now (_retention_seconds m * 1000000)) as [c|e] eqn:Hsub.
      + assert (c = now - _retention_seconds m * 1000000) as ->.
        { unfold sub, shift in Hsub. case_match; [|done].
          inversion Hsub. lia. }
        rewrite (cleanup_lookup _ _ _ _ _ Htd Hsub), Hj.
        unfold to_remove, deref. simpl. rewrite Hl.
        destruct (is_terminal (status job)); simpl.
        * destruct (Z.ltb_spec (updated_at job)
                      (now - _retention_seconds m * 1000000)).
          -- split; [split; [done|]|by left]. done.
          -- split; [|by right]. split; [done|]. intros [_ ?]. lia.
        * split; [|by right]. split; [done|]. by intros [? _].
      + unfold _cleanup_old_jobs. rewrite Htd, Hsub. simpl. rewrite Hj.
        split; [|by right]. split; [done|]. intros [_ Hlt].
        unfold sub, shift, in_range in Hsub.
        case_match eqn:Hr; [done|].
        apply andb_false_iff in Hr as [Hr|Hr]; apply Z.leb_gt in Hr; lia.
    - unfold _cleanup_old_jobs. rewrite Htd. simpl. rewrite Hj.
      split; [|by right]. split; [done|]. intros [_ Hlt].
      unfold timedelta_seconds in Htd. cbv zeta in Htd.
      destruct (Z.abs _ <=? 999999999) eqn:Hd; [done|].
      apply Z.leb_gt in Hd.
      assert (0 <= _retention_seconds m / 86400) by (apply Z.div_pos; lia).
      pose proof (Z.mul_div_le (_retention_seconds m) 86400 ltac:(lia)).
      unfold MAX in Hn1. lia. }
  destruct Hcore as [Hiff Hcases].
  rewrite is_terminal_spec in Hiff.
  split; [done|]. split; [|split; [|split; [|split; [|split]]]].
  - intros Hst Hold. apply Hiff. split; [by left|done].
  - intros Hst Hold. apply Hiff. split; [by right|done].
  - intros Hin. destruct Hcases as [Hnone|]; [|done].
    apply Hiff in Hnone as [_ ?]. lia.
  - intros Hst. destruct Hcases as [Hnone|]; [|done].
    apply Hiff in Hnone as [Hterm _].
    destruct Hst as [Hst|Hst], Hterm as [Hterm|Hterm]; congruence.
  - done.
  - apply cleanup_heap.
Qed.

End JobStoreSweep.

Section JobStoreSweepExample.
Import Py Datetime JobManager Examples.

Lemma C5_sweep_witness :
  let now := 1000 + 3601 * 1000000 in
  let m' := (_cleanup_old_jobs now sweep_example).2 in
  (_jobs m' !! "job-1" = None
   <-> (COMPLETED = COMPLETED \/ COMPLETED = FAILED)
       /\ 1000 < now - 3600 * 1000000)
  /\ (COMPLETED = COMPLETED -> 1000 < now - 3600 * 1000000 ->
      _jobs m' !! "job-1" = None)
  /\ (COMPLETED = FAILED -> 1000 < now - 3600 * 1000000 ->
      _jobs m' !! "job-1" = None)
  /\ (now - 3600 * 1000000 <= 1000 -> _jobs m' !! "job-1" = Some 1%positive)
  /\ (COMPLETED = PENDING \/ COMPLETED = PROCESSING ->
      _jobs m' !! "job-1" = Some 1%positive)
  /\ (_jobs m' !! "job-1" = None \/ _jobs m' !! "job-1" = Some 1%positive)
  /\ heap m' = heap sweep_example.
Proof.
  apply (C5_sweep_removes_exactly_old_terminal_jobs
           (1000 + 3601 * 1000000) sweep_example "job-1" 1%positive
           sweep_example_job).
  - vm_compute. reflexivity.
  - vm_compute. reflexivity.
  - vm_compute. discriminate.
  - vm_compute. reflexivity.
  - vm_compute. reflexivity.
Defined.

End JobStoreSweepExample.

(** ** The job store: what [get_job] hands out *)

Section JobStoreGet.
Import Py Datetime JobManager Examples.

Lemma lookup_mutate_through (m : JobManager) (l : loc) (f : JobState -> JobState)
    (job : JobState) :
  heap m !! l = Some job -> heap (mutate_through l f m) !! l = Some (f job).
Proof.
  intros Hl. unfold mutate_through, with_heap. simpl.
  rewrite lookup_alter_eq. by rewrite Hl.
Qed.

(** C2, as the code has it.  [get_job] returns the stored object itself, not
    a copy: after the caller has changed the object it received, the entry
    still refers to that object, a later read through [get_job] sees the
    change, and so does the removal test of the sweep.  (Being a plain
    dictionary lookup, [get_job] itself changes nothing.) *)
Theorem C2_get_job_returns_live_reference
    (m : JobManager) (j : string) (l : loc) (job : JobState)
    (f : JobState -> JobState) :
  _jobs m !! j = Some l ->
  heap m !! l = Some job ->
  get_job j m = Some l
  /\ read_job j m = Some job
  /\ let m' := mutate_through l f m in
     get_job j m' = Some l
     /\ read_job j m' = Some (f job)
     /\ forall cutoff,
         to_remove m' cutoff (j, l)
         = is_terminal (status (f job)) && (updated_at (f job) <? cutoff).
Proof.
  intros Hj Hl.
  pose proof (lookup_mutate_through m l f job Hl) as Hm.
  split; [exact Hj|]. split.
  { unfold read_job, get_job. rewrite Hj. exact Hl. }
  intros m'. subst m'. split; [exact Hj|]. split.
  { unfold read_job, get_job.
    change (_jobs (mutate_through l f m)) with (_jobs m). rewrite Hj. exact Hm. }
  intros cutoff. unfold to_remove, deref.
  change ((j, l).2) with l. by rewrite Hm.
Qed.

Lemma C2_live_reference_witness :
  get_job "job-1" pending_example = Some 1%positive
  /\ read_job "job-1" pending_example = Some pending_example_job
  /\ let m' := mutate_through 1%positive caller_assignment pending_example in
     get_job "job-1" m' = Some 1%positive
     /\ read_job "job-1" m' = Some (caller_assignment pending_example_job)
     /\ forall cutoff,
         to_remove m' cutoff ("job-1", 1%positive)
         = is_terminal (status (caller_assignment pending_example_job))
           && (updated_at (caller_assignment pending_example_job) <? cutoff).
Proof.
  apply (C2_get_job_returns_live_reference
           pending_example "job-1" 1%positive pending_example_job
           caller_assignment).
  - vm_compute. reflexivity.
  - vm_compute. reflexivity.
Defined.

(** The snapshot reading of C2 fails: the job is read with progress 0, the
    caller assigns 55 to the object it received, and the next read through
    [get_job] reports 55. *)
Lemma C2_snapshot_counterexample :
  get_job "job-1" pending_example = Some 1%positive
  /\ progress_percentage <$> read_job "job-1" pending_example = Some 0
  /\ progress_percentage <$>
       read_job "job-1" (mutate_through 1%positive caller_assignment pending_example)
     = Some 55
  /\ read_job "job-1" (mutate_through 1%positive caller_assignment pending_example)
     <> read_job "job-1" pending_example.
Proof.
  repeat split; try (vm_compute; reflexivity).
  vm_compute. discriminate.
Qed.

End JobStoreGet.

(** ** The rate limiter *)

Section RateLimiterProperties.
Import Py Time RateLimiter Examples.

Lemma Qltb_false (a b : Q) : Qltb a b = false <-> (b <= a)%Q.
Proof.
  unfold Qltb. rewrite negb_false_iff. apply Qle_bool_iff.
Qed.

Lemma Qle_bool_false (a b : Q) : Qle_bool a b = false <-> (b < a)%Q.
Proof.
  split.
  - intros H. apply Qnot_le_lt. intros Hle.
    apply Qle_bool_iff in Hle. congruence.
  - intros H. apply not_true_iff_false. intros Hle.
    apply Qle_bool_iff in Hle. lra.
Qed.

Lemma py_min_le_l (a b : Q) : (py_min a b <= a)%Q.
Proof.
  unfold py_min. destruct (Qltb b a) eqn:E; [|lra].
  unfold Qltb in E. apply negb_true_iff, Qle_bool_false in E. lra.
Qed.

Lemma py_min_glb (a b c : Q) : (c <= a)%Q -> (c <= b)%Q -> (c <= py_min a b)%Q.
Proof. intros Ha Hb. unfold py_min. by destruct (Qltb b a). Qed.

(** A bucket of rate 0 never grants a positive number of tokens. *)
Lemma consume_rate_zero (requested : Z) (t : Q) (b : TokenBucket) :
  rate b = 0 -> per b <> 0 -> 0 < requested ->
  exists b', consume requested t b = (Returned false, b').
Proof.
  intros Hrate Hper Hreq. unfold consume.
  destruct (Z.eqb_spec (per b) 0) as [|_]; [done|].
  set (refilled := py_min _ _).
  assert (Hle : (refilled <= 0)%Q).
  { subst refilled. rewrite Hrate. apply py_min_le_l. }
  assert (Hlt : (0 < inject_Z requested)%Q).
  { change 0%Q with (inject_Z 0). by rewrite <- Zlt_Qlt. }
  destruct (Qle_bool (inject_Z requested) refilled) eqn:E.
  - apply Qle_bool_iff in E. lra.
  - eauto.
Qed.

(** C3, as the code has it.  While rate limiting is disabled, and for a
    service without a bucket, [acquire] returns [True] at once: nothing is
    raised, [time.sleep] is not called and no bucket is touched.  A bucket
    of rate 0 does not permit: a non-blocking [acquire] of a positive number
    of tokens on it returns [False], again without sleeping. *)
Theorem C3_acquire_when_disabled_or_rate_zero
    (settings : Settings) (service : string) (requested : Z) (wait : bool)
    (r : RateLimiter.RateLimiter) (c : Clock) :
  (enable_rate_limiting settings = false ->
   acquire settings service requested wait r c = (Returned true, r, c))
  /\ (limiters r !! service = None ->
      acquire settings service requested wait r c = (Returned true, r, c))
  /\ (forall b,
        enable_rate_limiting settings = true ->
        limiters r !! service = Some b ->
        rate b = 0 -> per b <> 0 -> 0 < requested ->
        exists b',
          acquire settings service requested false r c
          = (Returned false, store_bucket service b' r, c)).
Proof.
  split; [|split].
  - intros Hoff. unfold acquire. by rewrite Hoff.
  - intros Hnone. unfold acquire. rewrite Hnone.
    by destruct (negb (enable_rate_limiting settings)).
  - intros b Hon Hb Hrate Hper Hreq. unfold acquire. rewrite Hon, Hb. simpl.
    destruct (consume_rate_zero requested (now c) b Hrate Hper Hreq) as [b' ->].
    by exists b'.
Qed.

Lemma C3_acquire_disabled_witness :
  acquire disabled_settings "github" 1 true
          (RateLimiter__init__ default_settings 0) clock0
  = (Returned true, RateLimiter__init__ default_settings 0, clock0)
  /\ exists b',
      acquire zero_rate_settings "github" 1 false
              (RateLimiter__init__ zero_rate_settings 0) clock0
      = (Returned false,
         store_bucket "github" b' (RateLimiter__init__ zero_rate_settings 0),
         clock0).
Proof.
  split.
  - apply (proj1 (C3_acquire_when_disabled_or_rate_zero
                    disabled_settings "github" 1 true
                    (RateLimiter__init__ default_settings 0) clock0)).
    reflexivity.
  - apply (proj2 (proj2 (C3_acquire_when_disabled_or_rate_zero
                           zero_rate_settings "github" 1 false
                           (RateLimiter__init__ zero_rate_settings 0) clock0))
             (TokenBucket__init__ 0 60 0)).
    + reflexivity.
    + vm_compute. reflexivity.
    + reflexivity.
    + vm_compute. discriminate.
    + vm_compute. reflexivity.
Defined.

(** On a bucket of rate 0 the default request of one token is not
    permitted: without waiting [acquire] returns [False], and with waiting
    the division by the rate in [wait_time] raises [ZeroDivisionError]. *)
Lemma C3_rate_zero_counterexample :
  let r := RateLimiter__init__ zero_rate_settings 0 in
  rate <$> limiters r !! "github" = Some 0
  /\ (acquire zero_rate_settings "github" 1 false r clock0).1.1 = Returned false
  /\ (acquire zero_rate_settings "github" 1 true r clock0).1.1
     = Raised (simple_exn ZeroDivisionError "division by zero").
Proof. repeat split; vm_compute; reflexivity. Qed.

(** With the default request of one token a blocking [acquire] on an
    exhausted bucket sleeps once, for the time the missing fraction of a
    token needs to accrue, and then succeeds. *)
Lemma acquire_blocking_one_token
    (settings : Settings) (service : string)
    (r : RateLimiter.RateLimiter) (c : Clock) (b b1 : TokenBucket) :
  enable_rate_limiting settings = true ->
  limiters r !! service = Some b ->
  0 < rate b -> 0 < per b ->
  consume 1 (now c) b = (Returned false, b1) ->
  exists w b2,
    wait_time b1 = Returned w
    /\ (0 < w)%Q
    /\ acquire settings service 1 true r c
       = (Returned true, store_bucket service b2 r,
          mkClock (now c + w)%Q (slept c ++ [w])).
Proof.
  intros Hon Hb Hrate Hper Hcons.
  unfold consume in Hcons.
  destruct (Z.eqb_spec (per b) 0) as [|Hper0]; [lia|].
  set (refilled := py_min _ _) in Hcons.
  destruct (Qle_bool (inject_Z 1) refilled) eqn:Hins; [done|].
  inversion Hcons as [Hb1]. clear Hcons.
  apply Qle_bool_false in Hins. change (inject_Z 1) with 1%Q in Hins.
  assert (HrateQ : (0 < inject_Z (rate b))%Q).
  { change 0%Q with (inject_Z 0). by rewrite <- Zlt_Qlt. }
  assert (HperQ : (0 < inject_Z (per b))%Q).
  { change 0%Q with (inject_Z 0). by rewrite <- Zlt_Qlt. }
  assert (Hrate1 : (1 <= inject_Z (rate b))%Q).
  { change 1%Q with (inject_Z 1). rewrite <- Zle_Qle. lia. }
  set (w := ((1 - refilled) * inject_Z (per b) / inject_Z (rate b))%Q).
  assert (Hw : (0 < w)%Q).
  { subst w. apply Qlt_shift_div_l; [done|].
    nra. }
  assert (Hwt : wait_time (mkTokenBucket (rate b) (per b) refilled (now c))
                = Returned w).
  { unfold wait_time. simpl.
    destruct (Qle_bool 1 refilled) eqn:E.
    - apply Qle_bool_iff in E. lra.
    - destruct (Z.eqb_spec (rate b) 0); [lia|]. done. }
  assert (Hsleep : time_sleep w c
                   = (Returned tt, mkClock (now c + w)%Q (slept c ++ [w]))).
  { unfold time_sleep. destruct (Qltb w 0) eqn:E; [|done].
    unfold Qltb in E. apply negb_true_iff, Qle_bool_false in E. lra. }
  set (refilled2 :=
         py_min (inject_Z (rate b))
                (refilled + (now c + w - now c) * inject_Z (rate b)
                            / inject_Z (per b))%Q).
  assert (H2 : Qle_bool (inject_Z 1) refilled2 = true).
  { apply Qle_bool_iff. change (inject_Z 1) with 1%Q.
    subst refilled2. apply py_min_glb; [done|].
    assert (Heq : (refilled + (now c + w - now c) * inject_Z (rate b)
                              / inject_Z (per b) == 1)%Q).
    { subst w. field. split; lra. }
    rewrite Heq. lra. }
  exists w, (mkTokenBucket (rate b) (per b) (refilled2 - inject_Z 1)%Q
                           (now c + w)%Q).
  split; [done|]. split; [done|].
  unfold acquire. rewrite Hon, Hb. simpl.
  unfold consume at 1.
  destruct (Z.eqb_spec (per b) 0) as [|_]; [lia|].
  fold refilled.
  destruct (Qle_bool (inject_Z 1) refilled) eqn:E.
  { apply Qle_bool_iff in E. change (inject_Z 1) with 1%Q in E. lra. }
  rewrite Hwt, Hsleep. unfold consume. simpl.
  destruct (Z.eqb_spec (per b) 0) as [|_]; [lia|].
  fold refilled2. by rewrite H2.
Qed.

(** C4 at a request of two tokens.  The GitHub bucket (30 per minute) is
    drained to one token; a blocking [acquire] of two tokens then finds
    [wait_time] equal to 0 (it only looks for one token), sleeps once for 0
    seconds and returns [False]; the bucket still holds its one token. *)
Theorem C4_blocking_acquire_of_two_tokens_returns_false :
  let r0 := RateLimiter__init__ default_settings 0 in
  let '(res1, r1, c1) := acquire default_settings "github" 29 true r0 clock0 in
  let '(res2, r2, c2) := acquire default_settings "github" 2 true r1 c1 in
  res1 = Returned true
  /\ c1 = clock0
  /\ (tokens <$> limiters r1 !! "github") = Some (30 - 29)%Q
  /\ res2 = Returned false
  /\ slept c2 = [0%Q]
  /\ Qeq_bool (now c2) 0 = true
  /\ (Qeq_bool 1 <$> (tokens <$> limiters r2 !! "github")) = Some true.
Proof. vm_compute. repeat split; reflexivity. Qed.

End RateLimiterProperties.

(** ** The retry wrapper *)

Section RetryProperties.
Import Py Time ErrorHandler.

Context {World V : Type}.
Variable func : World -> outcome V * World.
Variable max_retries : Z.
Variable delay backoff : Q.
Variable exceptions : list exn_class.

Local Abbreviation loop := (retry_loop func max_retries backoff exceptions).
Local Abbreviation failures := (caught_failures func exceptions).
Local Abbreviation delays := (backoff_delays delay backoff).
Local Abbreviation nth := (nth_delay delay backoff).

(** The [except] clause catches exactly the errors of a retryable kind. *)
Lemma catches_retryable (e : exn) :
  catches exceptions e = true <-> retryable exceptions e.
Proof. unfold catches, retryable. apply existsb_exists. Qed.

Lemma catches_not_retryable (e : exn) :
  catches exceptions e = false
  <-> (forall cl, In cl exceptions -> isinstance e cl = false).
Proof.
  rewrite <- not_true_iff_false, catches_retryable. unfold retryable. split.
  - intros Hno cl Hin. apply not_true_iff_false. intros Hi. apply Hno. eauto.
  - intros Hall (cl & Hin & Hi). rewrite (Hall cl Hin) in Hi. done.
Qed.

Lemma round_to_float_Finite (x q : Q) :
  Float.round_to_float x = Float.Finite q -> q = Float.nearest x.
Proof. unfold Float.round_to_float. case_match; congruence. Qed.

(** A finite delay comes from a finite delay. *)
Lemma nth_delay_Finite_inv (i : nat) (q : Q) :
  nth (S i) = Float.Finite q ->
  exists q0, nth i = Float.Finite q0 /\ q = Float.nearest (q0 * backoff).
Proof.
  simpl. destruct (nth i) as [q0|n|]; simpl.
  - intros Hq. exists q0. split; [done|]. by apply round_to_float_Finite.
  - by destruct (Float.is_zero backoff).
  - done.
Qed.

Section NonNegative.

Hypothesis delay_nonneg : (0 <= delay)%Q.
Hypothesis backoff_nonneg : (0 <= backoff)%Q.

(** The delays that are slept for are finite. *)
Hypothesis delays_finite :
  forall i : nat, Z.of_nat i < max_retries -> exists q, nth i = Float.Finite q.

Lemma nth_delay_nonneg (i : nat) (q : Q) : nth i = Float.Finite q -> (0 <= q)%Q.
Proof.
  revert q. induction i as [|i IH]; intros q Hq.
  - simpl in Hq. by injection Hq as <-.
  - apply nth_delay_Finite_inv in Hq as (q0 & Hq0 & ->).
    apply nearest_nonneg. specialize (IH q0 Hq0). nra.
Qed.

Lemma sleep_nth_delay (a : nat) (c : Clock) :
  Z.of_nat a < max_retries ->
  exists d,
    nth a = Float.Finite d
    /\ time_sleep_float (nth a) c
       = (Returned tt, mkClock (now c + d)%Q (slept c ++ [d])).
Proof.
  intros Ha. destruct (delays_finite a Ha) as [d Hd].
  exists d. split; [done|]. rewrite Hd. simpl. unfold time_sleep.
  destruct (Qltb d 0) eqn:E; [|done].
  unfold Qltb in E. apply negb_true_iff in E.
  pose proof (nth_delay_nonneg a d Hd) as Hle.
  apply Qle_bool_iff in Hle. congruence.
Qed.

Lemma delays_cons (a : nat) (d : Q) (ds : list Q) :
  nth a = Float.Finite d -> delays (S a) ds -> delays a (d :: ds).
Proof.
  intros Hd Hds [|i] d' Hi; simpl in Hi.
  - inversion Hi; subst. by rewrite Nat.add_0_r.
  - rewrite Nat.add_succ_r. by apply (Hds i d').
Qed.

(** The loop, entered at attempt [a] with the delay of that attempt, runs
    through the caught failures [es]: it sleeps after each of them and goes
    on with the attempts that are left. *)
Lemma loop_after_failures (w w1 : World) (es : list exn) :
  failures w es w1 ->
  forall (a n : nat) (prev : option exn) (c : Clock),
    Z.of_nat a + Z.of_nat (length es) <= max_retries ->
    (length es <= n)%nat ->
    exists (c' : Clock) (ds : list Q),
      loop (zrange (Z.of_nat a) n) (nth a) prev w c
      = loop (zrange (Z.of_nat (a + length es)) (n - length es))
             (nth (a + length es))
             (match last es with Some e => Some e | None => prev end) w1 c'
      /\ slept c' = (slept c ++ ds)%list
      /\ length ds = length es
      /\ delays a ds.
Proof.
  induction 1 as [w|w w1 w2 e es Hcall Hcatch Hrest IH];
    intros a n prev c Hle Hn.
  - exists c, []. simpl. rewrite Nat.add_0_r, Nat.sub_0_r, app_nil_r.
    repeat split; try done.
  - simpl in Hle, Hn. destruct n as [|n]; [lia|].
    destruct (sleep_nth_delay a c ltac:(lia)) as (d & Hd & Hsleep).
    destruct (IH (S a) n (Some e) (mkClock (now c + d)%Q (slept c ++ [d])))
      as (c' & ds & Heq & Hslept & Hlen & Hds); [lia|lia|].
    exists c', (d :: ds).
    split; [|split; [|split]].
    + simpl zrange. cbn [retry_loop]. rewrite Hcall.
      rewrite (proj2 (catches_retryable e) Hcatch).
      destruct (Z.ltb_spec (Z.of_nat a) max_retries) as [_|?]; [|lia].
      rewrite Hsleep.
      replace (Z.of_nat a + 1) with (Z.of_nat (S a)) by lia.
      change (Float.mul (nth a) (Float.Finite backoff)) with (nth (S a)).
      rewrite Heq. simpl length.
      replace (a + S (length es))%nat with (S a + length es)%nat by lia.
      replace (S n - S (length es))%nat with (n - length es)%nat by lia.
      rewrite last_cons. by destruct (last es).
    + rewrite Hslept. simpl. by rewrite <- app_assoc.
    + simpl. by rewrite Hlen.
    + by apply delays_cons.
Qed.

End NonNegative.

Lemma failures_snoc_inv (w w1 : World) (es : list exn) (e : exn) :
  failures w (es ++ [e]) w1 ->
  exists wm, failures w es wm /\ func wm = (Raised e, w1) /\ retryable exceptions e.
Proof.
  revert w. induction es as [|e0 es IH]; intros w H; simpl in H.
  - inversion H as [|? ? ? ? ? Hcall Hcatch Hrest]; subst.
    inversion Hrest; subst. exists w. split; [constructor|done].
  - inversion H as [|? wa ? ? ? Hcall Hcatch Hrest]; subst.
    destruct (IH wa Hrest) as (wm & Hes & Hlast & Hc).
    exists wm. split; [|done]. econstructor; eauto.
Qed.

Lemma range_max_retries (k : nat) :
  Z.of_nat k <= max_retries ->
  exists n, range (max_retries + 1) = zrange 0 n /\ (k < n)%nat
            /\ Z.of_nat n = max_retries + 1.
Proof.
  intros Hk. exists (Z.to_nat (max_retries + 1)). split; [done|]. lia.
Qed.

(** Every run is of one of the three kinds distinguished below: within [n]
    attempts the function returns, or raises an error that is not of a
    retryable kind, or all [n] attempts raise a retryable error. *)
Lemma retry_runs_classified (w : World) (n : nat) :
  exists es w1,
    failures w es w1
    /\ (length es <= n)%nat
    /\ (length es = n
        \/ (exists v w2, func w1 = (Returned v, w2))
        \/ (exists e w2, func w1 = (Raised e, w2)
                         /\ forall cl, In cl exceptions -> isinstance e cl = false)).
Proof.
  revert w. induction n as [|n IH]; intros w.
  - exists [], w. split; [constructor|]. split; [done|]. by left.
  - destruct (func w) as [[v|e] w'] eqn:Hcall.
    + exists [], w. split; [constructor|]. split; [simpl; lia|].
      right. left. eauto.
    + destruct (catches exceptions e) eqn:Hcatch.
      * apply catches_retryable in Hcatch.
        destruct (IH w') as (es & w1 & Hes & Hlen & Hkind).
        exists (e :: es), w1. split; [by econstructor|].
        split; [simpl; lia|].
        destruct Hkind as [Hn|Hkind]; [left; simpl; lia|by right].
      * pose proof (proj1 (catches_not_retryable e) Hcatch) as Hnone.
        exists [], w. split; [constructor|]. split; [simpl; lia|].
        right. right. eauto.
Qed.

(** When the exact products are floats, the delays are the powers. *)
Lemma nth_delay_exact (i : nat) :
  (forall k : nat, (k <= i)%nat ->
                   Float.representable (delay * backoff ^ Z.of_nat k)) ->
  exists q, nth i = Float.Finite q /\ (q == delay * backoff ^ Z.of_nat i)%Q.
Proof.
  induction i as [|i IH]; intros Hrep.
  - exists delay. split; [done|]. simpl. ring.
  - destruct IH as (q0 & Hq0 & Heq); [intros k Hk; apply Hrep; lia|].
    destruct (Hrep (S i) ltac:(lia)) as [Hnear Hfin].
    assert (Hpow : (q0 * backoff == delay * backoff ^ Z.of_nat (S i))%Q).
    { rewrite Nat2Z.inj_succ. unfold Z.succ.
      rewrite Qpower_plus' by lia. rewrite Heq.
      change (backoff ^ 1)%Q with backoff. ring. }
    exists (Float.nearest (q0 * backoff)). simpl. rewrite Hq0. simpl.
    rewrite (nearest_proper _ _ Hpow). split; [|done].
    unfold Float.round_to_float. rewrite (nearest_proper _ _ Hpow).
    destruct (Qle_bool _ _) eqn:E; [|done].
    apply Qle_bool_iff in E. rewrite Hnear in E. lra.
Qed.


End RetryProperties.

Section RetryExample.
Import Py Time ErrorHandler Examples.



End RetryExample.

(** ** The caching decorator *)

Section CacheProperties.
Import Py Datetime Cache.

Context {World Args : Type}.
Variable datetime_now : World -> datetime.
Variable generate_key : Args -> string.
Variable func : Args -> World -> outcome pyval * World.
Variable func__name__ : string.
Variable enable_caching : bool.
Variable ttl : option Z.
Variable key_prefix : string.

Local Abbreviation key := (cache_key Args generate_key func__name__ key_prefix).
Local Abbreviation wrapper :=
  (cached datetime_now generate_key func func__name__ enable_caching ttl key_prefix).
Local Abbreviation wrapper_calls :=
  (cached_calls datetime_now generate_key func func__name__ enable_caching ttl
                key_prefix).

(** A lookup that finds no entry and one that finds a stored [None] give the
    caller the same answer. *)
Lemma manager_get_absent_or_None (k : string) (now : datetime) (m : CacheManager) :
  absent_or_None k m ->
  exists m1, manager_get k now m = (PyNone, m1) /\ absent_or_None k m1.
Proof.
  unfold absent_or_None, manager_get, get. intros H.
  destruct (backend m) as [c|] eqn:Hb.
  - destruct (_cache c !! k) as [[v expiry]|] eqn:Hk.
    + subst v. destruct (now <? expiry).
      * eexists. split; [done|]. simpl. by rewrite Hk.
      * eexists. split; [done|]. simpl. by rewrite lookup_delete_eq.
    + eexists. split; [done|]. simpl. by rewrite Hk.
  - exists m. split; [done|]. by rewrite Hb.
Qed.

Lemma manager_set_None (k : string) (t : option Z) (now : datetime)
    (m : CacheManager) :
  absent_or_None k m -> absent_or_None k (manager_set k PyNone t now m).2.
Proof.
  unfold absent_or_None, manager_set, set. intros H.
  destruct (backend m) as [c|] eqn:Hb; [|simpl; by rewrite Hb].
  destruct (timedelta_seconds _); [|done].
  destruct (add now _); [|done].
  simpl. by rewrite lookup_insert_eq.
Qed.

Lemma cached_absent_or_None (args : Args) (m : CacheManager) (w : World) :
  absent_or_None (key args) m ->
  exists r m',
    wrapper args m w = (r, m', (func args w).2)
    /\ (r = (func args w).1 \/ exists e, r = Raised e /\ cls e = OverflowError)
    /\ ((func args w).1 = Returned PyNone -> absent_or_None (key args) m').
Proof.
  intros H. unfold cached. destruct enable_caching; simpl.
  - destruct (manager_get_absent_or_None _ (datetime_now w) m H)
      as (m1 & -> & H1). simpl.
    destruct (func args w) as [[result|e] w1] eqn:Hf; simpl.
    + destruct (manager_set (key args) result ttl (datetime_now w1) m1)
        as [[u|e] m2] eqn:Hs.
      * do 2 eexists. split; [done|]. split; [by left|].
        intros [= ->]. pose proof (manager_set_None _ ttl (datetime_now w1) m1 H1) as Hp.
        by rewrite Hs in Hp.
      * do 2 eexists. split; [done|]. split.
        -- right. exists e. split; [done|].
           unfold manager_set, set in Hs.
           destruct (backend m1); [|done].
           unfold timedelta_seconds, add, shift in Hs.
           repeat case_match; simplify_eq; done.
        -- intros [= ->]. pose proof (manager_set_None _ ttl (datetime_now w1) m1 H1) as Hp.
           by rewrite Hs in Hp.
    + do 2 eexists. split; [done|]. split; [by left|]. done.
  - destruct (func args w) as [r w1]. do 2 eexists. split; [done|].
    split; [by left|]. done.
Qed.

(** C10.  Let the cache hold no entry under the key of a call, or an entry
    whose value is [None] (whatever its expiry, so in particular one that is
    still within its TTL).  Then the lookup answers [None] in both cases,
    the wrapper executes the function (the world is the one the function
    leaves, and the outcome is the function's, unless storing the result
    overflows the [datetime] range), and when the function returns [None]
    the cache is again in such a state.  Hence a function that always
    returns [None] is executed on every one of [n] consecutive identical
    calls. *)
Theorem C10_cached_None_is_a_miss (args : Args) (m : CacheManager) (w : World) :
  absent_or_None (key args) m ->
  (manager_get (key args) (datetime_now w) m).1 = PyNone
  /\ (exists r m',
        wrapper args m w = (r, m', (func args w).2)
        /\ (r = (func args w).1 \/ exists e, r = Raised e /\ cls e = OverflowError)
        /\ ((func args w).1 = Returned PyNone -> absent_or_None (key args) m'))
  /\ ((forall w0, (func args w0).1 = Returned PyNone) ->
      forall n, (wrapper_calls n args m w).2 = (plain_calls func n args w).2).
Proof.
  intros H. split; [|split].
  - by destruct (manager_get_absent_or_None _ (datetime_now w) m H) as (m1 & -> & _).
  - by apply cached_absent_or_None.
  - intros Hnone n. revert m w H.
    induction n as [|n IH]; intros m w H; [done|].
    simpl.
    destruct (cached_absent_or_None args m w H) as (r & m' & -> & _ & Hkeep).
    specialize (IH m' (func args w).2 (Hkeep (Hnone w))).
    destruct (wrapper_calls n args m' (func args w).2) as [[rs m2] w2].
    destruct (func args w) as [r0 w1]. simpl in *.
    destruct (plain_calls func n args w1) as [rs' w2']. simpl in *. done.
Qed.

End CacheProperties.

Section CacheExample.
Import Py Datetime Cache Examples.

(** After a first call has stored [None], the entry exists and has not
    expired; the second call executes the function again all the same. *)
Lemma C10_cached_None_witness :
  (exists c expiry,
      backend cache_after_one_call = Some c
      /\ _cache c !! "github:search:d751713988987e9331980363e24189ce"
         = Some (PyNone, expiry)
      /\ example_now 1%nat < expiry)
  /\ (cached_none_func tt cache_after_one_call 1%nat).2 = 2%nat.
Proof.
  split.
  - do 2 eexists. split; [vm_compute; reflexivity|].
    split; [vm_compute; reflexivity|]. vm_compute. reflexivity.
  - destruct (proj1 (proj2 (C10_cached_None_is_a_miss
                              example_now example_digest none_func "search" true
                              (Some 3600) "github" tt cache_after_one_call 1%nat
                              ltac:(vm_compute; reflexivity))))
      as (r & m' & Heq & _).
    unfold cached_none_func. rewrite Heq. reflexivity.
Defined.

End CacheExample.

(** ** Skill normalization *)

Section NormalizationProperties.
Import Py PyStr SkillGapAnalyzer.

Ltac by_cases_on_char c :=
  destruct c as [[] [] [] [] [] [] [] []]; vm_compute; reflexivity.

Lemma lower_char_idem (c : ascii) : lower_char (lower_char c) = lower_char c.
Proof. by_cases_on_char c. Qed.

Lemma isspace_lower_char (c : ascii) : isspace (lower_char c) = isspace c.
Proof. by_cases_on_char c. Qed.

Lemma chars_of_chars (l : list ascii) : chars (of_chars l) = l.
Proof. apply list_ascii_of_string_of_list_ascii. Qed.

Lemma normalize_skill_chars (s : string) :
  normalize_skill s = of_chars (normalize_chars (chars s)).
Proof.
  unfold normalize_skill, normalize_chars, remove, strip, lower.
  by rewrite !chars_of_chars.
Qed.

Lemma In_drop_while (p : ascii -> bool) (l : list ascii) (c : ascii) :
  In c (drop_while p l) -> In c l.
Proof.
  induction l as [|x l IH]; simpl; [done|].
  destruct (p x); [intros H; right; by apply IH|done].
Qed.

Lemma In_strip_chars (l : list ascii) (c : ascii) : In c (strip_chars l) -> In c l.
Proof.
  unfold strip_chars, rstrip_chars, lstrip_chars. intros H.
  apply in_rev, In_drop_while, in_rev, In_drop_while in H. done.
Qed.

Lemma drop_while_none (p : ascii -> bool) (l : list ascii) :
  (forall c, In c l -> p c = false) -> drop_while p l = l.
Proof.
  destruct l as [|x l]; [done|]. intros H. simpl.
  by rewrite (H x (or_introl eq_refl)).
Qed.

Lemma remove_chars_none (ch : ascii) (l : list ascii) :
  (forall c, In c l -> Ascii.eqb c ch = false) -> remove_chars ch l = l.
Proof.
  unfold remove_chars. induction l as [|x l IH]; intros H; simpl; [done|].
  rewrite (H x (or_introl eq_refl)). simpl. f_equal.
  apply IH. intros c Hc. apply H. by right.
Qed.

Lemma normalize_chars_normal (l : list ascii) :
  forallb (fun c => negb (isspace c) || Ascii.eqb c " ") l = true ->
  forall c, In c (normalize_chars l) -> normal_char c.
Proof.
  intros Hplain c Hc. unfold normalize_chars, remove_chars in Hc.
  apply filter_In in Hc as [Hc Hsp]. apply filter_In in Hc as [Hc Hdash].
  apply filter_In in Hc as [Hc Hdot]. apply In_strip_chars in Hc.
  apply in_map_iff in Hc as (c0 & <- & Hc0).
  apply negb_true_iff in Hsp, Hdash, Hdot.
  rewrite forallb_forall in Hplain. specialize (Hplain c0 Hc0).
  repeat split; try done; [|apply lower_char_idem].
  rewrite isspace_lower_char.
  destruct (isspace c0) eqn:Hs; [|done]. simpl in Hplain.
  apply Ascii.eqb_eq in Hplain. subst c0. done.
Qed.

Lemma normalize_chars_fixed (l : list ascii) :
  (forall c, In c l -> normal_char c) -> normalize_chars l = l.
Proof.
  intros H. unfold normalize_chars.
  assert (Hmap : map lower_char l = l).
  { rewrite <- (map_id l) at 2. apply map_ext_in. intros c Hc. apply (H c Hc). }
  assert (Hstrip : strip_chars l = l).
  { unfold strip_chars, lstrip_chars, rstrip_chars.
    rewrite (drop_while_none isspace l) by (intros c Hc; apply (H c Hc)).
    rewrite (drop_while_none isspace (rev l)).
    - apply rev_involutive.
    - intros c Hc. apply in_rev in Hc. apply (H c Hc). }
  rewrite Hmap, Hstrip.
  rewrite (remove_chars_none "." l) by (intros c Hc; apply (H c Hc)).
  rewrite (remove_chars_none "-" l) by (intros c Hc; apply (H c Hc)).
  apply remove_chars_none. intros c Hc. apply (H c Hc).
Qed.

Lemma normalize_skill_idem (s : string) :
  plain_whitespace s = true -> normalize_skill (normalize_skill s) = normalize_skill s.
Proof.
  intros Hplain. rewrite !normalize_skill_chars, chars_of_chars.
  f_equal. apply normalize_chars_fixed. by apply normalize_chars_normal.
Qed.

Lemma normalize_skills_fold (l : list string) (X : gset string) :
  foldl (fun normalized skill => normalized ∪ {[ normalize_skill skill ]}) X l
  = X ∪ list_to_set (normalize_skill <$> l).
Proof.
  revert X. induction l as [|s l IH]; intros X; simpl.
  - set_solver.
  - rewrite IH. set_solver.
Qed.

Lemma elem_of_normalize_skills (l : list string) (x : string) :
  x ∈ _normalize_skills l <-> exists s, s ∈ l /\ x = normalize_skill s.
Proof.
  unfold _normalize_skills. rewrite normalize_skills_fold.
  rewrite elem_of_union, elem_of_list_to_set, list_elem_of_fmap.
  split.
  - intros [H|(s & -> & Hs)]; [set_solver|eauto].
  - intros (s & Hs & ->). right. eauto.
Qed.

(** C8, as the code has it.  Normalization does not depend on the order of
    the names; the list of the scenario normalizes to the three expected
    tokens; and normalizing the elements of a normalized set gives the same
    set whenever the original names contain no whitespace character other
    than the ordinary space. *)
Theorem C8_normalization_order_independent_and_idempotent :
  (forall l1 l2 : list string,
      l1 ≡ₚ l2 -> _normalize_skills l1 = _normalize_skills l2)
  /\ (forall skills : list string,
        Forall (fun s => plain_whitespace s = true) skills ->
        _normalize_skills (elements (_normalize_skills skills))
        = _normalize_skills skills)
  /\ _normalize_skills ["React.js"; "Node.js"; "Python 3"]
     = {[ "reactjs"; "nodejs"; "python3" ]}.
Proof.
  split; [|split].
  - intros l1 l2 Hperm. apply set_eq. intros x.
    rewrite !elem_of_normalize_skills. by setoid_rewrite Hperm.
  - intros skills Hplain. apply set_eq. intros x.
    rewrite Forall_forall in Hplain.
    rewrite elem_of_normalize_skills. split.
    + intros (y & Hy & ->). apply elem_of_elements in Hy.
      apply elem_of_normalize_skills in Hy as (s & Hs & ->).
      rewrite normalize_skill_idem by auto.
      apply elem_of_normalize_skills. eauto.
    + intros Hx. pose proof Hx as Hx'.
      apply elem_of_normalize_skills in Hx' as (s & Hs & ->).
      exists (normalize_skill s). split; [by apply elem_of_elements|].
      by rewrite normalize_skill_idem by auto.
  - apply set_eq. intros x. rewrite elem_of_normalize_skills.
    split.
    + intros (s & Hs & ->).
      repeat (apply elem_of_cons in Hs as [->|Hs]; [vm_compute; set_solver|]).
      by apply elem_of_nil in Hs.
    + intros Hx. set_unfold in Hx.
      destruct Hx as [[->| ->]| ->].
      * exists "React.js". split; [set_solver|reflexivity].
      * exists "Node.js". split; [set_solver|reflexivity].
      * exists "Python 3". split; [set_solver|reflexivity].
Qed.

End NormalizationProperties.

Section NormalizationExamples.
Import Py PyStr SkillGapAnalyzer Examples.

Lemma C8_normalization_witness :
  _normalize_skills (elements (_normalize_skills ["React.js"; "Node.js"; "Python 3"]))
  = _normalize_skills ["React.js"; "Node.js"; "Python 3"].
Proof.
  apply (proj1 (proj2 C8_normalization_order_independent_and_idempotent)).
  repeat constructor.
Defined.

(** Idempotence fails on the name ".<TAB>net": [strip] sees no whitespace
    at its ends, the full stop is then removed, and the result "<TAB>net"
    loses its TAB when it is normalized again. *)
Lemma C8_idempotence_counterexample :
  _normalize_skills [dot_tab_net] = {[ tab_net ]}
  /\ _normalize_skills (elements (_normalize_skills [dot_tab_net])) = {[ "net" ]}
  /\ _normalize_skills (elements (_normalize_skills [dot_tab_net]))
     <> _normalize_skills [dot_tab_net].
Proof.
  assert (H1 : _normalize_skills [dot_tab_net] = {[ tab_net ]}).
  { vm_compute. reflexivity. }
  assert (H2 : _normalize_skills (elements (_normalize_skills [dot_tab_net]))
               = {[ "net" ]}).
  { vm_compute. reflexivity. }
  split; [done|]. split; [done|].
  rewrite H2, H1. intros Heq.
  assert (Hin : "net" ∈ ({[ tab_net ]} : gset string)).
  { rewrite <- Heq. by apply elem_of_singleton. }
  apply elem_of_singleton in Hin. discriminate.
Qed.

End NormalizationExamples.

(** ** The match percentage *)

Section MatchPercentage.
Import Py PyStr SkillGapAnalyzer Examples.

Variable ratio : string -> string -> Q.

Lemma find_matches_fold_subseteq (cv_skills : gset string) (thr : Q)
    (l : list string) (X : gset string) :
  foldl (fun matches job_skill =>
           if bool_decide (job_skill ∈ cv_skills) then matches ∪ {[ job_skill ]}
           else if fuzzy_match ratio cv_skills job_skill thr
                then matches ∪ {[ job_skill ]}
                else matches) X l
  ⊆ X ∪ list_to_set l.
Proof.
  revert X. induction l as [|x l IH]; intros X; simpl; [set_solver|].
  etrans; [apply IH|].
  destruct (bool_decide (x ∈ cv_skills)); [set_solver|].
  destruct (fuzzy_match ratio cv_skills x thr); set_solver.
Qed.

(** Only target skills are matched. *)
Lemma find_matches_subseteq (cv_skills job_skills : gset string) (thr : Q) :
  _find_matches ratio cv_skills job_skills thr ⊆ job_skills.
Proof.
  unfold _find_matches. etrans; [apply find_matches_fold_subseteq|].
  rewrite list_to_set_elements_L. set_solver.
Qed.

Lemma inject_Z_nat_nonneg (n : nat) : (0 <= inject_Z (Z.of_nat n))%Q.
Proof. change 0%Q with (inject_Z 0). rewrite <- Zle_Qle. lia. Qed.

(** [round(x, 1)] of a float between 0 and 100: the float nearest to a
    number of tenths [k / 10] that is within 0.05 of [x]. *)
Lemma round1_spec (x : Q) :
  (0 <= x)%Q -> (x <= 100)%Q ->
  let k := Float.round_half_even (x * 10) in
  0 <= k <= 1000
  /\ round1 x = Float.nearest (inject_Z k / 10)
  /\ (Qabs (inject_Z k / 10 - x) <= 1 # 20)%Q
  /\ (0 <= round1 x)%Q /\ (round1 x <= 100)%Q
  /\ (Qabs (round1 x - inject_Z k / 10) <= 1 # 2 ^ 47)%Q.
Proof.
  intros H0 H100 k.
  assert (Hk0 : 0 <= k).
  { subst k. rewrite <- (round_half_even_Z 0). apply round_half_even_mono.
    change (inject_Z 0) with 0%Q. lra. }
  assert (Hk1 : k <= 1000).
  { subst k. rewrite <- (round_half_even_Z 1000). apply round_half_even_mono.
    change (inject_Z 1000) with 1000%Q. lra. }
  destruct (round_half_even_spec (x * 10)) as [Ha Hb]. fold k in Ha, Hb.
  assert (Hq0 : (0 <= inject_Z k)%Q).
  { change 0%Q with (inject_Z 0). by rewrite <- Zle_Qle. }
  assert (Hq1 : (inject_Z k <= 1000)%Q).
  { change 1000%Q with (inject_Z 1000). by rewrite <- Zle_Qle. }
  unfold round1. fold k.
  set (q := inject_Z k) in *. clearbody q.
  assert (Hdiv : (q / 10 == q * (1 # 10))%Q) by field.
  assert (Hlo : (0 <= q / 10)%Q) by (rewrite Hdiv; lra).
  assert (Hhi : (q / 10 <= inject_Z 100)%Q).
  { change (inject_Z 100) with 100%Q. rewrite Hdiv. lra. }
  split; [done|]. split; [done|]. split.
  { rewrite Hdiv. apply Qabs_Qle_condition. split; lra. }
  split; [by apply nearest_nonneg|].
  split; [by apply nearest_le_Z|].
  assert (Hp : (Float.pow2 (-46) / 2 == 1 # 2 ^ 47)%Q) by reflexivity.
  rewrite <- Hp. apply nearest_error; [done| |lia].
  assert (Hp7 : (Float.pow2 (-46 + 53) == 128)%Q) by reflexivity.
  rewrite Hp7. change (inject_Z 100) with 100%Q in Hhi. lra.
Qed.

(** The two float operations of the percentage: the quotient of the two
    lengths and its product with 100 stay between 0 and 100, and the
    product is within [1e-13] of the exact ratio. *)
Lemma float_percentage_spec (m t : Z) :
  0 <= m <= t -> 0 < t ->
  let exact := (100 * inject_Z m / inject_Z t)%Q in
  let product := Float.nearest (Float.nearest (inject_Z m / inject_Z t) * 100)%Q in
  (0 <= exact)%Q /\ (exact <= 100)%Q
  /\ (0 <= product)%Q /\ (product <= 100)%Q
  /\ (Qabs (product - exact) <= 1 # 10 ^ 13)%Q.
Proof.
  intros Hm Ht exact product.
  assert (Htq : (0 < inject_Z t)%Q).
  { change 0%Q with (inject_Z 0). by rewrite <- Zlt_Qlt. }
  assert (Hmq : (0 <= inject_Z m)%Q).
  { change 0%Q with (inject_Z 0). rewrite <- Zle_Qle. lia. }
  assert (Hmt : (inject_Z m <= inject_Z t)%Q) by (rewrite <- Zle_Qle; lia).
  assert (Hx0 : (0 <= inject_Z m / inject_Z t)%Q).
  { apply Qle_shift_div_l; [done|]. by rewrite Qmult_0_l. }
  assert (Hx1 : (inject_Z m / inject_Z t <= 1)%Q).
  { apply Qle_shift_div_r; [done|]. by rewrite Qmult_1_l. }
  assert (Hexact : (exact == inject_Z m / inject_Z t * 100)%Q).
  { subst exact. field. lra. }
  subst product.
  set (x := (inject_Z m / inject_Z t)%Q) in *. clearbody x.
  assert (Hs0 : (0 <= Float.nearest x)%Q) by (by apply nearest_nonneg).
  assert (Hs1 : (Float.nearest x <= 1)%Q).
  { change 1%Q with (inject_Z 1). by apply nearest_le_Z. }
  assert (Hserr : (Qabs (Float.nearest x - x) <= 1 # 2 ^ 53)%Q).
  { assert (Hp : (Float.pow2 (-52) / 2 == 1 # 2 ^ 53)%Q) by reflexivity.
    rewrite <- Hp. apply nearest_error; [done| |lia].
    assert (Hp1 : (Float.pow2 (-52 + 53) == 2)%Q) by reflexivity.
    rewrite Hp1. lra. }
  set (share := Float.nearest x) in *. clearbody share.
  assert (Hy0 : (0 <= share * 100)%Q) by lra.
  assert (Hy1 : (share * 100 <= inject_Z 100)%Q).
  { change (inject_Z 100) with 100%Q. lra. }
  assert (Hperr : (Qabs (Float.nearest (share * 100) - share * 100)
                   <= 1 # 2 ^ 47)%Q).
  { assert (Hp : (Float.pow2 (-46) / 2 == 1 # 2 ^ 47)%Q) by reflexivity.
    rewrite <- Hp. apply nearest_error; [done| |lia].
    assert (Hp7 : (Float.pow2 (-46 + 53) == 128)%Q) by reflexivity.
    rewrite Hp7. change (inject_Z 100) with 100%Q in Hy1. lra. }
  assert (Hp0 : (0 <= Float.nearest (share * 100))%Q) by (by apply nearest_nonneg).
  assert (Hp1 : (Float.nearest (share * 100) <= 100)%Q).
  { change 100%Q with (inject_Z 100). by apply nearest_le_Z. }
  set (product := Float.nearest (share * 100)) in *. clearbody product.
  apply Qabs_Qle_condition in Hserr as [Hs2 Hs3], Hperr as [Hp2 Hp3].
  split; [lra|]. split; [lra|]. split; [done|]. split; [done|].
  apply Qabs_Qle_condition. rewrite Hexact.
  assert (Hc1 : ((1 # 2 ^ 53) == 1 # 9007199254740992)%Q) by reflexivity.
  assert (Hc2 : ((1 # 2 ^ 47) == 1 # 140737488355328)%Q) by reflexivity.
  assert (Hc3 : ((1 # 10 ^ 13) == 1 # 10000000000000)%Q) by reflexivity.
  rewrite Hc1 in Hs2, Hs3. rewrite Hc2 in Hp2, Hp3. rewrite Hc3.
  split; lra.
Qed.

(** C7, as the code has it.  The analysis counts the required skills after
    normalization.  Without required skills its match percentage is 100.
    Otherwise the code divides the number of matched required skills by
    their total, multiplies by 100 (two float operations) and applies
    [round(., 1)]: the result is the float nearest to a number of tenths
    [k / 10] with [0 <= k <= 1000], that number of tenths is within 0.05 of
    the float product, and the product within [1e-13] of the exact ratio
    [100 * matched / total]; so the result is the exact ratio only up to
    [0.05 + 2e-13].  In every case the result lies in [0, 100]. *)
Theorem C7_match_percentage_is_rounded_ratio
    (cv_data : CVData) (job_requirements : JobRequirements) :
  let analysis := analyze_gaps ratio cv_data job_requirements in
  let required := _normalize_skills (get_required_skill_names job_requirements) in
  let matched :=
    _find_matches ratio (_normalize_skills (get_all_skill_names cv_data))
                  required default_threshold in
  let exact := (100 * inject_Z (Z.of_nat (size matched))
                / inject_Z (Z.of_nat (size required)))%Q in
  let product :=
    Float.nearest (Float.nearest (inject_Z (Z.of_nat (size matched))
                                  / inject_Z (Z.of_nat (size required))) * 100)%Q in
  total_required_skills analysis = Z.of_nat (size required)
  /\ (size required = 0%nat -> (match_percentage analysis == 100)%Q)
  /\ (size required <> 0%nat ->
      match_percentage analysis = round1 product
      /\ (Qabs (product - exact) <= 1 # 10 ^ 13)%Q
      /\ (exists k : Z,
             0 <= k <= 1000
             /\ match_percentage analysis = Float.nearest (inject_Z k / 10)
             /\ (Qabs (inject_Z k / 10 - product) <= 1 # 20)%Q
             /\ (Qabs (match_percentage analysis - inject_Z k / 10)
                 <= 1 # 2 ^ 47)%Q)
      /\ (Qabs (match_percentage analysis - exact)
          <= (1 # 20) + (2 # 10 ^ 13))%Q)
  /\ (0 <= match_percentage analysis)%Q
  /\ (match_percentage analysis <= 100)%Q.
Proof.
  intros analysis required matched exact product.
  assert (Hsize : (size matched <= size required)%nat).
  { apply subseteq_size, find_matches_subseteq. }
  assert (Hmp : match_percentage analysis
                = round1 (if 0 <? Z.of_nat (size required) then product else 100%Q))
    by reflexivity.
  assert (Hfloat : size required <> 0%nat ->
            (0 <= exact)%Q /\ (exact <= 100)%Q
            /\ (0 <= product)%Q /\ (product <= 100)%Q
            /\ (Qabs (product - exact) <= 1 # 10 ^ 13)%Q).
  { intros Hne.
    apply (float_percentage_spec (Z.of_nat (size matched))
                                 (Z.of_nat (size required))); lia. }
  split; [reflexivity|]. split; [|split].
  - intros Hz. rewrite Hmp, Hz. vm_compute. reflexivity.
  - intros Hne. destruct (Hfloat Hne) as (_ & _ & Hp0 & Hp1 & Herr).
    assert (Hpos : (0 <? Z.of_nat (size required)) = true)
      by (apply Z.ltb_lt; lia).
    rewrite Hmp, Hpos.
    destruct (round1_spec product Hp0 Hp1) as (Hk & Hr & Hk1 & _ & _ & Hk2).
    split; [done|]. split; [done|]. split.
    + exists (Float.round_half_even (product * 10)). done.
    + clear Hmp Hfloat Hr.
      set (result := round1 product) in *. clearbody result.
      set (tenths := (inject_Z (Float.round_half_even (product * 10)) / 10)%Q) in *.
      clearbody tenths. clearbody product exact.
      apply Qabs_Qle_condition in Herr as [He1 He2], Hk1 as [Ht1 Ht2],
        Hk2 as [Hr1 Hr2].
      assert (Hc2 : ((1 # 2 ^ 47) == 1 # 140737488355328)%Q) by reflexivity.
      assert (Hc3 : ((1 # 10 ^ 13) == 1 # 10000000000000)%Q) by reflexivity.
      rewrite Hc2 in Hr1, Hr2. rewrite Hc3 in He1, He2.
      assert (Hc4 : ((2 # 10 ^ 13) == 2 # 10000000000000)%Q) by reflexivity.
      apply Qabs_Qle_condition. rewrite Hc4. split; lra.
  - rewrite Hmp. destruct (Z.ltb_spec 0 (Z.of_nat (size required))) as [Hpos|Hz].
    + assert (Hne : size required <> 0%nat) by lia.
      destruct (Hfloat Hne) as (_ & _ & Hp0 & Hp1 & _).
      destruct (round1_spec product Hp0 Hp1) as (_ & _ & _ & ? & ? & _). done.
    + vm_compute. split; discriminate.
Qed.

End MatchPercentage.

Section MatchPercentageExamples.
Import Py PyStr SkillGapAnalyzer Examples.

Lemma C7_match_percentage_witness :
  match_percentage (analyze_gaps ratio_of_disjoint_strings cv_go job_go_c_r)
  = round1 (Float.nearest (Float.nearest (inject_Z 1 / inject_Z 3) * 100))
  /\ (Qabs (match_percentage
              (analyze_gaps ratio_of_disjoint_strings cv_go job_go_c_r)
            - 100 * inject_Z 1 / inject_Z 3) <= (1 # 20) + (2 # 10 ^ 13))%Q.
Proof.
  destruct (C7_match_percentage_is_rounded_ratio
              ratio_of_disjoint_strings cv_go job_go_c_r)
    as (_ & _ & H & _).
  destruct (H ltac:(vm_compute; discriminate)) as (H1 & _ & _ & H3).
  split; [exact H1|exact H3].
Defined.

(** One of three required skills is matched: the analysis reports the float
    33.3, which is not 100 * 1 / 3. *)
Lemma C7_exact_ratio_counterexample :
  let required := _normalize_skills (get_required_skill_names job_go_c_r) in
  let matched :=
    _find_matches ratio_of_disjoint_strings
                  (_normalize_skills (get_all_skill_names cv_go))
                  required default_threshold in
  size required = 3%nat
  /\ size matched = 1%nat
  /\ match_percentage (analyze_gaps ratio_of_disjoint_strings cv_go job_go_c_r)
     = Float.nearest (333 # 10)
  /\ ~ (match_percentage (analyze_gaps ratio_of_disjoint_strings cv_go job_go_c_r)
        == 100 * inject_Z 1 / inject_Z 3)%Q.
Proof.
  repeat split; try (vm_compute; reflexivity).
  vm_compute. discriminate.
Qed.

(** The float operations at 23 matched skills of 80: the product is the
    float just below 28.75, so that [round(., 1)] gives 28.7 where the
    exact ratio 28.75 would give 28.8; the result is then more than 0.05
    away from the exact ratio. *)
Lemma match_percentage_of_23_in_80 :
  let product := Float.nearest (Float.nearest (inject_Z 23 / inject_Z 80) * 100)%Q in
  (product < 115 # 4)%Q
  /\ round1 product = Float.nearest (287 # 10)
  /\ round1 (115 # 4) = Float.nearest (288 # 10)
  /\ (1 # 20 < Qabs (round1 product - (115 # 4)))%Q.
Proof. vm_compute. repeat split. Qed.

End MatchPercentageExamples.

(** ** The pipeline and the progress of its job *)

Section PipelineProperties.
Import Py Datetime JobManager ErrorHandler Workflow Backend.
Context `{Collaborators}.

Lemma read_job_update_job (now : datetime) (j : string) (kwargs : list kwarg)
    (m : JobManager.JobManager) :
  read_job j (update_job now j kwargs m) = update kwargs now <$> read_job j m.
Proof.
  unfold read_job, get_job, update_job, deref.
  destruct (_jobs m !! j) as [l|] eqn:Hj; simpl; rewrite Hj; simpl; [|done].
  apply lookup_alter_eq.
Qed.

Lemma read_job_present (m : JobManager.JobManager) (j : string) (l : loc)
    (job : JobState) :
  _jobs m !! j = Some l -> heap m !! l = Some job -> read_job j m = Some job.
Proof. intros Hj Hl. unfold read_job, get_job, deref. by rewrite Hj. Qed.

(** Every message produced by [format_error_for_user] starts with a fixed
    prefix. *)
Lemma format_error_for_user_nonempty (e : exn) : format_error_for_user e <> "".
Proof.
  unfold format_error_for_user.
  repeat (case_match; try discriminate).
Qed.


Local Arguments run_graph : simpl never.
Local Arguments str_truthy : simpl never.
Local Arguments update_job : simpl never.
Local Arguments set_failed : simpl never.
Local Arguments set_completed : simpl never.
Local Arguments JobManager.set_progress : simpl never.
Local Arguments set_processing : simpl never.
Local Arguments format_error_for_user : simpl never.

Lemma run_graph_node (limit : nat) (n : node) (s : WorkflowState) (w : World)
    (executed : list node) :
  n <> END ->
  run_graph (S limit) n s w executed
  = match run_node n s w with
    | (Raised e, w1) => (Raised e, w1, executed ++ [n])%list
    | (Returned s1, w1) =>
        run_graph limit (next_node n s1) s1 w1 (executed ++ [n])%list
    end.
Proof. by destruct n. Qed.

Lemma run_graph_END (limit : nat) (s : WorkflowState) (w : World)
    (executed : list node) :
  run_graph limit END s w executed = (Returned s, w, executed).
Proof. by destruct limit. Qed.

Ltac step_graph := rewrite run_graph_node by discriminate.

Opaque run_graph.

Lemma run_workflow_job_analysis_fails
    (path jd : string) (w w1 w2 : World) (cv : CVData) (e : exn) :
  str_truthy path = true ->
  cv_parser_parse_cv path w = (Returned cv, w1) ->
  job_analyzer_analyze_job jd w1 = (Raised e, w2) ->
  isinstance e Exception = true ->
  run_workflow (Some path) None jd w
  = (Returned (mkWorkflowState (Some path) None jd (Some cv) None None None None
                 [format_error_for_user e] "Error occurred" 0),
     w2, [parse_cv; analyze_job; error_handler]).
Proof.
  intros Hpath Hparse Hjob He.
  unfold run_workflow, invoke.
  step_graph. unfold run_node, parse_cv_node. simpl. rewrite Hpath, Hparse. simpl.
  step_graph. unfold run_node, analyze_job_node. simpl. rewrite Hjob.
  unfold except_Exception. rewrite He. reflexivity.
Qed.

Lemma run_workflow_succeeds
    (path jd : string) (w w1 w2 w3 w4 : World) (cv : CVData)
    (reqs : JobRequirements) (analysis : SkillMatchAnalysis)
    (res : RecommendationResult) :
  str_truthy path = true ->
  cv_parser_parse_cv path w = (Returned cv, w1) ->
  job_analyzer_analyze_job jd w1 = (Returned reqs, w2) ->
  skill_gap_analyzer_analyze_gaps cv reqs w2 = (Returned analysis, w3) ->
  project_recommender_generate_recommendations cv reqs w3 = (Returned res, w4) ->
  run_workflow (Some path) None jd w
  = (Returned (mkWorkflowState (Some path) None jd (Some cv) (Some reqs)
                 (Some analysis) (Some (get_skill_gap_recommendations res))
                 (Some res) [] "Complete!" 100),
     w4, [parse_cv; analyze_job; identify_gaps; generate_recommendations]).
Proof.
  intros Hpath Hparse Hjob Hgaps Hgen.
  unfold run_workflow, invoke.
  step_graph. unfold run_node, parse_cv_node. simpl. rewrite Hpath, Hparse. simpl.
  step_graph. unfold run_node, analyze_job_node. simpl. rewrite Hjob. simpl.
  step_graph. unfold run_node, identify_gaps_node. simpl. rewrite Hgaps. simpl.
  step_graph. unfold run_node, generate_recommendations_node. simpl.
  rewrite Hgen. reflexivity.
Qed.


Lemma not_In_snoc (n : node) (executed : list node) :
  n <> error_handler -> ~ In error_handler executed ->
  ~ In error_handler (executed ++ [n]).
Proof.
  intros Hn Hex Hin. apply in_app_or in Hin as [Hin|[Hin|[]]]; [done|].
  by apply Hn.
Qed.

(** Once a stage has recorded an error the run goes through the error
    handler and stops. *)
Lemma error_path (limit : nat) (n : node) (s1 : WorkflowState) (w1 : World)
    (executed : list node) (msg : string) :
  is_stage n -> errors s1 = [msg] ->
  ends_well (run_graph (S limit) (next_node n s1) s1 w1 executed).
Proof.
  intros [Hn1 Hn2] Herr.
  assert (next_node n s1 = error_handler) as ->.
  { unfold next_node, should_continue. rewrite Herr. by destruct n. }
  step_graph. unfold run_node, error_handler_node, next_node.
  rewrite run_graph_END. left. exists msg. simpl.
  split; [done|]. split; [|done].
  apply in_or_app. right. by left.
Qed.

(** The [except] clause of a stage: the error is recorded and the run goes
    to the error handler, or the exception escapes. *)
Lemma except_path (limit : nat) (n : node) (s : WorkflowState) (w : World)
    (e : exn) (executed : list node) :
  is_stage n -> errors s = [] -> ~ In error_handler executed ->
  ends_well
    (match except_Exception e s w with
     | (Raised e', w1) => (Raised e', w1, executed ++ [n])%list
     | (Returned s1, w1) =>
         run_graph (S limit) (next_node n s1) s1 w1 (executed ++ [n])%list
     end).
Proof.
  intros Hn Herr Hex. unfold except_Exception.
  destruct (isinstance e Exception) eqn:He.
  - apply (error_path limit n _ w _ (format_error_for_user e) Hn).
    simpl. by rewrite Herr.
  - split; [done|]. apply not_In_snoc; [apply Hn|done].
Qed.

Lemma generate_recommendations_cases (limit : nat) (s : WorkflowState) (w : World)
    (executed : list node) :
  errors s = [] -> ~ In error_handler executed ->
  ends_well (run_graph (S (S limit)) generate_recommendations s w executed).
Proof.
  intros Herr Hex. step_graph. unfold run_node, generate_recommendations_node.
  cbn -[next_node].
  destruct (cv_data s) as [cv|];
    [destruct (job_requirements s) as [reqs|]|];
    try (apply except_path; [split|simpl|]; done).
  destruct (project_recommender_generate_recommendations cv reqs w)
    as [[res|e] w1].
  - unfold next_node, should_continue. simpl. rewrite Herr.
    rewrite run_graph_END. right. simpl. rewrite Herr.
    split; [done|]. split; [by apply not_In_snoc|]. repeat split; eauto.
  - apply except_path; [split|simpl|]; done.
Qed.

Lemma identify_gaps_cases (limit : nat) (s : WorkflowState) (w : World)
    (executed : list node) :
  errors s = [] -> recommendation_result s = None ->
  ~ In error_handler executed ->
  ends_well (run_graph (S (S (S limit))) identify_gaps s w executed).
Proof.
  intros Herr Hrec Hex. step_graph. unfold run_node, identify_gaps_node.
  cbn -[next_node].
  destruct (cv_data s) as [cv|];
    [destruct (job_requirements s) as [reqs|]|];
    try (apply except_path; [split|simpl|]; done).
  destruct (skill_gap_analyzer_analyze_gaps cv reqs w) as [[analysis|e] w1].
  - unfold next_node, should_continue. simpl. rewrite Herr, Hrec.
    apply generate_recommendations_cases; [done|by apply not_In_snoc].
  - apply except_path; [split|simpl|]; done.
Qed.

Lemma analyze_job_cases (limit : nat) (s : WorkflowState) (w : World)
    (executed : list node) :
  errors s = [] -> recommendation_result s = None ->
  ~ In error_handler executed ->
  ends_well (run_graph (S (S (S (S limit)))) analyze_job s w executed).
Proof.
  intros Herr Hrec Hex. step_graph. unfold run_node, analyze_job_node.
  cbn -[next_node].
  destruct (job_analyzer_analyze_job (job_description s) w) as [[reqs|e] w1].
  - unfold next_node, should_continue. simpl. rewrite Herr, Hrec.
    apply identify_gaps_cases; [done|done|by apply not_In_snoc].
  - apply except_path; [split|simpl|]; done.
Qed.

Lemma parse_cv_cases (limit : nat) (s : WorkflowState) (w : World)
    (executed : list node) :
  errors s = [] -> recommendation_result s = None ->
  ~ In error_handler executed ->
  ends_well (run_graph (S (S (S (S (S limit))))) parse_cv s w executed).
Proof.
  intros Herr Hrec Hex. step_graph. unfold run_node, parse_cv_node.
  cbn -[next_node].
  set (parsed := if opt_str_truthy (cv_file_path s) then _ else _).
  destruct parsed as [[cv|e] w1].
  - unfold next_node, should_continue. simpl. rewrite Herr, Hrec.
    apply analyze_job_cases; [done|done|by apply not_In_snoc].
  - apply except_path; [split|simpl|]; done.
Qed.

(** Every run of the workflow ends in one of three ways: through the error
    handler, with one error recorded and the progress reset to 0; after the
    last stage, with no error, a recommendation result and progress 100; or
    with an exception that is not an [Exception] and that no node catches. *)
Lemma run_workflow_cases (path : option string) (jd : string) (w : World) :
  ends_well (run_workflow path None jd w).
Proof.
  unfold run_workflow, invoke.
  set (initial_state := mkWorkflowState _ _ _ _ _ _ _ _ _ _ _).
  pose proof (parse_cv_cases 20 initial_state w [] eq_refl eq_refl
                ltac:(simpl; tauto)) as Hrun.
  destruct (run_graph 25 parse_cv initial_state w []) as [[[final|e] w1] executed].
  - done.
  - destruct Hrun as [He Hex]. by rewrite He.
Qed.

Opaque update_job.

(** C6.  Let the job be in the store and the CV be parsed successfully.
    - If the job analysis raises an error (which the node appends to the
      error list), then the nodes run are [parse_cv], [analyze_job] and
      [error_handler]: gap analysis and recommendation generation are not
      executed, and the job ends FAILED with the formatted message, a
      non-empty string, as its error.
    - If the job analysis, the gap analysis and the recommendation
      generation succeed, then the four stages run in order and the job ends
      COMPLETED with progress 100 and the dumped recommendation result. *)
Theorem C6_stage_failure_skips_later_stages_and_success_completes
    (m : JobManager.JobManager) (j : string) (l : loc) (job : JobState)
    (path jd : string) (w w1 : World) (cv : CVData) :
  _jobs m !! j = Some l ->
  heap m !! l = Some job ->
  str_truthy path = true ->
  cv_parser_parse_cv path w = (Returned cv, w1) ->
  (forall e w2,
      job_analyzer_analyze_job jd w1 = (Raised e, w2) ->
      isinstance e Exception = true ->
      let r := process_cv_analysis j (Some path) jd m w in
      executed_nodes r = [parse_cv; analyze_job; error_handler]
      /\ final_world r = w2
      /\ task_outcome r = Returned tt
      /\ exists job',
          read_job j (final_manager m r) = Some job'
          /\ status job' = FAILED
          /\ error job' = Some (format_error_for_user e)
          /\ format_error_for_user e <> "")
  /\ (forall reqs w2 analysis w3 res w4,
        job_analyzer_analyze_job jd w1 = (Returned reqs, w2) ->
        skill_gap_analyzer_analyze_gaps cv reqs w2 = (Returned analysis, w3) ->
        project_recommender_generate_recommendations cv reqs w3 = (Returned res, w4) ->
        let r := process_cv_analysis j (Some path) jd m w in
        executed_nodes r
        = [parse_cv; analyze_job; identify_gaps; generate_recommendations]
        /\ final_world r = w4
        /\ task_outcome r = Returned tt
        /\ exists job',
            read_job j (final_manager m r) = Some job'
            /\ status job' = COMPLETED
            /\ JobManager.progress_percentage job' = 100
            /\ result job' = model_dump res
            /\ error job' = error job).
Proof.
  intros Hj Hl Hpath Hparse.
  pose proof (read_job_present m j l job Hj Hl) as Hread.
  split.
  - intros e w2 Hjob He r. subst r.
    unfold process_cv_analysis, str_truthy.
    rewrite (run_workflow_job_analysis_fails path jd w w1 w2 cv e) by done.
    cbn -[format_error_for_user read_job].
    split; [done|]. split; [done|]. split; [done|].
    eexists. split.
    { unfold final_manager. cbn -[format_error_for_user read_job].
      unfold set_failed, JobManager.set_progress, set_processing.
      rewrite !read_job_update_job, Hread. reflexivity. }
    cbn -[format_error_for_user read_job]. repeat split.
    apply format_error_for_user_nonempty.
  - intros reqs w2 analysis w3 res w4 Hjob Hgaps Hgen r. subst r.
    unfold process_cv_analysis, str_truthy.
    rewrite (run_workflow_succeeds path jd w w1 w2 w3 w4 cv reqs analysis res)
      by done.
    cbn -[read_job].
    split; [done|]. split; [done|]. split; [done|].
    eexists. split.
    { unfold final_manager. cbn -[read_job].
      unfold set_completed, JobManager.set_progress, set_processing.
      rewrite !read_job_update_job, Hread. reflexivity. }
    cbn -[read_job]. repeat split.
Qed.

(** C1, as the code has it.  For a job whose progress is 0 when the task
    starts:
    - on a run that does not enter the error handler the progress values a
      reader can observe are non-decreasing: 0, 0, 10, 100, 100 when the
      task returns (the job ends COMPLETED), and 0, 0, 10 when an exception
      that is not an [Exception] escapes;
    - on a run that enters the error handler the handler resets the
      progress of the workflow to 0, the task writes it to the job and then
      marks the job FAILED: the observed values are 0, 0, 10, 0, 0, which is
      not a non-decreasing sequence, and the value 0 is already visible
      while the status is still PROCESSING. *)
Theorem C1_progress_is_monotone_unless_the_run_fails
    (m : JobManager.JobManager) (j : string) (l : loc) (job : JobState)
    (path : option string) (jd : string) (w : World) :
  _jobs m !! j = Some l ->
  heap m !! l = Some job ->
  JobManager.progress_percentage job = 0 ->
  let r := process_cv_analysis j path jd m w in
  (In error_handler (executed_nodes r) ->
   observed_progress j m r = [Some 0; Some 0; Some 10; Some 0; Some 0]
   /\ observed_status j m r
      = [Some (status job); Some PROCESSING; Some PROCESSING; Some PROCESSING;
         Some FAILED]
   /\ ~ non_decreasing (observed_progress j m r))
  /\ (~ In error_handler (executed_nodes r) ->
      non_decreasing (observed_progress j m r)
      /\ ((task_outcome r = Returned tt
           /\ observed_progress j m r
              = [Some 0; Some 0; Some 10; Some 100; Some 100]
           /\ observed_status j m r
              = [Some (status job); Some PROCESSING; Some PROCESSING;
                 Some PROCESSING; Some COMPLETED])
          \/ ((exists e, task_outcome r = Raised e)
              /\ observed_progress j m r = [Some 0; Some 0; Some 10]))).
Proof.
  intros Hj Hl Hp0 r.
  pose proof (read_job_present m j l job Hj Hl) as Hread.
  assert (Hdrop : ~ non_decreasing [Some 0; Some 0; Some 10; Some 0; Some 0]).
  { intros Hnd. specialize (Hnd 2%nat 10 0 eq_refl eq_refl). lia. }
  assert (Hup : non_decreasing [Some 0; Some 0; Some 10; Some 100; Some 100]).
  { intros [|[|[|[|[|i]]]]] a b; simpl; intros [= <-] [= <-]; lia. }
  assert (Hshort : non_decreasing [Some 0; Some 0; Some 10]).
  { intros [|[|[|i]]] a b; simpl; intros [= <-] [= <-]; lia. }
  pose proof (run_workflow_cases path jd w) as Hrun.
  subst r. unfold process_cv_analysis, str_truthy.
  destruct (run_workflow path None jd w) as [[[final|e] w1] executed].
  - destruct Hrun as [(msg & Herr & Hin & Hprog & Hstep)
                      |(Herr & Hnin & Hprog & Hstep & [res Hres])].
    + rewrite Herr, Hprog, Hstep.
      cbn -[read_job observed_progress observed_status].
      match goal with
      | |- context [observed_progress j m ?R] =>
          assert (Hobs : observed_progress j m R
                         = [Some 0; Some 0; Some 10; Some 0; Some 0])
      end.
      { unfold observed_progress. cbn -[read_job].
        unfold set_failed, JobManager.set_progress, set_processing.
        rewrite !read_job_update_job, Hread. cbn. by rewrite Hp0. }
      split.
      * intros _. rewrite Hobs. split; [done|]. split; [|done].
        unfold observed_status. cbn -[read_job].
        unfold set_failed, JobManager.set_progress, set_processing.
        rewrite !read_job_update_job, Hread. reflexivity.
      * intros Hnin. done.
    + rewrite Herr, Hprog, Hstep, Hres.
      cbn -[read_job observed_progress observed_status].
      split; [intros Hin; done|]. intros _.
      match goal with
      | |- context [observed_progress j m ?R] =>
          assert (Hobs : observed_progress j m R
                         = [Some 0; Some 0; Some 10; Some 100; Some 100])
      end.
      { unfold observed_progress. cbn -[read_job].
        unfold set_completed, JobManager.set_progress, set_processing.
        rewrite !read_job_update_job, Hread. cbn. by rewrite Hp0. }
      rewrite Hobs. split; [done|]. left. split; [done|]. split; [done|].
      unfold observed_status. cbn -[read_job].
      unfold set_completed, JobManager.set_progress, set_processing.
      rewrite !read_job_update_job, Hread. reflexivity.
  - destruct Hrun as [He Hnin]. rewrite He.
    cbn -[read_job observed_progress observed_status].
    split; [intros Hin; done|]. intros _.
    match goal with
    | |- context [observed_progress j m ?R] =>
        assert (Hobs : observed_progress j m R = [Some 0; Some 0; Some 10])
    end.
    { unfold observed_progress. cbn -[read_job].
      unfold JobManager.set_progress, set_processing.
      rewrite !read_job_update_job, Hread. cbn. by rewrite Hp0. }
    rewrite Hobs. split; [done|]. right. split; [by exists e|done].
Qed.

Transparent update_job run_graph.

End PipelineProperties.

Section PipelineExamples.
Import Py Datetime JobManager ErrorHandler Workflow Backend Examples.

Lemma C6_pipeline_witness :
  (executed_nodes failing_run = [parse_cv; analyze_job; error_handler]
   /\ final_world failing_run = 2%nat
   /\ task_outcome failing_run = Returned tt
   /\ exists job',
       read_job "job-1" (final_manager pending_example failing_run) = Some job'
       /\ status job' = FAILED
       /\ error job' = Some (format_error_for_user job_analysis_error)
       /\ format_error_for_user job_analysis_error <> "")
  /\ (executed_nodes successful_run
      = [parse_cv; analyze_job; identify_gaps; generate_recommendations]
      /\ final_world successful_run = 4%nat
      /\ task_outcome successful_run = Returned tt
      /\ exists job',
          read_job "job-1" (final_manager pending_example successful_run)
          = Some job'
          /\ status job' = COMPLETED
          /\ JobManager.progress_percentage job' = 100
          /\ result job' = PyObject "recommendations"
          /\ error job' = None).
Proof.
  split.
  - apply (proj1 (@C6_stage_failure_skips_later_stages_and_success_completes
                    failing_job_analysis pending_example "job-1" 1%positive
                    pending_example_job "/tmp/cv.pdf" "Python developer"
                    0%nat 1%nat "cv"
                    ltac:(vm_compute; reflexivity) ltac:(vm_compute; reflexivity)
                    eq_refl eq_refl)
             job_analysis_error 2%nat eq_refl eq_refl).
  - apply (proj2 (@C6_stage_failure_skips_later_stages_and_success_completes
                    all_agents_succeed pending_example "job-1" 1%positive
                    pending_example_job "/tmp/cv.pdf" "Python developer"
                    0%nat 1%nat "cv"
                    ltac:(vm_compute; reflexivity) ltac:(vm_compute; reflexivity)
                    eq_refl eq_refl)
             "requirements" 2%nat "analysis" 3%nat "recommendations" 4%nat
             eq_refl eq_refl eq_refl).
Defined.

Lemma C1_progress_witness :
  (observed_progress "job-1" pending_example failing_run
   = [Some 0; Some 0; Some 10; Some 0; Some 0])
  /\ non_decreasing (observed_progress "job-1" pending_example successful_run).
Proof.
  split.
  - apply (proj1 (@C1_progress_is_monotone_unless_the_run_fails
                    failing_job_analysis pending_example "job-1" 1%positive
                    pending_example_job (Some "/tmp/cv.pdf") "Python developer"
                    0%nat
                    ltac:(vm_compute; reflexivity) ltac:(vm_compute; reflexivity)
                    eq_refl)).
    vm_compute. auto.
  - apply (proj2 (@C1_progress_is_monotone_unless_the_run_fails
                    all_agents_succeed pending_example "job-1" 1%positive
                    pending_example_job (Some "/tmp/cv.pdf") "Python developer"
                    0%nat
                    ltac:(vm_compute; reflexivity) ltac:(vm_compute; reflexivity)
                    eq_refl)).
    vm_compute. intuition discriminate.
Defined.

(** A run whose job analysis fails: readers see the progress 0, 0, 10, 0, 0,
    the fourth value while the job is still PROCESSING. *)
Lemma C1_progress_drop_counterexample :
  observed_progress "job-1" pending_example failing_run
  = [Some 0; Some 0; Some 10; Some 0; Some 0]
  /\ observed_status "job-1" pending_example failing_run
     = [Some PENDING; Some PROCESSING; Some PROCESSING; Some PROCESSING;
        Some FAILED]
  /\ ~ non_decreasing (observed_progress "job-1" pending_example failing_run).
Proof.
  assert (Hobs : observed_progress "job-1" pending_example failing_run
                 = [Some 0; Some 0; Some 10; Some 0; Some 0]).
  { vm_compute. reflexivity. }
  split; [done|]. split; [vm_compute; reflexivity|].
  rewrite Hobs. intros Hnd. specialize (Hnd 2%nat 10 0 eq_refl eq_refl). lia.
Qed.

End PipelineExamples.

(** ** The job store: creation, updates, deletion *)

Section JobStoreOperations.
Import Py Datetime JobManager Examples.

Lemma fresh_loc_unused (m : JobManager.JobManager) :
  heap m !! fresh (dom (heap m)) = None.
Proof. apply not_elem_of_dom. apply is_fresh. Qed.

Lemma store_ok_create_job (uuid : string) (c u : datetime) (m : JobManager.JobManager) :
  store_ok m -> store_ok (create_job uuid c u m).2.
Proof.
  intros [Halloc Hinj]. pose proof (fresh_loc_unused m) as Hfresh.
  unfold create_job. simpl. split; simpl.
  - intros j l Hj. destruct (decide (uuid = j)) as [Heq|Hne]; [subst j|].
    + rewrite lookup_insert_eq in Hj. inversion Hj; subst.
      rewrite lookup_insert_eq. eauto.
    + rewrite lookup_insert_ne in Hj by done.
      destruct (Halloc j l Hj) as [job Hl].
      rewrite lookup_insert_ne; [eauto|]. intros <-. congruence.
  - intros j1 j2 l H1 H2.
    destruct (decide (uuid = j1)) as [Heq1|Hne1]; [subst j1|];
      (destruct (decide (uuid = j2)) as [Heq2|Hne2]; [subst j2|]); try done.
    + rewrite lookup_insert_eq in H1. rewrite lookup_insert_ne in H2 by done.
      inversion H1; subst. destruct (Halloc j2 _ H2) as [job Hl]. congruence.
    + rewrite lookup_insert_eq in H2. rewrite lookup_insert_ne in H1 by done.
      inversion H2; subst. destruct (Halloc j1 _ H1) as [job Hl]. congruence.
    + rewrite lookup_insert_ne in H1, H2 by done. eauto.
Qed.

Lemma store_ok_update_job (now : datetime) (j : string) (kwargs : list kwarg)
    (m : JobManager.JobManager) :
  store_ok m -> store_ok (update_job now j kwargs m).
Proof.
  intros [Halloc Hinj]. unfold update_job.
  destruct (_jobs m !! j) as [l|] eqn:Hj; [|done].
  split; simpl; [|done].
  intros j' l' Hj'. destruct (Halloc j' l' Hj') as [job Hl].
  destruct (decide (l = l')) as [->|Hne].
  - rewrite lookup_alter_eq, Hl. simpl. eauto.
  - rewrite lookup_alter_ne by done. eauto.
Qed.

Lemma store_ok_delete_job (j : string) (m : JobManager.JobManager) :
  store_ok m -> store_ok (delete_job j m).2.
Proof.
  intros [Halloc Hinj]. unfold delete_job.
  destruct (_jobs m !! j) as [l|] eqn:Hj; [|done].
  split; simpl.
  - intros j' l' Hj'. apply lookup_delete_Some in Hj' as [_ Hj']. eauto.
  - intros j1 j2 l' H1 H2.
    apply lookup_delete_Some in H1 as [_ H1], H2 as [_ H2]. eauto.
Qed.

Lemma cleanup_jobs_subset (now : datetime) (m : JobManager.JobManager)
    (j : string) (l : loc) :
  _jobs (_cleanup_old_jobs now m).2 !! j = Some l -> _jobs m !! j = Some l.
Proof.
  unfold _cleanup_old_jobs.
  destruct (timedelta_seconds _) as [delta|]; [|done].
  destruct (sub now delta) as [cutoff|]; [|done].
  simpl. rewrite lookup_delete_all. by case_decide.
Qed.

Lemma store_ok_cleanup (now : datetime) (m : JobManager.JobManager) :
  store_ok m -> store_ok (_cleanup_old_jobs now m).2.
Proof.
  intros [Halloc Hinj]. split.
  - intros j l Hj. rewrite cleanup_heap. apply cleanup_jobs_subset in Hj. eauto.
  - intros j1 j2 l H1 H2. apply cleanup_jobs_subset in H1, H2. eauto.
Qed.

(** X1.  The job manager never stores one [JobState] object under two job
    ids and never keeps an id whose object is missing: this holds for the
    empty manager and is kept by [create_job], [update_job], [delete_job] and
    [_cleanup_old_jobs]. *)
Theorem X1_job_objects_are_never_shared
    (m : JobManager.JobManager) (retention : Z) (uuid j : string)
    (now c u : datetime) (kwargs : list kwarg) :
  store_ok (__init__ retention)
  /\ (store_ok m ->
      store_ok (create_job uuid c u m).2
      /\ store_ok (update_job now j kwargs m)
      /\ store_ok (delete_job j m).2
      /\ store_ok (_cleanup_old_jobs now m).2).
Proof.
  split.
  - split; intros *; unfold __init__; simpl; by rewrite lookup_empty.
  - intros Hok. split; [by apply store_ok_create_job|].
    split; [by apply store_ok_update_job|].
    split; [by apply store_ok_delete_job|by apply store_ok_cleanup].
Qed.

Lemma X1_job_objects_witness :
  store_ok (create_job "job-2" 5 5 pending_example).2
  /\ store_ok (update_job 7 "job-1" [kw_status PROCESSING] pending_example)
  /\ store_ok (delete_job "job-1" pending_example).2
  /\ store_ok (_cleanup_old_jobs 7 pending_example).2.
Proof.
  apply (proj2 (X1_job_objects_are_never_shared
                  pending_example 3600 "job-2" "job-1" 7 5 5
                  [kw_status PROCESSING])).
  apply (store_ok_create_job "job-1" 1000 1000 (__init__ 3600)).
  split; intros *; unfold __init__; simpl; by rewrite lookup_empty.
Defined.

(** X2.  In a well-formed store, [create_job] makes the new id readable as a
    PENDING job with progress 0, step "Initializing...", no result and no
    error, and leaves the reading of every other id as it was. *)
Theorem X2_create_job_then_read
    (uuid : string) (c u : datetime) (m : JobManager.JobManager) :
  store_ok m ->
  (create_job uuid c u m).1 = uuid
  /\ read_job uuid (create_job uuid c u m).2
     = Some (mkJobState uuid PENDING 0 "Initializing..." PyNone None c u)
  /\ forall j, j <> uuid ->
       read_job j (create_job uuid c u m).2 = read_job j m.
Proof.
  intros [Halloc _]. pose proof (fresh_loc_unused m) as Hfresh.
  split; [done|]. split.
  - unfold read_job, get_job, deref, create_job. simpl.
    rewrite lookup_insert_eq. simpl. by rewrite lookup_insert_eq.
  - intros j Hne. unfold read_job, get_job, deref, create_job. simpl.
    rewrite lookup_insert_ne by done.
    destruct (_jobs m !! j) as [l|] eqn:Hj; simpl; [|done].
    destruct (Halloc j l Hj) as [job Hl].
    rewrite lookup_insert_ne; [done|]. intros <-. congruence.
Qed.

Lemma X2_create_job_witness :
  read_job "job-2" (create_job "job-2" 5 6 pending_example).2
  = Some (mkJobState "job-2" PENDING 0 "Initializing..." PyNone None 5 6)
  /\ read_job "job-1" (create_job "job-2" 5 6 pending_example).2
     = read_job "job-1" pending_example.
Proof.
  destruct (X2_create_job_then_read "job-2" 5 6 pending_example) as (_ & H1 & H2).
  { apply (store_ok_create_job "job-1" 1000 1000 (__init__ 3600)).
    split; intros *; unfold __init__; simpl; by rewrite lookup_empty. }
  split; [exact H1|]. apply H2. discriminate.
Defined.

End JobStoreOperations.

Section JobStoreUpdates.
Import Py Datetime JobManager Examples.

Lemma read_job_create_job (uuid : string) (c u : datetime) (m : JobManager.JobManager) :
  read_job uuid (create_job uuid c u m).2
  = Some (mkJobState uuid PENDING 0 "Initializing..." PyNone None c u).
Proof.
  unfold read_job, get_job, deref, create_job. simpl.
  rewrite lookup_insert_eq. simpl. by rewrite lookup_insert_eq.
Qed.

Lemma read_job_update_other (now : datetime) (j j' : string) (kwargs : list kwarg)
    (m : JobManager.JobManager) :
  store_ok m -> j' <> j ->
  read_job j' (update_job now j kwargs m) = read_job j' m.
Proof.
  intros [_ Hinj] Hne. unfold read_job, get_job, deref, update_job.
  destruct (_jobs m !! j) as [l|] eqn:Hj; [|done]. simpl.
  destruct (_jobs m !! j') as [l'|] eqn:Hj'; simpl; [|done].
  apply lookup_alter_ne. intros ->. apply Hne. by apply (Hinj j' j l').
Qed.

Lemma read_job_updated (now : datetime) (j : string) (kwargs : list kwarg)
    (m : JobManager.JobManager) :
  read_job j (update_job now j kwargs m) = update kwargs now <$> read_job j m.
Proof.
  unfold read_job, get_job, update_job, deref.
  destruct (_jobs m !! j) as [l|] eqn:Hj; simpl; rewrite Hj; simpl; [|done].
  apply lookup_alter_eq.
Qed.

(** X3.  In a well-formed store [update_job] changes the job it names, by
    [JobState.update], and nothing else: every other id reads as before,
    the set of ids is unchanged, and for an id that is not in the store the
    call changes nothing at all. *)
Theorem X3_update_job_touches_only_its_job
    (now : datetime) (j : string) (kwargs : list kwarg) (m : JobManager.JobManager) :
  store_ok m ->
  read_job j (update_job now j kwargs m) = update kwargs now <$> read_job j m
  /\ (forall j', j' <> j -> read_job j' (update_job now j kwargs m) = read_job j' m)
  /\ get_all_jobs (update_job now j kwargs m) = get_all_jobs m
  /\ (get_job j m = None -> update_job now j kwargs m = m).
Proof.
  intros Hok. split; [apply read_job_updated|].
  split; [intros j' Hne; by apply read_job_update_other|].
  unfold get_all_jobs, get_job, update_job.
  destruct (_jobs m !! j); split; done.
Qed.

Lemma X3_update_job_witness :
  read_job "job-1"
    (update_job 9 "job-2" [kw_status FAILED] (create_job "job-2" 5 6 pending_example).2)
  = read_job "job-1" (create_job "job-2" 5 6 pending_example).2.
Proof.
  apply (X3_update_job_touches_only_its_job
           9 "job-2" [kw_status FAILED] (create_job "job-2" 5 6 pending_example).2).
  - apply store_ok_create_job.
    apply (store_ok_create_job "job-1" 1000 1000 (__init__ 3600)).
    split; intros *; unfold __init__; simpl; by rewrite lookup_empty.
  - discriminate.
Defined.

(** X4.  [set_progress] stores the percentage clamped to the interval from
    0 to 100 (the value itself when it lies inside), sets the step and
    refreshes [updated_at]; status, result, error, id and creation time of
    the job are kept. *)
Theorem X4_set_progress_clamps
    (now : datetime) (j : string) (percentage : Z) (step : string)
    (m : JobManager.JobManager) (job : JobState) :
  read_job j m = Some job ->
  exists job',
    read_job j (JobManager.set_progress now j percentage step m) = Some job'
    /\ 0 <= progress_percentage job' <= 100
    /\ (0 <= percentage <= 100 -> progress_percentage job' = percentage)
    /\ (percentage < 0 -> progress_percentage job' = 0)
    /\ (100 < percentage -> progress_percentage job' = 100)
    /\ current_step job' = step
    /\ updated_at job' = now
    /\ status job' = status job
    /\ result job' = result job
    /\ error job' = error job
    /\ job_id job' = job_id job
    /\ created_at job' = created_at job.
Proof.
  intros Hread. eexists. split.
  { unfold JobManager.set_progress. rewrite read_job_updated, Hread. reflexivity. }
  simpl. repeat split; try lia.
Qed.

Lemma X4_set_progress_witness :
  exists job',
    read_job "job-1" (JobManager.set_progress 9 "job-1" 250 "Working" pending_example)
    = Some job'
    /\ progress_percentage job' = 100.
Proof.
  destruct (X4_set_progress_clamps 9 "job-1" 250 "Working" pending_example
              pending_example_job ltac:(vm_compute; reflexivity))
    as (job' & Hread & _ & _ & _ & Hhigh & _).
  exists job'. split; [exact Hread|]. apply Hhigh. lia.
Defined.

(** X5.  [delete_job] returns [True] exactly when the id is in the store;
    afterwards the id is not found, the other ids are found as before, and
    deleting the same id again returns [False] and changes nothing. *)
Theorem X5_delete_job_removes_once (j : string) (m : JobManager.JobManager) :
  ((delete_job j m).1 = true <-> is_Some (get_job j m))
  /\ get_job j (delete_job j m).2 = None
  /\ (forall j', j' <> j -> get_job j' (delete_job j m).2 = get_job j' m)
  /\ heap (delete_job j m).2 = heap m
  /\ delete_job j (delete_job j m).2 = (false, (delete_job j m).2).
Proof.
  assert (Hgone : get_job j (delete_job j m).2 = None).
  { unfold get_job, delete_job. destruct (_jobs m !! j) eqn:Hj; simpl.
    - apply lookup_delete_eq.
    - done. }
  split; [|split; [done|split; [|split]]].
  - unfold get_job, delete_job. destruct (_jobs m !! j); simpl.
    + split; eauto.
    + split; [done|]. intros [? ?]. done.
  - intros j' Hne. unfold get_job, delete_job.
    destruct (_jobs m !! j); simpl; [|done]. by apply lookup_delete_ne.
  - unfold delete_job. by destruct (_jobs m !! j).
  - unfold get_job in Hgone. unfold delete_job at 1. by rewrite Hgone.
Qed.

Lemma job_manager_eq (a b : JobManager.JobManager) :
  heap a = heap b -> _jobs a = _jobs b ->
  _retention_seconds a = _retention_seconds b -> a = b.
Proof. destruct a, b. simpl. congruence. Qed.

(** X6.  Sweeping twice at the same instant is the same as sweeping once:
    the second pass of [_cleanup_old_jobs] has the same outcome and removes
    nothing more. *)
Theorem X6_cleanup_is_idempotent (now : datetime) (m : JobManager.JobManager) :
  _cleanup_old_jobs now (_cleanup_old_jobs now m).2 = _cleanup_old_jobs now m.
Proof.
  destruct (timedelta_seconds (_retention_seconds m)) as [delta|e] eqn:Htd.
  - destruct (sub now delta) as [cutoff|e] eqn:Hsub.
    + set (m' := (_cleanup_old_jobs now m).2).
      assert (Hm' : _cleanup_old_jobs now m = (Returned tt, m')).
      { subst m'. unfold _cleanup_old_jobs. by rewrite Htd, Hsub. }
      assert (Hret : _retention_seconds m' = _retention_seconds m).
      { subst m'. unfold _cleanup_old_jobs. by rewrite Htd, Hsub. }
      assert (Hheap : heap m' = heap m) by apply cleanup_heap.
      assert (Hjobs : _jobs (_cleanup_old_jobs now m').2 = _jobs m').
      { apply map_eq. intros k.
        rewrite (cleanup_lookup now m' delta cutoff k) by (by rewrite ?Hret).
        destruct (_jobs m' !! k) as [l|] eqn:Hk; [|done].
        subst m'. rewrite (cleanup_lookup now m delta cutoff k Htd Hsub) in Hk.
        destruct (_jobs m !! k) as [l0|]; [|done].
        destruct (to_remove m cutoff (k, l0)) eqn:Hrm; [done|].
        inversion Hk; subst l0.
        unfold to_remove, deref in *. simpl in *. rewrite Hheap. by rewrite Hrm. }
      rewrite Hm'.
      assert (H2 : _cleanup_old_jobs now m'
                   = (Returned tt, (_cleanup_old_jobs now m').2)).
      { unfold _cleanup_old_jobs. by rewrite Hret, Htd, Hsub. }
      rewrite H2. f_equal. apply job_manager_eq.
      * apply cleanup_heap.
      * exact Hjobs.
      * unfold _cleanup_old_jobs. rewrite Hret, Htd, Hsub. done.
    + assert (Hm : _cleanup_old_jobs now m = (Raised e, m)).
      { unfold _cleanup_old_jobs. by rewrite Htd, Hsub. }
      by rewrite !Hm.
  - assert (Hm : _cleanup_old_jobs now m = (Raised e, m)).
    { unfold _cleanup_old_jobs. by rewrite Htd. }
    by rewrite !Hm.
Qed.

(** X7.  The life of a job: after [create_job], [set_processing],
    [set_progress] and [set_completed] the job reads COMPLETED with progress
    100, step "Completed", the given result and no error; after
    [set_failed] instead of [set_completed] it reads FAILED with the given
    error, no result, and the clamped progress it had reached.  The id and
    the creation time are those of the creation. *)
Theorem X7_job_lifecycle
    (uuid step : string) (c u t1 t2 t3 : datetime) (p : Z) (res : pyval)
    (err : string) (m : JobManager.JobManager) :
  let m1 := (create_job uuid c u m).2 in
  let m2 := set_processing t1 uuid step m1 in
  let m3 := JobManager.set_progress t2 uuid p step m2 in
  read_job uuid m2
  = Some (mkJobState uuid PROCESSING 0 step PyNone None c t1)
  /\ read_job uuid (set_completed t3 uuid res m3)
     = Some (mkJobState uuid COMPLETED 100 "Completed" res None c t3)
  /\ read_job uuid (set_failed t3 uuid err m3)
     = Some (mkJobState uuid FAILED (Z.min 100 (Z.max 0 p)) "Failed" PyNone
                        (Some err) c t3).
Proof.
  intros m1 m2 m3. subst m1 m2 m3.
  unfold set_completed, set_failed, JobManager.set_progress, set_processing.
  rewrite !read_job_updated, read_job_create_job. done.
Qed.

End JobStoreUpdates.

(** ** The token bucket over time *)

Section TokenBucketProperties.
Import Py Time RateLimiter Examples.

Lemma py_min_full (a x : Q) : (a <= x)%Q -> py_min a x = a.
Proof.
  intros Hle. unfold py_min. destruct (Qltb x a) eqn:E; [|done].
  unfold Qltb in E. apply negb_true_iff, Qle_bool_false in E. lra.
Qed.

Lemma py_min_below (a x : Q) : (x <= a)%Q -> (py_min a x == x)%Q.
Proof.
  intros Hle. unfold py_min. destruct (Qltb x a) eqn:E; [reflexivity|].
  apply Qltb_false in E. lra.
Qed.

Lemma inject_Z_nonneg (z : Z) : 0 <= z -> (0 <= inject_Z z)%Q.
Proof. intros Hz. change 0%Q with (inject_Z 0). by rewrite <- Zle_Qle. Qed.

Lemma inject_Z_pos (z : Z) : 0 < z -> (0 < inject_Z z)%Q.
Proof. intros Hz. change 0%Q with (inject_Z 0). by rewrite <- Zlt_Qlt. Qed.

Lemma refill_nonneg (elapsed : Q) (rate per : Z) :
  (0 <= elapsed)%Q -> 0 <= rate -> 0 < per ->
  (0 <= elapsed * inject_Z rate / inject_Z per)%Q.
Proof.
  intros He Hr Hp. apply Qle_shift_div_l; [by apply inject_Z_pos|].
  pose proof (inject_Z_nonneg rate Hr). nra.
Qed.

(** A bucket that the elapsed time has filled up grants any request up to
    its capacity. *)
Lemma consume_when_full (requested : Z) (t : Q) (b : TokenBucket) :
  per b <> 0 ->
  (inject_Z (rate b)
   <= tokens b + (t - last_update b) * inject_Z (rate b) / inject_Z (per b))%Q ->
  requested <= rate b ->
  consume requested t b
  = (Returned true,
     mkTokenBucket (rate b) (per b) (inject_Z (rate b) - inject_Z requested)%Q t).
Proof.
  intros Hper Hfull Hreq. unfold consume.
  destruct (Z.eqb_spec (per b) 0) as [|_]; [done|].
  rewrite (py_min_full _ _ Hfull).
  assert (Hle : Qle_bool (inject_Z requested) (inject_Z (rate b)) = true).
  { apply Qle_bool_iff. by rewrite <- Zle_Qle. }
  by rewrite Hle.
Qed.

(** X8.  [consume] keeps the token count between 0 and the capacity: for a
    bucket with [0 <= tokens <= rate], a positive period and a clock that
    has not gone back, a request of a non-negative number of tokens returns
    (it does not raise) and leaves [0 <= tokens <= rate], with the time of the
    call as [last_update]; a refused request does not lower the count. *)
Theorem X8_consume_keeps_tokens_within_capacity
    (requested : Z) (t : Q) (b : TokenBucket) :
  (0 <= tokens b)%Q -> (tokens b <= inject_Z (rate b))%Q ->
  0 < per b -> (last_update b <= t)%Q -> 0 <= requested ->
  exists res b',
    consume requested t b = (Returned res, b')
    /\ (0 <= tokens b')%Q /\ (tokens b' <= inject_Z (rate b'))%Q
    /\ rate b' = rate b /\ per b' = per b /\ last_update b' = t
    /\ (res = false -> (tokens b <= tokens b')%Q).
Proof.
  intros Ht0 Ht1 Hper Htime Hreq. unfold consume.
  destruct (Z.eqb_spec (per b) 0) as [|_]; [lia|].
  assert (Hrate : 0 <= rate b).
  { rewrite Zle_Qle. change (inject_Z 0) with 0%Q. lra. }
  pose proof (refill_nonneg (t - last_update b) (rate b) (per b)
                ltac:(lra) Hrate Hper) as Hadd.
  set (x := (tokens b + (t - last_update b) * inject_Z (rate b) / inject_Z (per b))%Q)
    in *.
  pose proof (py_min_le_l (inject_Z (rate b)) x) as Hup.
  pose proof (py_min_glb (inject_Z (rate b)) x (tokens b) Ht1 ltac:(subst x; lra))
    as Hlow.
  pose proof (inject_Z_nonneg requested Hreq) as HreqQ.
  destruct (Qle_bool (inject_Z requested) (py_min (inject_Z (rate b)) x)) eqn:E.
  - apply Qle_bool_iff in E. do 2 eexists. split; [done|]. simpl.
    repeat split; try done; lra.
  - do 2 eexists. split; [done|]. simpl. repeat split; try done; lra.
Qed.

Lemma X8_consume_bounds_witness :
  exists res b',
    consume 1 5 drained_bucket = (Returned res, b')
    /\ (0 <= tokens b')%Q /\ (tokens b' <= inject_Z (rate b'))%Q.
Proof.
  destruct (X8_consume_keeps_tokens_within_capacity 1 5 drained_bucket
              ltac:(vm_compute; discriminate) ltac:(vm_compute; discriminate)
              ltac:(reflexivity) ltac:(vm_compute; discriminate)
              ltac:(vm_compute; discriminate))
    as (res & b' & H1 & H2 & H3 & _).
  eauto.
Defined.

Lemma consume_many_S (n : nat) (requested : Z) (t : Q) (b : TokenBucket) :
  consume_many (S n) requested t b
  = (let '(res, b1) := consume requested t b in
     let '(rest, b2) := consume_many n requested t b1 in
     (res :: rest, b2)).
Proof. reflexivity. Qed.

Lemma consume_many_same_instant (k : nat) (t : Q) (b : TokenBucket) :
  per b <> 0 -> last_update b = t ->
  (tokens b == inject_Z (Z.of_nat k))%Q -> Z.of_nat k <= rate b ->
  (consume_many (S k) 1 t b).1 = (replicate k (Returned true) ++ [Returned false])%list.
Proof.
  revert b. induction k as [|k IH]; intros b Hper Hlast Htok Hcap.
  - simpl. unfold consume.
    destruct (Z.eqb_spec (per b) 0) as [|_]; [done|].
    set (x := (tokens b + (t - last_update b) * inject_Z (rate b) / inject_Z (per b))%Q).
    assert (Hx : (x == 0)%Q).
    { subst x. rewrite Hlast, Htok. unfold Qdiv. simpl. ring. }
    assert (Hmin : (py_min (inject_Z (rate b)) x == 0)%Q).
    { rewrite py_min_below; [done|]. rewrite Hx.
      apply inject_Z_nonneg. lia. }
    destruct (Qle_bool (inject_Z 1) (py_min (inject_Z (rate b)) x)) eqn:E; [|done].
    apply Qle_bool_iff in E. rewrite Hmin in E. change (inject_Z 1) with 1%Q in E. lra.
  - rewrite consume_many_S. unfold consume at 1.
    destruct (Z.eqb_spec (per b) 0) as [|_]; [done|].
    set (x := (tokens b + (t - last_update b) * inject_Z (rate b) / inject_Z (per b))%Q).
    assert (Hx : (x == inject_Z (Z.of_nat (S k)))%Q).
    { subst x. rewrite Hlast, Htok. unfold Qdiv. ring. }
    assert (Hmin : (py_min (inject_Z (rate b)) x == inject_Z (Z.of_nat (S k)))%Q).
    { rewrite py_min_below; [done|]. rewrite Hx. by rewrite <- Zle_Qle. }
    assert (Hk : (inject_Z (Z.of_nat (S k)) == inject_Z (Z.of_nat k) + 1)%Q).
    { rewrite Nat2Z.inj_succ. unfold Z.succ. rewrite inject_Z_plus. reflexivity. }
    destruct (Qle_bool (inject_Z 1) (py_min (inject_Z (rate b)) x)) eqn:E.
    + set (b1 := mkTokenBucket _ _ _ _).
      specialize (IH b1 Hper eq_refl).
      assert (Hrest : (consume_many (S k) 1 t b1).1
                      = (replicate k (Returned true) ++ [Returned false])%list).
      { apply IH; [|simpl; lia]. simpl.
        rewrite Hmin, Hk. change (inject_Z 1) with 1%Q. ring. }
      destruct (consume_many (S k) 1 t b1) as [rest b2]. simpl in *.
      by rewrite Hrest.
    + apply Qle_bool_false in E. rewrite Hmin, Hk in E.
      change (inject_Z 1) with 1%Q in E.
      pose proof (inject_Z_nonneg (Z.of_nat k) ltac:(lia)). lra.
Qed.

(** X9.  A fresh bucket of capacity [rate] grants exactly [rate] requests of
    one token made at the instant of its creation, and refuses the next
    one. *)
Theorem X9_fresh_bucket_grants_exactly_its_capacity (rate per : Z) (t : Q) :
  0 <= rate -> per <> 0 ->
  (consume_many (S (Z.to_nat rate)) 1 t (TokenBucket__init__ rate per t)).1
  = (replicate (Z.to_nat rate) (Returned true) ++ [Returned false])%list.
Proof.
  intros Hrate Hper. apply consume_many_same_instant; simpl; try done.
  - by rewrite Z2Nat.id.
  - lia.
Qed.

Lemma X9_fresh_bucket_witness :
  (consume_many 4 1 0 (TokenBucket__init__ 3 60 0)).1
  = [Returned true; Returned true; Returned true; Returned false].
Proof.
  apply (X9_fresh_bucket_grants_exactly_its_capacity 3 60 0); lia.
Defined.

(** X10.  Once a full period has passed since the last update, and whatever
    the bucket held, a request of at most the capacity is granted and leaves
    the capacity minus the request. *)
Theorem X10_bucket_is_full_after_one_period
    (requested : Z) (t : Q) (b : TokenBucket) :
  (0 <= tokens b)%Q -> 0 < rate b -> 0 < per b ->
  (last_update b + inject_Z (per b) <= t)%Q ->
  requested <= rate b ->
  consume requested t b
  = (Returned true,
     mkTokenBucket (rate b) (per b) (inject_Z (rate b) - inject_Z requested)%Q t).
Proof.
  intros Htok Hrate Hper Htime Hreq.
  apply consume_when_full; [lia| |done].
  pose proof (inject_Z_pos (per b) Hper) as HperQ.
  pose proof (inject_Z_pos (rate b) Hrate) as HrateQ.
  assert (Hadd : (inject_Z (rate b)
                  <= (t - last_update b) * inject_Z (rate b) / inject_Z (per b))%Q).
  { apply Qle_shift_div_l; [done|]. nra. }
  lra.
Qed.

Lemma X10_full_after_period_witness :
  consume 30 60 drained_bucket
  = (Returned true, mkTokenBucket 30 60 (inject_Z 30 - inject_Z 30)%Q 60).
Proof.
  apply (X10_bucket_is_full_after_one_period 30 60 drained_bucket
           ltac:(vm_compute; discriminate) ltac:(reflexivity) ltac:(reflexivity)
           ltac:(vm_compute; discriminate) ltac:(vm_compute; discriminate)).
Defined.

(** X11.  The buckets are independent: an [acquire] on one service, whatever
    its outcome, leaves the bucket of every other service as it was. *)
Theorem X11_acquire_leaves_other_buckets
    (settings : Settings) (service other : string) (requested : Z) (wait : bool)
    (r : RateLimiter.RateLimiter) (c : Clock) :
  other <> service ->
  limiters (acquire settings service requested wait r c).1.2 !! other
  = limiters r !! other.
Proof.
  intros Hne. unfold acquire.
  repeat (case_match; simpl; try done); by rewrite lookup_insert_ne.
Qed.

Lemma X11_other_buckets_witness :
  limiters (acquire default_settings "github" 40 false
              (RateLimiter__init__ default_settings 0) clock0).1.2 !! "llm"
  = limiters (RateLimiter__init__ default_settings 0) !! "llm".
Proof.
  apply (X11_acquire_leaves_other_buckets default_settings "github" "llm").
  discriminate.
Defined.

(** X12.  After [reset] of a configured service its bucket is full again: an
    [acquire] of up to the configured limit, made at or after the time of
    the reset, returns [True] at once, without sleeping. *)
Theorem X12_reset_refills_the_bucket
    (settings : Settings) (service : string) (limit requested : Z) (wait : bool)
    (t : Q) (r : RateLimiter.RateLimiter) (c : Clock) :
  enable_rate_limiting settings = true ->
  str_truthy service = true ->
  is_Some (limiters r !! service) ->
  rate_limit_attr settings service = Some limit ->
  0 <= requested <= limit ->
  (t <= now c)%Q ->
  exists r1 b',
    reset settings (Some service) t r = Some r1
    /\ acquire settings service requested wait r1 c
       = (Returned true, store_bucket service b' r1, c)
    /\ tokens b' = (inject_Z limit - inject_Z requested)%Q.
Proof.
  intros Hon Hname [old Hold] Hattr Hreq Htime.
  unfold reset. simpl. rewrite Hname, Hold, Hattr.
  do 2 eexists. split; [done|].
  unfold acquire. rewrite Hon. simpl. rewrite lookup_insert_eq.
  rewrite consume_when_full; simpl.
  - split; done.
  - done.
  - pose proof (refill_nonneg (now c - t) limit 60 ltac:(lra) ltac:(lia) ltac:(lia)).
    lra.
  - lia.
Qed.

Lemma X12_reset_witness :
  exists r1 b',
    reset default_settings (Some "github") 7 drained_limiter = Some r1
    /\ acquire default_settings "github" 30 false r1 (mkClock 7 [])
       = (Returned true, store_bucket "github" b' r1, mkClock 7 [])
    /\ tokens b' = (inject_Z 30 - inject_Z 30)%Q.
Proof.
  apply (X12_reset_refills_the_bucket default_settings "github" 30 30 false 7
           drained_limiter (mkClock 7 [])); try reflexivity.
  - vm_compute. eauto.
  - lia.
  - vm_compute. discriminate.
Defined.

(** X13.  The decorator [rate_limited]: when the non-blocking [acquire] is
    refused, the decorated function is not executed and the wrapper raises
    an [Exception] that names the service; when rate limiting is disabled,
    the wrapper is the function itself and touches neither the buckets nor
    the clock. *)
Theorem X13_rate_limited_wrapper
    {World V : Type} (func : World -> outcome V * World)
    (settings : Settings) (service : string) (requested : Z)
    (r : RateLimiter.RateLimiter) (c : Clock) (w : World) :
  (forall b b1,
      enable_rate_limiting settings = true ->
      limiters r !! service = Some b ->
      consume requested (now c) b = (Returned false, b1) ->
      rate_limited func settings service requested false r c w
      = (Raised (simple_exn Exception ("Rate limit exceeded for " ++ service)),
         store_bucket service b1 r, c, w))
  /\ (forall wait,
        enable_rate_limiting settings = false ->
        rate_limited func settings service requested wait r c w
        = ((func w).1, r, c, (func w).2)).
Proof.
  split.
  - intros b b1 Hon Hb Hcons. unfold rate_limited, acquire.
    by rewrite Hon, Hb, Hcons.
  - intros wait Hoff. unfold rate_limited, acquire. rewrite Hoff. simpl.
    by destruct (func w).
Qed.

Lemma X13_rate_limited_witness :
  rate_limited counting_call default_settings "github" 1 false drained_limiter
               clock0 0%nat
  = (Raised (simple_exn Exception "Rate limit exceeded for github"),
     store_bucket "github" (consume 1 0 drained_bucket).2 drained_limiter,
     clock0, 0%nat).
Proof.
  apply (proj1 (X13_rate_limited_wrapper counting_call default_settings "github" 1
                  drained_limiter clock0 0%nat)
           drained_bucket (consume 1 0 drained_bucket).2).
  - reflexivity.
  - vm_compute. reflexivity.
  - vm_compute. reflexivity.
Defined.

End TokenBucketProperties.

(** ** The sliding window limiter *)

Section SlidingWindowProperties.
Import Py Time SlidingWindowRateLimiter.

Local Abbreviation before c := (fun a : Q => Qltb a c = true).

Lemma Qltb_true (a b : Q) : Qltb a b = true <-> (a < b)%Q.
Proof. unfold Qltb. rewrite negb_true_iff. apply Qle_bool_false. Qed.

Lemma popleft_split (c : Q) (l : list Q) :
  exists d, l = (d ++ popleft_while_before c l)%list /\ Forall (before c) d.
Proof.
  induction l as [|a l (d & Hl & Hd)]; simpl.
  - by exists [].
  - destruct (Qltb a c) eqn:E.
    + exists (a :: d). split; [simpl; by f_equal|by constructor].
    + by exists [].
Qed.

Lemma popleft_app_dropped (c : Q) (d l : list Q) :
  Forall (before c) d ->
  popleft_while_before c (d ++ l) = popleft_while_before c l.
Proof. induction 1 as [|a d Ha _ IH]; simpl; [done|]. by rewrite Ha. Qed.

Lemma popleft_head_kept (c : Q) (l : list Q) (a : Q) (k : list Q) :
  popleft_while_before c l = a :: k -> Qltb a c = false.
Proof.
  induction l as [|x l IH]; simpl; [done|].
  destruct (Qltb x c) eqn:E; [done|]. by intros [= <- _].
Qed.

Lemma popleft_kept_app (c : Q) (l x : list Q) :
  Forall (fun a => Qltb a c = false) x ->
  popleft_while_before c (popleft_while_before c l ++ x)
  = (popleft_while_before c l ++ x)%list.
Proof.
  intros Hx. destruct (popleft_while_before c l) as [|a k] eqn:E; simpl.
  - destruct Hx as [|a x Ha _]; simpl; [done|]. by rewrite Ha.
  - by rewrite (popleft_head_kept c l a k E).
Qed.

Lemma popleft_length (c : Q) (l : list Q) :
  (length (popleft_while_before c l) <= length l)%nat.
Proof.
  induction l as [|a l IH]; simpl; [done|]. destruct (Qltb a c); simpl; lia.
Qed.

Lemma before_mono (c c' : Q) (d : list Q) :
  (c <= c')%Q -> Forall (before c) d -> Forall (before c') d.
Proof.
  intros Hc Hd. eapply Forall_impl; [exact Hd|]. intros a Ha.
  apply Qltb_true in Ha. apply Qltb_true. lra.
Qed.

Lemma is_allowed_fields (t : Q) (s : SlidingWindowRateLimiter) :
  rate (is_allowed t s).2 = rate s /\ window (is_allowed t s).2 = window s.
Proof. unfold is_allowed. by case_match. Qed.

Lemma is_allowed_calls_fields (ts : list Q) (s : SlidingWindowRateLimiter) :
  rate (is_allowed_calls ts s).2 = rate s
  /\ window (is_allowed_calls ts s).2 = window s.
Proof.
  revert s. induction ts as [|t ts IH]; intros s; simpl; [done|].
  pose proof (is_allowed_fields t s) as [Hr Hw].
  destruct (is_allowed t s) as [ok s1]. specialize (IH s1).
  destruct (is_allowed_calls ts s1) as [allowed s2]. simpl in *.
  destruct IH. split; congruence.
Qed.

Lemma is_allowed_bound (t : Q) (s : SlidingWindowRateLimiter) :
  Z.of_nat (length (requests s)) <= Z.max 0 (rate s) ->
  Z.of_nat (length (requests (is_allowed t s).2)) <= Z.max 0 (rate s).
Proof.
  intros Hlen. unfold is_allowed.
  pose proof (popleft_length (t - inject_Z (window s))%Q (requests s)) as Hle.
  destruct (Z.ltb_spec (Z.of_nat (length (popleft_while_before
              (t - inject_Z (window s))%Q (requests s)))) (rate s)); simpl.
  - rewrite length_app. simpl. lia.
  - lia.
Qed.

Lemma is_allowed_calls_bound (ts : list Q) (s : SlidingWindowRateLimiter) :
  Z.of_nat (length (requests s)) <= Z.max 0 (rate s) ->
  Z.of_nat (length (requests (is_allowed_calls ts s).2)) <= Z.max 0 (rate s).
Proof.
  revert s. induction ts as [|t ts IH]; intros s Hlen; simpl; [done|].
  pose proof (is_allowed_bound t s Hlen) as H1.
  pose proof (is_allowed_fields t s) as [Hr _].
  destruct (is_allowed t s) as [ok s1]. simpl in *.
  specialize (IH s1). rewrite Hr in IH. specialize (IH H1).
  by destruct (is_allowed_calls ts s1) as [allowed s2].
Qed.

(** After calls at times not later than the last one, the deque is what the
    purge of the last call leaves of the old deque followed by the allowed
    calls. *)
Lemma is_allowed_calls_requests (ts : list Q) (s : SlidingWindowRateLimiter)
    (t_last : Q) :
  0 <= window s ->
  last ts = Some t_last ->
  Forall (fun t => (t <= t_last)%Q) ts ->
  requests (is_allowed_calls ts s).2
  = popleft_while_before (t_last - inject_Z (window s))%Q
      (requests s ++ (is_allowed_calls ts s).1).
Proof.
  revert s. induction ts as [|t ts IH]; intros s Hw Hlast Hle; [done|].
  apply Forall_cons in Hle as [Ht Hle].
  pose proof (inject_Z_nonneg (window s) Hw) as HwQ.
  destruct (popleft_split (t - inject_Z (window s))%Q (requests s))
    as (d & Hsplit & Hd).
  apply (before_mono _ (t_last - inject_Z (window s))%Q) in Hd; [|lra].
  set (kept := popleft_while_before (t - inject_Z (window s))%Q (requests s)) in *.
  simpl. unfold is_allowed. fold kept.
  destruct ts as [|t' ts].
  - simpl in Hlast. inversion Hlast; subst t_last. simpl.
    destruct (Z.of_nat (length kept) <? rate s); simpl; rewrite Hsplit at 1.
    + rewrite <- app_assoc, popleft_app_dropped by done.
      subst kept. rewrite popleft_kept_app; [done|].
      constructor; [|done]. apply Qltb_false. lra.
    + rewrite app_nil_r, popleft_app_dropped by done.
      subst kept.
      pose proof (popleft_kept_app (t - inject_Z (window s))%Q (requests s) []
                    ltac:(done)) as Hid.
      by rewrite !app_nil_r in Hid.
  - assert (Hlast' : last (t' :: ts) = Some t_last) by (by rewrite last_cons_cons in Hlast).
    destruct (Z.of_nat (length kept) <? rate s).
    + specialize (IH (mkSlidingWindowRateLimiter (rate s) (window s) (kept ++ [t]))
                     Hw Hlast' Hle).
      destruct (is_allowed_calls (t' :: ts) _) as [allowed s2]. simpl in *.
      rewrite IH. rewrite Hsplit at 1.
      rewrite <- !app_assoc. rewrite (popleft_app_dropped _ d) by done. done.
    + specialize (IH (mkSlidingWindowRateLimiter (rate s) (window s) kept)
                     Hw Hlast' Hle).
      destruct (is_allowed_calls (t' :: ts) _) as [allowed s2]. simpl in *.
      rewrite IH. rewrite Hsplit at 1.
      rewrite <- !app_assoc. rewrite (popleft_app_dropped _ d) by done. done.
Qed.

Lemma allowed_calls_sublist (P : Q -> Prop) (ts : list Q)
    (s : SlidingWindowRateLimiter) :
  Forall P ts -> Forall P (is_allowed_calls ts s).1.
Proof.
  revert s. induction ts as [|t ts IH]; intros s Hts; simpl; [done|].
  apply Forall_cons in Hts as [Ht Hts].
  destruct (is_allowed t s) as [ok s1]. specialize (IH s1 Hts).
  destruct (is_allowed_calls ts s1) as [allowed s2]. simpl in *.
  destruct ok; [by constructor|done].
Qed.

Lemma allowed_calls_sorted (ts : list Q) (s : SlidingWindowRateLimiter) :
  StronglySorted Qle ts -> StronglySorted Qle (is_allowed_calls ts s).1.
Proof.
  revert s. induction ts as [|t ts IH]; intros s Hs; simpl; [constructor|].
  apply StronglySorted_inv in Hs as [Hs Ht].
  pose proof (allowed_calls_sublist (Qle t) ts (is_allowed t s).2 Ht) as Hsub.
  specialize (IH (is_allowed t s).2 Hs).
  destruct (is_allowed t s) as [ok s1]. simpl in *.
  destruct (is_allowed_calls ts s1) as [allowed s2]. simpl in *.
  destruct ok; [by constructor|done].
Qed.

Lemma popleft_sorted_is_filter (c : Q) (l : list Q) :
  StronglySorted Qle l ->
  popleft_while_before c l = List.filter (fun a => negb (Qltb a c)) l.
Proof.
  induction 1 as [|a l Hs IH Ha]; simpl; [done|].
  destruct (Qltb a c) eqn:E; simpl; [done|].
  f_equal. symmetry. apply forallb_filter_id. apply forallb_forall.
  intros x Hx. rewrite List.Forall_forall in Ha. specialize (Ha x Hx).
  apply negb_true_iff, Qltb_false. apply Qltb_false in E. lra.
Qed.

Lemma sorted_last_bound (ts : list Q) (t_last : Q) :
  StronglySorted Qle ts -> last ts = Some t_last ->
  Forall (fun t => (t <= t_last)%Q) ts.
Proof.
  intros Hs Hlast. apply last_Some in Hlast as [ts' ->].
  apply Forall_app. split.
  - clear -Hs. induction ts' as [|a ts' IH]; [done|].
    simpl in Hs. apply StronglySorted_inv in Hs as [Hs Ha].
    constructor; [|by apply IH].
    rewrite List.Forall_forall in Ha. apply Ha. apply in_or_app. right. by left.
  - constructor; [lra|done].
Qed.

(** X14.  A new sliding window limiter that is called at non-decreasing
    times never allows more than [rate] calls within one window: after any
    such sequence of calls, the allowed calls that are not older than the
    last call minus the window are exactly the entries of its deque, and
    there are at most [rate] of them (none when [rate] is negative). *)
Theorem X14_sliding_window_allows_at_most_rate_per_window
    (rate window : Z) (ts : list Q) (t_last : Q) :
  0 <= window ->
  StronglySorted Qle ts ->
  last ts = Some t_last ->
  let '(allowed, s) := is_allowed_calls ts (__init__ rate window) in
  requests s = within_window window t_last allowed
  /\ Z.of_nat (length (within_window window t_last allowed)) <= Z.max 0 rate.
Proof.
  intros Hw Hs Hlast.
  pose proof (is_allowed_calls_requests ts (__init__ rate window) t_last Hw Hlast
                (sorted_last_bound ts t_last Hs Hlast)) as Hreq.
  pose proof (is_allowed_calls_bound ts (__init__ rate window)
                ltac:(simpl; lia)) as Hbound.
  pose proof (allowed_calls_sorted ts (__init__ rate window) Hs) as Hsorted.
  destruct (is_allowed_calls ts (__init__ rate window)) as [allowed s].
  simpl in *. rewrite popleft_sorted_is_filter in Hreq by done.
  unfold within_window. rewrite <- Hreq. done.
Qed.

Lemma X14_sliding_window_witness :
  let '(allowed, s) := is_allowed_calls [0; 1; 2; 70]%Q (__init__ 2 60) in
  requests s = within_window 60 70 allowed
  /\ Z.of_nat (length (within_window 60 70 allowed)) <= Z.max 0 2.
Proof.
  apply (X14_sliding_window_allows_at_most_rate_per_window 2 60 [0; 1; 2; 70]%Q 70).
  - lia.
  - repeat (constructor; [|repeat constructor; vm_compute; discriminate]).
    constructor.
  - reflexivity.
Defined.

(** X15.  When [is_allowed] refuses a call (the deque holding at most
    [rate] entries before, as it always does), [wait_time], read at any time
    [tw], is defined and not negative, and every call made later than [tw]
    plus that wait is allowed. *)
Theorem X15_allowed_after_the_wait
    (t tw t' : Q) (s : SlidingWindowRateLimiter) :
  Z.of_nat (length (requests s)) <= Z.max 0 (rate s) ->
  0 < rate s ->
  (is_allowed t s).1 = false ->
  exists w,
    wait_time tw (is_allowed t s).2 = Some w
    /\ (0 <= w)%Q
    /\ ((tw + w < t')%Q -> (is_allowed t' (is_allowed t s).2).1 = true).
Proof.
  intros Hlen Hrate Hrefused. unfold is_allowed in *.
  pose proof (popleft_length (t - inject_Z (window s))%Q (requests s)) as Hle.
  set (kept := popleft_while_before (t - inject_Z (window s))%Q (requests s)) in *.
  destruct (Z.ltb_spec (Z.of_nat (length kept)) (rate s)) as [|Hfull]; [done|].
  simpl. unfold wait_time. simpl.
  destruct (Z.ltb_spec (Z.of_nat (length kept)) (rate s)) as [|_]; [lia|].
  destruct kept as [|oldest rest] eqn:Hkept; [simpl in Hfull; lia|].
  eexists. split; [done|]. split.
  { unfold py_max. destruct (Qltb 0 _) eqn:E; [|lra].
    apply Qltb_true in E. lra. }
  intros Hlater.
  assert (Hw : (oldest + inject_Z (window s) - tw
                <= py_max 0 (oldest + inject_Z (window s) - tw))%Q).
  { unfold py_max. destruct (Qltb 0 _) eqn:E; [lra|]. apply Qltb_false in E. lra. }
  assert (Hdrop : Qltb oldest (t' - inject_Z (window s)) = true).
  { apply Qltb_true. lra. }
  simpl. rewrite Hdrop.
  pose proof (popleft_length (t' - inject_Z (window s))%Q rest) as Hle'.
  destruct (Z.ltb_spec
              (Z.of_nat (length (popleft_while_before (t' - inject_Z (window s)) rest)))
              (rate s)) as [|Hge]; [done|].
  simpl in Hle. lia.
Qed.

Lemma X15_allowed_after_wait_witness :
  exists w,
    wait_time 11 (is_allowed 10 (mkSlidingWindowRateLimiter 1 60 [5%Q])).2 = Some w
    /\ (0 <= w)%Q
    /\ ((11 + w < 66)%Q ->
        (is_allowed 66 (is_allowed 10 (mkSlidingWindowRateLimiter 1 60 [5%Q])).2).1
        = true).
Proof.
  apply (X15_allowed_after_the_wait 10 11 66 (mkSlidingWindowRateLimiter 1 60 [5%Q])).
  - vm_compute. discriminate.
  - reflexivity.
  - vm_compute. reflexivity.
Defined.

End SlidingWindowProperties.

(** ** Cache hits, expiry and the maintenance operations *)

Ltac entries_typed :=
  change (Py.pyval * Z)%type with (Py.pyval * Datetime.datetime)%type in *.

Section CacheHits.
Import Py Datetime Cache.

Context {World Args : Type}.
Variable datetime_now : World -> datetime.
Variable generate_key : Args -> string.
Variable func : Args -> World -> outcome pyval * World.
Variable func__name__ : string.
Variable ttl : option Z.
Variable key_prefix : string.

Local Abbreviation key := (cache_key Args generate_key func__name__ key_prefix).
Local Abbreviation wrapper enable_caching :=
  (cached datetime_now generate_key func func__name__ enable_caching ttl key_prefix).

Lemma set_stores (k : string) (v : pyval) (t : option Z) (now : datetime)
    (c c' : InMemoryCache) :
  set k v t now c = (Returned tt, c') ->
  c' = mkInMemoryCache
         (<[k := (v, now + effective_ttl t c * 1000000)]> (_cache c)) (_ttl c).
Proof.
  unfold set, timedelta_seconds, add, shift. intros H.
  repeat case_match; simplify_eq; done.
Qed.

Lemma get_hit (k : string) (v : pyval) (expiry now : datetime) (c : InMemoryCache) :
  _cache c !! k = Some (v, expiry) -> now < expiry -> get k now c = (v, c).
Proof.
  intros Hk Hlt. unfold get. entries_typed. rewrite Hk.
  by destruct (Z.ltb_spec now expiry); [|lia].
Qed.

(** X16.  A miss followed by a hit: when the wrapper finds nothing under the
    key of a call, executes the function, gets a result other than [None]
    and stores it, every later identical call made before
    [ttl] seconds (the default of the cache when [ttl] is [None] or 0) have
    passed on the clock returns that result without executing the function,
    and leaves the cache as it is. *)
Theorem X16_second_call_within_ttl_is_a_hit
    (args : Args) (c : InMemoryCache) (w w1 w' : World) (result : pyval)
    (m2 : CacheManager) :
  (get (key args) (datetime_now w) c).1 = PyNone ->
  func args w = (Returned result, w1) ->
  result <> PyNone ->
  wrapper true args (mkCacheManager (Some c)) w = (Returned result, m2, w1) ->
  datetime_now w' < datetime_now w1 + effective_ttl ttl c * 1000000 ->
  wrapper true args m2 w' = (Returned result, m2, w').
Proof.
  intros Hmiss Hf Hres Hfirst Hnow. unfold cached in *. simpl in *.
  unfold manager_get in Hfirst. simpl in Hfirst.
  destruct (get (key args) (datetime_now w) c) as [v c1] eqn:Hget.
  simpl in Hmiss. subst v. simpl in Hfirst. rewrite Hf in Hfirst.
  unfold manager_set in Hfirst. simpl in Hfirst.
  destruct (set (key args) result ttl (datetime_now w1) c1) as [[[]|e] c2] eqn:Hset;
    [|done].
  injection Hfirst as <-.
  apply set_stores in Hset.
  assert (Httl : effective_ttl ttl c1 = effective_ttl ttl c).
  { unfold get in Hget. unfold effective_ttl.
    repeat case_match; simplify_eq; done. }
  rewrite Httl in Hset. subst c2.
  unfold manager_get. simpl.
  rewrite (get_hit (key args) result (datetime_now w1 + effective_ttl ttl c * 1000000));
    [| simpl; by rewrite lookup_insert_eq | done].
  simpl. by destruct result.
Qed.

(** X17.  An entry whose expiry has been reached is deleted by the lookup
    that meets it, other entries staying, and the wrapper then executes the
    function: the world after the call is the one the function leaves. *)
Theorem X17_expired_entry_is_evicted_and_recomputed
    (args : Args) (c : InMemoryCache) (w : World) (v : pyval) (expiry : datetime) :
  _cache c !! key args = Some (v, expiry) ->
  expiry <= datetime_now w ->
  get (key args) (datetime_now w) c
  = (PyNone, mkInMemoryCache (base.delete (key args) (_cache c)) (_ttl c))
  /\ (wrapper true args (mkCacheManager (Some c)) w).2 = (func args w).2
  /\ (forall r, (func args w).1 = Raised r ->
        wrapper true args (mkCacheManager (Some c)) w
        = (Raised r,
           mkCacheManager
             (Some (mkInMemoryCache (base.delete (key args) (_cache c)) (_ttl c))),
           (func args w).2)).
Proof.
  intros Hk Hexp.
  assert (Hget : get (key args) (datetime_now w) c
                 = (PyNone, mkInMemoryCache (base.delete (key args) (_cache c)) (_ttl c))).
  { unfold get. entries_typed. rewrite Hk.
    by destruct (Z.ltb_spec (datetime_now w) expiry); [lia|]. }
  split; [done|]. unfold cached, manager_get. simpl. rewrite Hget. simpl.
  destruct (func args w) as [[result|e] w1]; simpl.
  - split; [|done]. by destruct (manager_set _ _ _ _ _) as [[[]|e] m2].
  - split; [done|]. by intros r [= ->].
Qed.

(** X18.  Failures are not cached, and a cache without backend caches
    nothing.  When the lookup misses and the function raises, the wrapper
    raises the same exception and stores nothing: the cache is the one the
    lookup left.  With caching switched off in the settings, or with a
    manager built without backend, the wrapper is the function. *)
Theorem X18_failures_and_disabled_caching
    (args : Args) (m : CacheManager) (w : World) :
  (forall e w1,
      (manager_get (key args) (datetime_now w) m).1 = PyNone ->
      func args w = (Raised e, w1) ->
      wrapper true args m w
      = (Raised e, (manager_get (key args) (datetime_now w) m).2, w1))
  /\ wrapper false args m w = ((func args w).1, m, (func args w).2)
  /\ (backend m = None ->
      forall enabled,
        wrapper enabled args m w = ((func args w).1, m, (func args w).2)).
Proof.
  split; [|split].
  - intros e w1 Hmiss Hf. unfold cached. simpl.
    destruct (manager_get (key args) (datetime_now w) m) as [v m1].
    simpl in Hmiss. subst v. simpl. by rewrite Hf.
  - unfold cached. simpl. by destruct (func args w).
  - intros Hb enabled. destruct m as [[c|]]; [done|].
    unfold cached, manager_get, manager_set.
    destruct enabled; simpl; by destruct (func args w) as [[result|e] w1].
Qed.

End CacheHits.

Section CacheHitExamples.
Import Py Datetime Cache.

Lemma X16_second_call_witness :
  Cache.cached Examples.example_now Examples.example_digest Examples.search_func
    "search" true (Some 3600) "github" tt
    (Examples.cached_search_func tt
       (mkCacheManager (Some (InMemoryCache__init__ 3600))) 0%nat).1.2 5%nat
  = (Returned (PyStr "repo"),
     (Examples.cached_search_func tt
        (mkCacheManager (Some (InMemoryCache__init__ 3600))) 0%nat).1.2,
     5%nat).
Proof.
  apply (X16_second_call_within_ttl_is_a_hit
           Examples.example_now Examples.example_digest Examples.search_func "search"
           (Some 3600) "github" tt (InMemoryCache__init__ 3600) 0%nat 1%nat 5%nat
           (PyStr "repo")).
  - reflexivity.
  - reflexivity.
  - discriminate.
  - vm_compute. reflexivity.
  - vm_compute. reflexivity.
Defined.

Lemma X17_expired_entry_witness :
  get "github:search:d751713988987e9331980363e24189ce" 1000 Examples.expired_cache
  = (PyNone, mkInMemoryCache ∅ 3600)
  /\ (Examples.cached_search_func tt (mkCacheManager (Some Examples.expired_cache))
        0%nat).2 = 1%nat.
Proof.
  destruct (X17_expired_entry_is_evicted_and_recomputed
              Examples.example_now Examples.example_digest Examples.search_func "search"
              (Some 3600) "github" tt Examples.expired_cache 0%nat (PyStr "old") 500
              ltac:(vm_compute; reflexivity) ltac:(vm_compute; discriminate))
    as (Hget & Hworld & _).
  split.
  - etrans; [exact Hget|]. vm_compute. reflexivity.
  - exact Hworld.
Defined.

End CacheHitExamples.

Section CacheMaintenance.
Import Py Datetime Cache.

Lemma lookup_foldl_delete {A} (ks : list string) (d : gmap string A) (k : string) :
  foldl (fun d key => base.delete key d) d ks !! k
  = if decide (k ∈ ks) then None else d !! k.
Proof.
  revert d. induction ks as [|x ks IH]; intros d; simpl; [done|].
  rewrite IH. destruct (decide (k = x)) as [->|Hne].
  - rewrite lookup_delete_eq. rewrite (decide_True (P := x ∈ x :: ks)) by set_solver.
    by destruct (decide (x ∈ ks)).
  - rewrite lookup_delete_ne by done.
    destruct (decide (k ∈ ks)).
    + by rewrite decide_True by set_solver.
    + by rewrite decide_False by set_solver.
Qed.

Lemma elem_of_expired_keys (now : datetime) (c : InMemoryCache) (k : string) :
  k ∈ expired_keys now c
  <-> exists v expiry, _cache c !! k = Some (v, expiry) /\ expiry <= now.
Proof.
  unfold expired_keys. rewrite list_elem_of_fmap. split.
  - intros ([k' [v e]] & -> & Hin). apply list_elem_of_In, filter_In in Hin as [Hin He].
    apply list_elem_of_In, elem_of_map_to_list in Hin. simpl in *.
    exists v, e. split; [done|lia].
  - intros (v & e & Hk & He). exists (k, (v, e)). split; [done|].
    apply list_elem_of_In, filter_In. split.
    + by apply list_elem_of_In, elem_of_map_to_list.
    + simpl. lia.
Qed.

Lemma size_lookup (now : datetime) (c : InMemoryCache) (k : string) :
  _cache (size now c).2 !! k
  = match _cache c !! k with
    | Some (v, expiry) => if now <? expiry then Some (v, expiry) else None
    | None => None
    end.
Proof.
  unfold size. simpl. rewrite lookup_foldl_delete.
  destruct (decide (k ∈ expired_keys now c)) as [Hin|Hnin].
  - apply elem_of_expired_keys in Hin as (v & e & -> & He).
    by destruct (Z.ltb_spec now e); [lia|].
  - destruct (_cache c !! k) as [[v e]|] eqn:Hk; [|done].
    destruct (Z.ltb_spec now e); [done|].
    exfalso. apply Hnin, elem_of_expired_keys. by exists v, e.
Qed.

Lemma cache_eq (c c' : InMemoryCache) :
  _cache c = _cache c' -> _ttl c = _ttl c' -> c = c'.
Proof. destruct c, c'. simpl. by intros -> ->. Qed.

(** What [size] keeps is the cache filtered by "not yet expired". *)
Lemma size_keeps_the_unexpired (now : datetime) (c : InMemoryCache) :
  _cache (size now c).2
  = filter (fun entry : string * (pyval * datetime) => now < entry.2.2) (_cache c).
Proof.
  apply map_eq. intros k. apply option_eq. intros [v e].
  rewrite map_lookup_filter_Some, size_lookup. simpl.
  destruct (_cache c !! k) as [[v' e']|] eqn:Hk.
  - destruct (Z.ltb_spec now e'); split.
    + intros [= -> ->]. done.
    + intros [[= -> ->] _]. done.
    + done.
    + intros [[= -> ->] ?]. lia.
  - split; [done|]. by intros [? _].
Qed.

(** X19.  [size] removes exactly the entries whose expiry has been reached
    and returns the number of the others: the number of entries of the
    cache with [now < expiry], which are the entries it keeps.  The removal
    cannot be seen through [get]: at the same clock reading every lookup
    answers as before and changes nothing any more, and a second [size]
    gives the same number and the same cache. *)
Theorem X19_size_evicts_exactly_the_expired (now : datetime) (c : InMemoryCache) :
  (forall k,
      _cache (size now c).2 !! k
      = match _cache c !! k with
        | Some (v, expiry) => if now <? expiry then Some (v, expiry) else None
        | None => None
        end)
  /\ (size now c).1
     = Z.of_nat (base.size
                   (filter (fun entry : string * (pyval * datetime) =>
                              now < entry.2.2) (_cache c)))
  /\ (size now c).1 = Z.of_nat (base.size (_cache (size now c).2))
  /\ (size now c).1 <= Z.of_nat (base.size (_cache c))
  /\ (forall k, get k now (size now c).2 = ((get k now c).1, (size now c).2))
  /\ size now (size now c).2 = size now c.
Proof.
  split; [apply size_lookup|].
  split; [by rewrite <- size_keeps_the_unexpired|].
  split; [done|]. split; [|split].
  - unfold size. simpl. apply inj_le, map_subseteq_size.
    apply map_subseteq_spec. intros k x Hk.
    change (_cache (size now c).2 !! k = Some x) in Hk.
    rewrite size_lookup in Hk. repeat case_match; simplify_eq; done.
  - intros k. pose proof (size_lookup now c k) as Hl.
    unfold get. entries_typed. rewrite Hl.
    destruct (_cache c !! k) as [[v e]|] eqn:Hk; [|done].
    by destruct (now <? e) eqn:E; [rewrite E|].
  - assert (Hsame : _cache (size now (size now c).2).2 = _cache (size now c).2).
    { apply map_eq. intros k. rewrite !size_lookup.
      destruct (_cache c !! k) as [[v e]|]; [|done].
      by destruct (now <? e) eqn:E; [rewrite E|]. }
    unfold size in *. simpl in *. f_equal; [by rewrite Hsame|].
    by apply cache_eq.
Qed.

(** X20.  [delete] forgets its key only, and is silent when the key is
    absent; [clear] forgets every key.  After either, a lookup of a
    forgotten key answers [None] and changes nothing. *)
Theorem X20_delete_and_clear (key : string) (now : datetime) (c : InMemoryCache) :
  get key now (delete key c) = (PyNone, delete key c)
  /\ (forall k, k <> key -> _cache (delete key c) !! k = _cache c !! k)
  /\ (_cache c !! key = None -> delete key c = c)
  /\ (forall k, get k now (clear c) = (PyNone, clear c))
  /\ size now (clear c) = (0, clear c).
Proof.
  split; [|split; [|split; [|split]]].
  - unfold delete, get. entries_typed.
    destruct (_cache c !! key) eqn:Hk; simpl; entries_typed.
    + by rewrite lookup_delete_eq.
    + by rewrite Hk.
  - intros k Hne. unfold delete. destruct (_cache c !! key); simpl; [|done].
    by rewrite lookup_delete_ne.
  - intros Hk. unfold delete. by rewrite Hk.
  - intros k. unfold get, clear. simpl. by rewrite lookup_empty.
  - unfold size, clear, expired_keys. simpl. by rewrite map_to_list_empty.
Qed.

End CacheMaintenance.

(** ** The [handle_errors] decorator *)

Section HandleErrorsProperties.
Import Py ErrorHandler.

Context {World V : Type}.
Variable func : World -> outcome V * World.
Variable func__name__ : string.
Variable default_return : V.

Lemma recommender_is_exception (e : exn) :
  isinstance e RecommenderException = true -> isinstance e Exception = true.
Proof. unfold isinstance. by destruct (cls e). Qed.

(** X21.  What [handle_errors] lets through.  The wrapper leaves the world
    as the function left it and returns what the function returns.  With
    [raise_on_error=False] every failure of class [Exception] becomes the
    default value.  An exception of class [Exception] that leaves the
    wrapper is a [RecommenderException], and [raise_on_error] is set: it is
    the function's own exception, or the function raised something else and
    the new exception names the function only, so that the text shown to the
    user no longer contains the original message. *)
Theorem X21_handle_errors_lets_only_recommender_exceptions_through
    (raise_on_error : bool) (w : World) :
  let wrapped := handle_errors func func__name__ default_return raise_on_error w in
  wrapped.2 = (func w).2
  /\ (forall v, (func w).1 = Returned v -> wrapped.1 = Returned v)
  /\ (raise_on_error = false ->
      forall e, (func w).1 = Raised e -> isinstance e Exception = true ->
                wrapped.1 = Returned default_return)
  /\ (forall e', wrapped.1 = Raised e' -> isinstance e' Exception = true ->
        raise_on_error = true
        /\ isinstance e' RecommenderException = true
        /\ ((func w).1 = Raised e'
            \/ exists e,
                 (func w).1 = Raised e
                 /\ isinstance e RecommenderException = false
                 /\ format_error_for_user e'
                    = "❌ Error: Unexpected error in " ++ func__name__)).
Proof.
  unfold handle_errors. destruct (func w) as [[v|e] w1]; simpl; [done|].
  destruct (isinstance e RecommenderException) eqn:Hrec.
  - pose proof (recommender_is_exception e Hrec) as Hexc.
    destruct raise_on_error; simpl; repeat split; intros; simplify_eq/=;
      try done; by left.
  - destruct (isinstance e Exception) eqn:Hexc.
    + destruct raise_on_error; simpl; repeat split; intros; simplify_eq/=;
        try done. right. by exists e.
    + repeat split; intros; simplify_eq/=; congruence.
Qed.

End HandleErrorsProperties.

(** ** Matching and gaps *)

Section MatchingProperties.
Import Py PyStr SkillGapAnalyzer.

Variable ratio : string -> string -> Q.

Lemma fuzzy_match_spec (cv_skills : gset string) (x : string) (thr : Q) :
  fuzzy_match ratio cv_skills x thr = true
  <-> exists y, y ∈ cv_skills /\ (thr <= ratio x y)%Q.
Proof.
  unfold fuzzy_match. rewrite existsb_exists. split.
  - intros (y & Hy & Hle). exists y. split.
    + by apply elem_of_elements, list_elem_of_In.
    + by apply Qle_bool_iff.
  - intros (y & Hy & Hle). exists y. split.
    + by apply list_elem_of_In, elem_of_elements.
    + by apply Qle_bool_iff.
Qed.

Lemma find_matches_fold_elem (cv_skills : gset string) (thr : Q)
    (l : list string) (X : gset string) (x : string) :
  x ∈ foldl (fun matches job_skill =>
               if bool_decide (job_skill ∈ cv_skills) then matches ∪ {[ job_skill ]}
               else if fuzzy_match ratio cv_skills job_skill thr
                    then matches ∪ {[ job_skill ]}
                    else matches) X l
  <-> x ∈ X
      \/ (x ∈ l /\ (x ∈ cv_skills \/ fuzzy_match ratio cv_skills x thr = true)).
Proof.
  revert X. induction l as [|s l IH]; intros X; simpl.
  - set_solver.
  - rewrite IH. rewrite elem_of_cons.
    destruct (bool_decide (s ∈ cv_skills)) eqn:Hin.
    + apply bool_decide_eq_true in Hin. set_solver.
    + apply bool_decide_eq_false in Hin.
      destruct (fuzzy_match ratio cv_skills s thr) eqn:Hf.
      * rewrite elem_of_union, elem_of_singleton. split.
        -- intros [[H| ->]|H]; [by left| |right]; [right|]; naive_solver.
        -- intros [H|[[->|H] H']]; [left; by left | left; by right | right; done].
      * split.
        -- intros [H|H]; [by left|right]; naive_solver.
        -- intros [H|[[->|H] H']]; [by left| |right; done].
           destruct H' as [H'|H']; [done|congruence].
Qed.

Lemma elem_of_find_matches (cv_skills job_skills : gset string) (thr : Q)
    (x : string) :
  x ∈ _find_matches ratio cv_skills job_skills thr
  <-> x ∈ job_skills
      /\ (x ∈ cv_skills \/ exists y, y ∈ cv_skills /\ (thr <= ratio x y)%Q).
Proof.
  unfold _find_matches. rewrite find_matches_fold_elem, elem_of_elements.
  rewrite fuzzy_match_spec. set_solver.
Qed.

(** X22.  [_find_matches] returns exactly the job skills that are CV
    skills or that some CV skill resembles with a ratio of at least the
    threshold.  So a job skill that the CV has is matched whatever the
    threshold and the ratio are, an empty CV matches nothing, and a larger
    CV never matches less. *)
Theorem X22_find_matches_characterization
    (cv_skills job_skills : gset string) (thr : Q) :
  (forall x,
      x ∈ _find_matches ratio cv_skills job_skills thr
      <-> x ∈ job_skills
          /\ (x ∈ cv_skills \/ exists y, y ∈ cv_skills /\ (thr <= ratio x y)%Q))
  /\ job_skills ∩ cv_skills ⊆ _find_matches ratio cv_skills job_skills thr
  /\ _find_matches ratio ∅ job_skills thr = ∅
  /\ (forall cv_skills' : gset string,
        cv_skills ⊆ cv_skills' ->
        _find_matches ratio cv_skills job_skills thr
        ⊆ _find_matches ratio cv_skills' job_skills thr).
Proof.
  split; [apply elem_of_find_matches|]. split; [|split].
  - intros x Hx. apply elem_of_find_matches. set_solver.
  - apply set_eq. intros x. rewrite elem_of_find_matches. set_solver.
  - intros cv' Hsub x. rewrite !elem_of_find_matches.
    intros [Hj [Hc|(y & Hy & Hle)]]; (split; [done|]); [left|right]; set_solver.
Qed.


End MatchingProperties.

(** ** Looking up the requirement of a gap *)

Section FindSkillRequirement.
Import Py PyStr SkillGapAnalyzer.

Local Abbreviation separators_removed l :=
  (remove_chars " " (remove_chars "-" (remove_chars "." l))).

Local Abbreviation plain l :=
  (forall c : ascii, In c l -> isspace c = true -> c = " "%char).

Lemma lower_without_separators_chars (s : string) :
  lower_without_separators s
  = of_chars (separators_removed (map lower_char (chars s))).
Proof.
  unfold lower_without_separators, remove, lower. by rewrite !chars_of_chars.
Qed.

Lemma separators_removed_rev (l : list ascii) :
  separators_removed (rev l) = rev (separators_removed l).
Proof. unfold remove_chars. by rewrite !filter_rev. Qed.

Lemma separators_removed_lstrip (l : list ascii) :
  plain l -> separators_removed (drop_while isspace l) = separators_removed l.
Proof.
  induction l as [|c l IH]; intros Hplain; simpl; [done|].
  destruct (isspace c) eqn:Hc; [|done].
  rewrite (Hplain c (or_introl eq_refl) Hc). simpl.
  apply IH. intros c' Hc'. apply Hplain. by right.
Qed.

Lemma separators_removed_strip (l : list ascii) :
  plain l -> separators_removed (strip_chars l) = separators_removed l.
Proof.
  intros Hplain. unfold strip_chars, rstrip_chars, lstrip_chars.
  rewrite separators_removed_rev, separators_removed_lstrip.
  - by rewrite separators_removed_rev, rev_involutive, separators_removed_lstrip.
  - intros c Hc. apply in_rev, In_drop_while in Hc. by apply Hplain.
Qed.

Lemma plain_lower (s : string) :
  plain_whitespace s = true -> plain (map lower_char (chars s)).
Proof.
  unfold plain_whitespace. rewrite forallb_forall.
  intros Hplain c Hc Hsp. apply in_map_iff in Hc as (c0 & <- & Hc0).
  specialize (Hplain c0 Hc0). rewrite isspace_lower_char in Hsp.
  rewrite Hsp in Hplain. simpl in Hplain. apply Ascii.eqb_eq in Hplain.
  by subst c0.
Qed.

(** On a name whose only whitespace is the ordinary space the two
    normalizations agree, and a normalized name is left as it is. *)
Lemma lower_without_separators_normalize (s : string) :
  plain_whitespace s = true ->
  lower_without_separators s = normalize_skill s
  /\ lower_without_separators (normalize_skill s) = normalize_skill s.
Proof.
  intros Hplain. rewrite !lower_without_separators_chars, !normalize_skill_chars.
  rewrite chars_of_chars. unfold normalize_chars.
  rewrite (separators_removed_strip _ (plain_lower s Hplain)). split; [done|].
  f_equal.
  pose proof (normalize_chars_normal (chars s) Hplain) as Hnormal.
  unfold normalize_chars in Hnormal.
  rewrite (separators_removed_strip _ (plain_lower s Hplain)) in Hnormal.
  set (l := separators_removed (map lower_char (chars s))) in *.
  assert (Hmap : map lower_char l = l).
  { rewrite <- (map_id l) at 2. apply map_ext_in. intros c Hc.
    apply (Hnormal c Hc). }
  rewrite Hmap.
  rewrite (remove_chars_none "." l) by (intros c Hc; apply (Hnormal c Hc)).
  rewrite (remove_chars_none "-" l) by (intros c Hc; apply (Hnormal c Hc)).
  apply remove_chars_none. intros c Hc. apply (Hnormal c Hc).
Qed.

(** X24.  The lookup [get_prioritized_gaps] makes for a gap succeeds when
    the names of the requirements contain no whitespace character other than
    the ordinary space: for every normalized required skill, and so for
    every skill the analysis reports missing, [_find_skill_requirement]
    returns a requirement of the list whose name normalizes to that
    skill. *)
Theorem X24_find_skill_requirement_finds_the_gap
    (ratio : string -> string -> Q)
    (cv_data : CVData) (job_requirements : JobRequirements) (x : string) :
  (forall req, In req (required_skills job_requirements) ->
               plain_whitespace (name req) = true) ->
  x ∈ missing_required_skills (analyze_gaps ratio cv_data job_requirements) ->
  exists req,
    _find_skill_requirement x (required_skills job_requirements) = Some req
    /\ In req (required_skills job_requirements)
    /\ normalize_skill (name req) = x.
Proof.
  intros Hplain Hx.
  change (missing_required_skills (analyze_gaps ratio cv_data job_requirements))
    with (elements
            (_normalize_skills (get_required_skill_names job_requirements)
             ∖ _find_matches ratio
                 (_normalize_skills (get_all_skill_names cv_data))
                 (_normalize_skills (get_required_skill_names job_requirements))
                 default_threshold)) in Hx.
  apply elem_of_elements, elem_of_difference in Hx as [Hx _].
  apply elem_of_normalize_skills in Hx as (s & Hs & ->).
  unfold get_required_skill_names in Hs.
  apply list_elem_of_In, in_map_iff in Hs as (r & <- & Hr).
  destruct (lower_without_separators_normalize (name r) (Hplain r Hr))
    as [Hsame Hfixed].
  unfold _find_skill_requirement. rewrite Hfixed.
  destruct (find _ (required_skills job_requirements)) as [req|] eqn:Hfind.
  - apply find_some in Hfind as [Hin Heq]. apply String.eqb_eq in Heq.
    exists req. split; [done|]. split; [done|].
    destruct (lower_without_separators_normalize (name req) (Hplain req Hin))
      as [Hsame' _].
    congruence.
  - pose proof (find_none _ _ Hfind r Hr) as Hnot. simpl in Hnot.
    rewrite Hsame, String.eqb_refl in Hnot. done.
Qed.

End FindSkillRequirement.

Section FindSkillRequirementExample.
Import Py PyStr SkillGapAnalyzer Examples.

Lemma X24_find_skill_requirement_witness :
  exists req,
    _find_skill_requirement "c" (required_skills job_go_c_r) = Some req
    /\ In req (required_skills job_go_c_r)
    /\ normalize_skill (name req) = "c".
Proof.
  apply (X24_find_skill_requirement_finds_the_gap
           ratio_of_disjoint_strings cv_go job_go_c_r "c").
  - intros req [<-|[<-|[<-|[]]]]; reflexivity.
  - vm_compute. set_solver.
Defined.

End FindSkillRequirementExample.

(** ** The background task and the progress stream *)

Section TaskProperties.
Import Py Datetime JobManager ErrorHandler Workflow Backend.
Context `{Collaborators}.

Lemma update_job_absent (now : datetime) (j : string) (kwargs : list kwarg)
    (m : JobManager.JobManager) :
  _jobs m !! j = None -> update_job now j kwargs m = m.
Proof. intros Hj. unfold update_job. by rewrite Hj. Qed.

Lemma get_job_update_job (now : datetime) (j j' : string) (kwargs : list kwarg)
    (m : JobManager.JobManager) :
  get_job j' (update_job now j kwargs m) = get_job j' m.
Proof. unfold get_job, update_job. by destruct (_jobs m !! j). Qed.

Opaque update_job.

(** The task never replaces the object of its job. *)
Lemma task_keeps_the_object
    (m : JobManager.JobManager) (j : string) (l : loc)
    (path : option string) (jd : string) (w : World) :
  get_job j m = Some l ->
  Forall (fun m' => get_job j m' = Some l)
         (m :: updates (process_cv_analysis j path jd m w)).
Proof.
  intros Hj. constructor; [done|]. unfold process_cv_analysis.
  unfold set_failed, set_completed, JobManager.set_progress, set_processing.
  destruct (run_workflow path None jd w) as [[[final|e] w1] executed]; simpl.
  - destruct (str_truthy (Workflow.current_step final)),
      (Workflow.errors final), (recommendation_result final);
      cbn [app List.last updates]; repeat constructor;
      by rewrite !get_job_update_job.
  - destruct (isinstance e Exception); cbn [updates];
      repeat constructor; by rewrite !get_job_update_job.
Qed.

(** X25.  How the task leaves the job.  For a job that is in the store,
    when the task returns the job is COMPLETED, with progress 100, the
    dumped recommendation result and the error it had before, or FAILED,
    with progress 0, the error message of the stage that failed and the
    result it had before; the first happens exactly on the runs that do not
    enter the error handler.  When an exception that is no [Exception]
    escapes from the task, the job is left PROCESSING at progress 10.  The
    id and the creation time of the job never change, and [updated_at] is
    the time of the last update. *)
Theorem X25_task_outcome_decides_the_final_job
    (m : JobManager.JobManager) (j : string) (l : loc) (job : JobState)
    (path : option string) (jd : string) (w : World) :
  _jobs m !! j = Some l ->
  heap m !! l = Some job ->
  let r := process_cv_analysis j path jd m w in
  exists job',
    read_job j (final_manager m r) = Some job'
    /\ job_id job' = job_id job
    /\ created_at job' = created_at job
    /\ match task_outcome r with
       | Returned _ =>
           updated_at job' = utcnow (final_world r)
           /\
           (status job' = COMPLETED
            /\ JobManager.progress_percentage job' = 100
            /\ JobManager.current_step job' = "Completed"
            /\ (exists res, result job' = model_dump res)
            /\ error job' = error job
            /\ ~ In error_handler (executed_nodes r))
           \/ (status job' = FAILED
               /\ JobManager.progress_percentage job' = 0
               /\ JobManager.current_step job' = "Failed"
               /\ (exists msg, error job' = Some msg)
               /\ result job' = result job
               /\ In error_handler (executed_nodes r))
       | Raised e =>
           isinstance e Exception = false
           /\ status job' = PROCESSING
           /\ JobManager.progress_percentage job' = 10
           /\ JobManager.current_step job' = "Initializing workflow..."
           /\ updated_at job' = utcnow w
       end.
Proof.
  intros Hj Hl r.
  pose proof (read_job_present m j l job Hj Hl) as Hread.
  pose proof (run_workflow_cases path jd w) as Hrun.
  subst r. unfold process_cv_analysis, str_truthy.
  destruct (run_workflow path None jd w) as [[[final|e] w1] executed].
  - destruct Hrun as [(msg & Herr & Hin & Hprog & Hstep)
                      |(Herr & Hnin & Hprog & Hstep & [res Hres])].
    + rewrite Herr, Hprog, Hstep. cbn -[read_job].
      unfold set_failed, JobManager.set_progress, set_processing.
      rewrite !read_job_update_job, Hread. cbn.
      eexists. split; [done|]. repeat split. right. repeat split; eauto.
    + rewrite Herr, Hprog, Hstep, Hres. cbn -[read_job].
      unfold set_completed, JobManager.set_progress, set_processing.
      rewrite !read_job_update_job, Hread. cbn.
      eexists. split; [done|]. repeat split. left. repeat split; eauto.
  - destruct Hrun as [He Hnin]. rewrite He. cbn -[read_job].
    unfold JobManager.set_progress, set_processing.
    rewrite !read_job_update_job, Hread. cbn.
    eexists. split; [done|]. repeat split; try done.
Qed.

(** X26.  A task whose job is not in the store (it was deleted, or swept)
    still runs the whole workflow, and none of its updates changes the
    store. *)
Theorem X26_task_on_a_missing_job_changes_nothing
    (m : JobManager.JobManager) (j : string) (path : option string) (jd : string)
    (w : World) :
  _jobs m !! j = None ->
  let r := process_cv_analysis j path jd m w in
  Forall (fun m' => m' = m) (updates r)
  /\ final_manager m r = m
  /\ executed_nodes r = (run_workflow path None jd w).2
  /\ final_world r = (run_workflow path None jd w).1.2.
Proof.
  intros Hj r. subst r. unfold process_cv_analysis, final_manager.
  unfold set_failed, set_completed, JobManager.set_progress, set_processing.
  destruct (run_workflow path None jd w) as [[[final|e] w1] executed]; simpl.
  - destruct (str_truthy (Workflow.current_step final)),
      (Workflow.errors final), (recommendation_result final);
      cbn [app List.last updates]; rewrite !(update_job_absent _ _ _ m Hj);
      repeat split; repeat constructor.
  - destruct (isinstance e Exception); cbn [updates List.last];
      rewrite !(update_job_absent _ _ _ m Hj); repeat split; repeat constructor.
Qed.

Lemma run_workflow_without_cv (path : option string) (jd : string) (w : World) :
  opt_str_truthy path = false ->
  run_workflow path None jd w
  = (Returned
       (mkWorkflowState path None jd None None None None None
          [format_error_for_user
             (simple_exn ValueError "No CV file path or text provided")]
          "Error occurred" 0),
     w, [parse_cv; error_handler]).
Proof.
  intros Hpath. destruct path as [[|c s]|]; try discriminate; reflexivity.
Qed.

(** X27.  Without a CV path ([None] or the empty string) no agent is called:
    [parse_cv] raises its [ValueError] at once, the run goes through the
    error handler, the world is left as it was, and the job ends FAILED with
    the message for an unexpected error. *)
Theorem X27_task_without_cv_path_fails_at_once
    (m : JobManager.JobManager) (j : string) (l : loc) (job : JobState)
    (path : option string) (jd : string) (w : World) :
  _jobs m !! j = Some l ->
  heap m !! l = Some job ->
  opt_str_truthy path = false ->
  let r := process_cv_analysis j path jd m w in
  executed_nodes r = [parse_cv; error_handler]
  /\ final_world r = w
  /\ task_outcome r = Returned tt
  /\ exists job',
       read_job j (final_manager m r) = Some job'
       /\ status job' = FAILED
       /\ JobManager.progress_percentage job' = 0
       /\ error job'
          = Some ("❌ An unexpected error occurred: "
                  ++ "No CV file path or text provided" ++ ". Please try again.").
Proof.
  intros Hj Hl Hpath r.
  pose proof (read_job_present m j l job Hj Hl) as Hread.
  subst r. unfold process_cv_analysis.
  rewrite (run_workflow_without_cv path jd w Hpath).
  cbn -[read_job].
  unfold set_failed, JobManager.set_progress, set_processing.
  rewrite !read_job_update_job, Hread. cbn.
  repeat split. eexists. split; [done|]. repeat split.
Qed.

(** The final state of the job decides whether a stream can end. *)
Lemma task_final_status
    (m : JobManager.JobManager) (j : string) (l : loc) (job : JobState)
    (path : option string) (jd : string) (w : World) :
  _jobs m !! j = Some l ->
  heap m !! l = Some job ->
  let r := process_cv_analysis j path jd m w in
  match task_outcome r with
  | Returned _ =>
      exists job',
        read_job j (final_manager m r) = Some job'
        /\ is_terminal (status job') = true
  | Raised _ =>
      Forall (fun m' => exists job',
                          read_job j m' = Some job' /\ status job' = PROCESSING)
             (updates r)
  end.
Proof.
  intros Hj Hl r.
  pose proof (read_job_present m j l job Hj Hl) as Hread.
  pose proof (run_workflow_cases path jd w) as Hrun.
  subst r. unfold process_cv_analysis, str_truthy.
  destruct (run_workflow path None jd w) as [[[final|e] w1] executed].
  - destruct Hrun as [(msg & Herr & Hin & Hprog & Hstep)
                      |(Herr & Hnin & Hprog & Hstep & [res Hres])].
    + rewrite Herr, Hprog, Hstep. cbn -[read_job].
      unfold set_failed, JobManager.set_progress, set_processing.
      rewrite !read_job_update_job, Hread. cbn. eauto.
    + rewrite Herr, Hprog, Hstep, Hres. cbn -[read_job].
      unfold set_completed, JobManager.set_progress, set_processing.
      rewrite !read_job_update_job, Hread. cbn. eauto.
  - destruct Hrun as [He Hnin]. rewrite He. cbn -[read_job].
    unfold JobManager.set_progress, set_processing.
    repeat constructor; rewrite !read_job_update_job, Hread; cbn; eauto.
Qed.

Transparent update_job.

End TaskProperties.

Section StreamProperties.
Import Py Datetime JobManager ErrorHandler Workflow Backend.

Lemma event_generator_finishes (j : string) (passes : list stream_pass) :
  (event_generator j passes).2 = true <-> Exists (ends_stream j) passes.
Proof.
  induction passes as [|p passes IH]; simpl.
  - split; [done|]. by intros ?%Exists_nil.
  - rewrite Exists_cons. unfold ends_stream at 1.
    destruct (read_job j (at_read p)) as [job|]; simpl; [|naive_solver].
    rewrite <- is_terminal_spec.
    destruct (is_terminal (live_status j p job)); simpl; [naive_solver|].
    destruct (event_generator j passes) as [events finished]. simpl in *.
    rewrite IH. naive_solver.
Qed.

(** During a pass without update the status tested after the [yield] is the
    one of the event. *)
Lemma live_status_quiescent (j : string) (p : stream_pass) (job : JobState) :
  quiescent p -> read_job j (at_read p) = Some job ->
  live_status j p job = status job.
Proof.
  unfold quiescent, live_status, read_job. intros -> Hread.
  destruct (get_job j (at_read p)) as [l|]; simpl in *; [by rewrite Hread|done].
Qed.

(** X28.  The progress stream yields at most one event per pass, and one
    per pass while it has not finished.  It finishes exactly when some pass
    finds the job missing, or finds the status COMPLETED or FAILED when the
    generator is resumed after the [yield].  When the store does not change
    between the reading of a pass and that test, the event that ends the
    stream is the last one and the only one that reports a missing job or a
    terminal status. *)
Theorem X28_stream_closes_with_its_last_event
    (j : string) (passes : list stream_pass) :
  let '(events, finished) := event_generator j passes in
  (length events <= length passes)%nat
  /\ (finished = true <-> Exists (ends_stream j) passes)
  /\ (finished = true -> events <> [])
  /\ (finished = false -> length events = length passes)
  /\ (Forall quiescent passes ->
      (finished = true ->
       exists earlier last,
         events = (earlier ++ [last])%list
         /\ closes_stream last = true
         /\ Forall (fun e => closes_stream e = false) earlier)
      /\ (finished = false -> Forall (fun e => closes_stream e = false) events)).
Proof.
  pose proof (event_generator_finishes j passes) as Hfin.
  destruct (event_generator j passes) as [events finished] eqn:Hgen.
  simpl in Hfin. split; [|split; [done|]]; clear Hfin.
  - revert events finished Hgen.
    induction passes as [|p passes IH]; simpl; intros events finished Hgen.
    + by injection Hgen as <- <-.
    + destruct (read_job j (at_read p)) as [job|];
        [|injection Hgen as <- <-; simpl; lia].
      destruct (is_terminal (live_status j p job));
        [injection Hgen as <- <-; simpl; lia|].
      destruct (event_generator j passes) as [events' finished'].
      injection Hgen as <- <-. specialize (IH _ _ eq_refl). simpl. lia.
  - revert events finished Hgen.
    induction passes as [|p passes IH]; simpl; intros events finished Hgen.
    + injection Hgen as <- <-. split; [done|]. split; [done|].
      intros _. split; [done|]. by intros _.
    + destruct (read_job j (at_read p)) as [job|] eqn:Hread.
      * destruct (is_terminal (live_status j p job)) eqn:Hterm.
        -- injection Hgen as <- <-. split; [done|]. split; [done|].
           intros [Hq _]%Forall_cons. split; [|done]. intros _.
           exists [], (sse_data j (status job) (JobManager.progress_percentage job)
                               (JobManager.current_step job) (error job)).
           rewrite (live_status_quiescent j p job Hq Hread) in Hterm.
           by repeat split.
        -- destruct (event_generator j passes) as [events' finished'].
           injection Hgen as <- <-.
           destruct (IH _ _ eq_refl) as (_ & IHlen & IHq).
           split; [done|]. split; [intros Hf; simpl; by rewrite (IHlen Hf)|].
           intros [Hq Hqs]%Forall_cons.
           rewrite (live_status_quiescent j p job Hq Hread) in Hterm.
           destruct (IHq Hqs) as [IH1 IH2]. split.
           ++ intros Hf. destruct (IH1 Hf) as (earlier & last & -> & Hlast & Hearlier).
              exists (sse_data j (status job) (JobManager.progress_percentage job)
                               (JobManager.current_step job) (error job) :: earlier),
                     last.
              repeat split; [done|]. by constructor.
           ++ intros Hf. constructor; [done|]. by apply IH2.
      * injection Hgen as <- <-. split; [done|]. split; [done|].
        intros _. split; [|done]. intros _.
        exists [], (sse_error "Job not found"). by repeat split.
Qed.

End StreamProperties.

Lemma last_in_cons {A} (l : list A) (d : A) : In (List.last l d) (d :: l).
Proof.
  induction l as [|a l IH]; [by left|].
  destruct l as [|b l]; [right; by left|].
  change (List.last (a :: b :: l) d) with (List.last (b :: l) d).
  destruct IH as [IH|IH]; [by left|right; by right].
Qed.

Section TaskAndStream.
Import Py Datetime JobManager ErrorHandler Workflow Backend.
Context `{Collaborators}.

(** What a stream does on the states a run leaves, from the final state of
    the job alone. *)
Lemma stream_after_run
    (m : JobManager.JobManager) (j : string) (l : loc) (job : JobState) (r : Run) :
  read_job j m = Some job ->
  is_terminal (status job) = false ->
  Forall (fun m' => get_job j m' = Some l) (m :: updates r) ->
  match task_outcome r with
  | Returned _ =>
      exists job',
        read_job j (final_manager m r) = Some job'
        /\ is_terminal (status job') = true
  | Raised _ =>
      Forall (fun m' => exists job',
                          read_job j m' = Some job' /\ status job' = PROCESSING)
             (updates r)
  end ->
  match task_outcome r with
  | Returned _ =>
      forall seen a,
        In a (m :: updates r) ->
        (event_generator j (seen ++ [mkPass a (final_manager m r)])).2 = true
  | Raised _ =>
      forall passes,
        Forall (fun p => In (at_read p) (m :: updates r)
                         /\ In (at_resume p) (m :: updates r)) passes ->
        (event_generator j passes).2 = false
  end.
Proof.
  intros Hread0 Hterm Hloc Hfinal.
  rewrite List.Forall_forall in Hloc.
  assert (Hlive : forall p job0,
             In (at_read p) (m :: updates r) -> In (at_resume p) (m :: updates r) ->
             live_status j p job0
             = match read_job j (at_resume p) with
               | Some job' => status job'
               | None => status job0
               end).
  { intros p job0 Ha Hb. unfold live_status, read_job.
    by rewrite (Hloc _ Ha), (Hloc _ Hb). }
  destruct (task_outcome r) as [[]|e].
  - destruct Hfinal as (job' & Hread & Hterm'). intros seen a Ha.
    apply event_generator_finishes, Exists_app. right. constructor.
    unfold ends_stream. simpl.
    destruct (read_job j a) as [job0|] eqn:Hra; [|done].
    apply is_terminal_spec.
    rewrite (Hlive (mkPass a (final_manager m r)) job0 Ha
                   ltac:(unfold final_manager; apply last_in_cons)).
    simpl. by rewrite Hread.
  - intros passes Hpasses. apply not_true_is_false.
    rewrite event_generator_finishes.
    assert (Hall : forall m', In m' (m :: updates r) ->
                     exists job', read_job j m' = Some job'
                                  /\ is_terminal (status job') = false).
    { intros m' [<-|Hin]; [by exists job|].
      rewrite List.Forall_forall in Hfinal.
      destruct (Hfinal m' Hin) as (job' & Hr & Hs). exists job'.
      by rewrite Hs. }
    intros Hex. apply List.Exists_exists in Hex as (p & Hin & Hends).
    rewrite List.Forall_forall in Hpasses.
    destruct (Hpasses p Hin) as [Ha Hb].
    unfold ends_stream in Hends.
    destruct (Hall _ Ha) as (job0 & Hr0 & _). rewrite Hr0 in Hends.
    apply is_terminal_spec in Hends.
    rewrite (Hlive p job0 Ha Hb) in Hends.
    destruct (Hall _ Hb) as (job1 & Hr1 & Ht1). rewrite Hr1 in Hends. congruence.
Qed.

(** X29.  The task and the stream together, for a job that is in the store
    and not yet terminal.  When the task returns, a stream finishes with
    the pass that tests the status in the final state of the store,
    whatever it has seen before.  When an exception that is no [Exception]
    escapes from the task, the job stays PROCESSING: a stream that sees
    only states the task leaves, in any order, never finishes. *)
Theorem X29_stream_finishes_iff_the_task_returns
    (m : JobManager.JobManager) (j : string) (l : loc) (job : JobState)
    (path : option string) (jd : string) (w : World) :
  _jobs m !! j = Some l ->
  heap m !! l = Some job ->
  is_terminal (status job) = false ->
  let r := process_cv_analysis j path jd m w in
  match task_outcome r with
  | Returned _ =>
      forall seen a,
        In a (m :: updates r) ->
        (event_generator j (seen ++ [mkPass a (final_manager m r)])).2 = true
  | Raised _ =>
      forall passes,
        Forall (fun p => In (at_read p) (m :: updates r)
                         /\ In (at_resume p) (m :: updates r)) passes ->
        (event_generator j passes).2 = false
  end.
Proof.
  intros Hj Hl Hterm r.
  apply (stream_after_run m j l job r (read_job_present m j l job Hj Hl) Hterm).
  - exact (task_keeps_the_object m j l path jd w Hj).
  - exact (task_final_status m j l job path jd w Hj Hl).
Qed.

End TaskAndStream.

Section TaskExamples.
Import Py Datetime JobManager ErrorHandler Workflow Backend Examples.

Lemma X25_task_outcome_witness :
  exists job',
    read_job "job-1" (final_manager pending_example successful_run) = Some job'
    /\ job_id job' = "job-1"
    /\ created_at job' = 1000.
Proof.
  destruct (@X25_task_outcome_decides_the_final_job
              all_agents_succeed pending_example "job-1" 1%positive
              pending_example_job (Some "/tmp/cv.pdf") "Python developer" 0%nat
              ltac:(vm_compute; reflexivity) ltac:(vm_compute; reflexivity))
    as (job' & Hread & Hid & Hcreated & _).
  exists job'. split; [exact Hread|]. split; [exact Hid|exact Hcreated].
Defined.

Lemma X26_missing_job_witness :
  final_manager (__init__ 3600)
    (@process_cv_analysis all_agents_succeed "job-1" (Some "/tmp/cv.pdf")
       "Python developer" (__init__ 3600) 0%nat)
  = __init__ 3600.
Proof.
  apply (proj1 (proj2 (@X26_task_on_a_missing_job_changes_nothing
                         all_agents_succeed (__init__ 3600) "job-1"
                         (Some "/tmp/cv.pdf") "Python developer" 0%nat
                         ltac:(vm_compute; reflexivity)))).
Defined.

Lemma X27_without_cv_path_witness :
  executed_nodes
    (@process_cv_analysis all_agents_succeed "job-1" None "Python developer"
       pending_example 0%nat)
  = [parse_cv; error_handler].
Proof.
  apply (proj1 (@X27_task_without_cv_path_fails_at_once
                  all_agents_succeed pending_example "job-1" 1%positive
                  pending_example_job None "Python developer" 0%nat
                  ltac:(vm_compute; reflexivity) ltac:(vm_compute; reflexivity)
                  eq_refl)).
Defined.

Lemma X29_stream_witness :
  let r := @process_cv_analysis all_agents_succeed "job-1" (Some "/tmp/cv.pdf")
             "Python developer" pending_example 0%nat in
  match task_outcome r with
  | Returned _ =>
      forall seen a,
        In a (pending_example :: updates r) ->
        (event_generator "job-1"
           (seen ++ [mkPass a (final_manager pending_example r)])).2 = true
  | Raised _ =>
      forall passes,
        Forall (fun p => In (at_read p) (pending_example :: updates r)
                         /\ In (at_resume p) (pending_example :: updates r))
               passes ->
        (event_generator "job-1" passes).2 = false
  end.
Proof.
  exact (@X29_stream_finishes_iff_the_task_returns
           all_agents_succeed pending_example "job-1" 1%positive
           pending_example_job (Some "/tmp/cv.pdf") "Python developer" 0%nat
           ltac:(vm_compute; reflexivity) ltac:(vm_compute; reflexivity)
           eq_refl).
Defined.

(** A stream can end after an event that reports no terminal status: the
    job is PENDING when the pass reads it, and COMPLETED by the time the
    generator is resumed. *)
Lemma stream_can_end_after_a_non_terminal_event :
  event_generator "job-1"
    [mkPass pending_example (final_manager pending_example successful_run)]
  = ([sse_data "job-1" PENDING 0 "Initializing..." None], true).
Proof. vm_compute. reflexivity. Qed.

End TaskExamples.

(** ** The reported wait time *)

Section WaitTimeProperties.
Import Py Time RateLimiter.

(** X30.  [get_wait_time] looks at the stored token count only.  For a
    configured service with a positive rate and period it reports 0 exactly
    when the bucket holds at least one token, and it is never negative; and
    when it reports 0, an [acquire] of one token made at or after the last
    update of the bucket returns [True] at once, without sleeping. *)
Theorem X30_zero_wait_means_a_token_is_available
    (settings : Settings) (service : string) (wait : bool)
    (r : RateLimiter.RateLimiter) (c : Clock) (b : TokenBucket) :
  enable_rate_limiting settings = true ->
  limiters r !! service = Some b ->
  0 < rate b -> 0 < per b ->
  (tokens b <= inject_Z (rate b))%Q ->
  (last_update b <= now c)%Q ->
  exists w,
    get_wait_time settings service r = Returned w
    /\ (0 <= w)%Q
    /\ ((w == 0)%Q <-> (1 <= tokens b)%Q)
    /\ ((w == 0)%Q ->
        exists b',
          acquire settings service 1 wait r c
          = (Returned true, store_bucket service b' r, c)).
Proof.
  intros Hen Hb Hrate Hper Hcap Hlast.
  pose proof (inject_Z_pos _ Hrate) as HrateQ.
  pose proof (inject_Z_pos _ Hper) as HperQ.
  assert (Hgrant : (1 <= tokens b)%Q ->
            exists b', acquire settings service 1 wait r c
                       = (Returned true, store_bucket service b' r, c)).
  { intros Htok. unfold acquire. rewrite Hen, Hb. simpl. unfold consume.
    destruct (Z.eqb_spec (per b) 0) as [|_]; [lia|].
    assert (Hrefill : (0 <= (now c - last_update b) * inject_Z (rate b)
                            / inject_Z (per b))%Q).
    { apply refill_nonneg; [lra|lia|done]. }
    assert (Hone : Qle_bool (inject_Z 1)
                     (py_min (inject_Z (rate b))
                             (tokens b + (now c - last_update b) * inject_Z (rate b)
                                         / inject_Z (per b))) = true).
    { apply Qle_bool_iff, py_min_glb.
      - rewrite <- Zle_Qle. lia.
      - change (inject_Z 1) with 1%Q. lra. }
    rewrite Hone. by eexists. }
  unfold get_wait_time, wait_time. rewrite Hen, Hb. simpl.
  destruct (Qle_bool 1 (tokens b)) eqn:E.
  - apply Qle_bool_iff in E. exists 0%Q. split; [done|]. split; [lra|].
    split; [done|]. intros _. by apply Hgrant.
  - apply Qle_bool_false in E.
    destruct (Z.eqb_spec (rate b) 0) as [|_]; [lia|].
    assert (Hpos : (0 < (1 - tokens b) * inject_Z (per b) / inject_Z (rate b))%Q).
    { apply Qlt_shift_div_l; [done|]. rewrite Qmult_0_l.
      apply Qmult_lt_0_compat; lra. }
    eexists. split; [done|]. split; [lra|]. split.
    + split; intros Hw; lra.
    + intros Hw. lra.
Qed.

Lemma X30_zero_wait_witness :
  exists w,
    get_wait_time Examples.default_settings "github"
      (RateLimiter__init__ Examples.default_settings 0) = Returned w
    /\ (0 <= w)%Q.
Proof.
  destruct (X30_zero_wait_means_a_token_is_available
              Examples.default_settings "github" true
              (RateLimiter__init__ Examples.default_settings 0) Examples.clock0
              (TokenBucket__init__ 30 60 0)
              ltac:(reflexivity) ltac:(vm_compute; reflexivity)
              ltac:(reflexivity) ltac:(reflexivity)
              ltac:(vm_compute; discriminate) ltac:(vm_compute; discriminate))
    as (w & Hw & Hpos & _).
  exists w. split; [exact Hw|exact Hpos].
Defined.

End WaitTimeProperties.
